(** * ASE GUI module: keyboard shortcuts, monitors, idle flags, widget loading

    A shallow embedding of [src/src/main.cpp] (the GUI module of the sprite
    editor) and of the [new_layer] command that calls into it.  Global
    variables of the C++ file become fields of explicit state records;
    pointers become handles into explicit stores; thrown conditions, NULL
    dereferences, failed assertions and invalidated iterators become
    explicit outcomes.

    Standing assumptions: [init_module_gui] has run (the [shortcuts] vector
    and the [monitors] list exist) and allocation succeeds.  Strings are
    strings of bytes, as the C strings are in the default encoding of
    Allegro (UTF-8), in which the terminating zero takes one byte. *)

From Stdlib Require Import ZArith Lia Ascii.
From stdpp Require Import base option list gmap strings pretty.

Local Open Scope Z_scope.

(** ** Keyboard shortcuts *)

(** [Command*]: an object of the command registry, identified by its
    address; [short_name()] is its identifier string. *)
Record Command := MkCommand { command_addr : nat; short_name : string }.

#[global] Instance Command_eq_dec : EqDecision Command.
Proof. solve_decision. Defined.

(** [Tool*]: tools are compared by address only. *)
Abbreviation Tool := nat.

(** Modelled from the spec: the [Params] class (commands/params.h) is a set
    of named parameters that compares by structural equality. *)
Abbreviation Params := (gmap string string).

(** Modelled from the spec: one alternative of an accelerator, a
    (modifier-mask, key-code) pair. *)
Record KeyCombo := MkKeyCombo { kc_shifts : Z; kc_key : Z }.

(** The fields of a [JM_KEYPRESSED] message that the module reads:
    [msg->any.shifts], [msg->key.ascii], [msg->key.scancode]. *)
Record KeyMsg := MkKeyMsg { msg_shifts : Z; msg_ascii : Z; msg_scancode : Z }.

(** [JAccel] is a pointer to an accelerator owned by the widget library; it
    is modelled as a handle into the store [accels] below. *)
Abbreviation JAccel := nat.

(** [enum ShortcutType] together with the anonymous union
    [{ Command* command; Tool* tool; }] and the [params] member, which is
    only allocated for [Shortcut_ExecuteCommand].  [command] is [None] when
    the pointer is NULL. *)
Inductive ShortcutTarget :=
| Shortcut_ExecuteCommand (command : option Command) (params : Params)
| Shortcut_ChangeTool (tool : Tool).

Record Shortcut := MkShortcut { accel : JAccel; target : ShortcutTarget }.

(** The accelerator store and the global [shortcuts] vector.  A
    [Shortcut*] is the position of the object in the vector: objects are
    only ever pushed at the back and never removed before shutdown.
    [buf_overrun] tells whether some call of [Shortcut::add_shortcut] has
    written past the end of its buffer: the behaviour of the program is
    undefined from then on, and the other two fields hold what the program
    would hold had the buffer been large enough. *)
Record Table := MkTable {
  accels : list (list KeyCombo);
  shortcuts : list Shortcut;
  buf_overrun : bool
}.

Definition empty_table : Table :=
  {| accels := []; shortcuts := []; buf_overrun := false |}.

(** Modelled from the spec: an alternative matches an input event if its
    modifier mask equals the event's active modifiers and its key-code
    equals the event's key-code or its character code. *)
Definition combo_matches (shifts ascii scancode : Z) (k : KeyCombo) : bool :=
  (kc_shifts k =? shifts) && ((kc_key k =? scancode) || (kc_key k =? ascii)).

(** Modelled from the spec: [jaccel_check] succeeds if any alternative of
    the accelerator matches. *)
Definition jaccel_check (keys : list KeyCombo) (shifts ascii scancode : Z) : bool :=
  existsb (combo_matches shifts ascii scancode) keys.

(** [jaccel_new()]: a fresh, empty accelerator. *)
Definition jaccel_new (t : Table) : JAccel * Table :=
  (length (accels t),
   {| accels := accels t ++ [[]]; shortcuts := shortcuts t;
      buf_overrun := buf_overrun t |}).

(** What the module reads of a child of the manager: its address,
    [jwindow_is_foreground] and [jwindow_is_desktop]. *)
Record Window := MkWindow {
  window_addr : nat;
  is_foreground : bool;
  is_desktop : bool
}.

(** What the key handler does besides returning: at most one call, either
    to [select_tool] or to [UIContext::instance()->execute_command]. *)
Inductive KeyAction :=
| select_tool (tool : Tool)
| execute_command (command : Command) (params : Params).

(** The outcome of the key handler: it dereferences a NULL pointer, or it
    returns [ret] after performing [action]. *)
Inductive KeyResult :=
| NullDereference
| Returned (action : option KeyAction) (ret : bool).

(** Sequences of bindings, as made while the configuration is loaded. *)
Inductive BindOp :=
| bind_command (shortcut_string command_name : string) (params : option Params)
| bind_tool (shortcut_string : string) (tool : Tool).

(** The collaborators declared outside this file:
    - [CommandsModule::instance()->get_command_by_name], the command
      registry;
    - the chord grammar of [jaccel_add_keys_from_string], giving the
      alternatives described by a string;
    - [tools_list], the array of the [MAX_TOOLS] tools in registration
      order;
    - the constant [CommandId::screen_shot]. *)
Class Collaborators := {
  get_command_by_name : string -> option Command;
  jaccel_parse : string -> list KeyCombo;
  tools_list : list Tool;
  screen_shot : string
}.

Section with_collaborators.
Context `{Collaborators}.

(** Modelled from the spec: [jaccel_add_keys_from_string] appends the
    parsed chords to the accelerator's alternatives. *)
Definition jaccel_add_keys_from_string (a : JAccel) (buf : string) (t : Table) : Table :=
  {| accels := alter (fun keys => keys ++ jaccel_parse buf) a (accels t);
     shortcuts := shortcuts t;
     buf_overrun := buf_overrun t |}.

(** The size of the local [char buf[256]] of [Shortcut::add_shortcut]. *)
Definition add_shortcut_buf_size : nat := 256.

(** [Shortcut::add_shortcut]: [usprintf(buf, "<%s>", shortcut_string)]
    writes the formatted string and its terminating zero into [buf] without
    any limit, so a [shortcut_string] of more than 253 bytes is written
    past the end of [buf]. *)
Definition add_shortcut (s : Shortcut) (shortcut_string : string) (t : Table) : Table :=
  let buf := "<" +:+ shortcut_string +:+ ">" in
  let t' := jaccel_add_keys_from_string (accel s) buf t in
  {| accels := accels t'; shortcuts := shortcuts t';
     buf_overrun :=
       buf_overrun t' || (add_shortcut_buf_size <? String.length buf + 1)%nat |}.

(** [Shortcut::is_key_pressed]; a handle that is not in the store plays the
    role of the NULL accelerator. *)
Definition is_key_pressed (t : Table) (s : Shortcut) (msg : KeyMsg) : bool :=
  match accels t !! accel s with
  | Some keys => jaccel_check keys (msg_shifts msg) (msg_ascii msg) (msg_scancode msg)
  | None => false
  end.

(** The test of the loop in [get_keyboard_shortcut_for_command]. *)
Definition is_shortcut_for_command (command : Command) (params : option Params)
    (s : Shortcut) : bool :=
  match target s with
  | Shortcut_ExecuteCommand c p =>
      bool_decide (c = Some command) &&
      match params with
      | None => bool_decide (p = ∅)
      | Some q => bool_decide (p = q)
      end
  | Shortcut_ChangeTool _ => false
  end.

(** [get_keyboard_shortcut_for_command]: the position of the first
    matching shortcut and the shortcut, or [None] for NULL. *)
Definition get_keyboard_shortcut_for_command (command_name : string)
    (params : option Params) (t : Table) : option (nat * Shortcut) :=
  match get_command_by_name command_name with
  | None => None
  | Some command =>
      list_find (fun s => is_shortcut_for_command command params s = true) (shortcuts t)
  end.

(** The test of the loop in [get_keyboard_shortcut_for_tool]. *)
Definition is_shortcut_for_tool (tool : Tool) (s : Shortcut) : bool :=
  match target s with
  | Shortcut_ChangeTool t' => bool_decide (t' = tool)
  | Shortcut_ExecuteCommand _ _ => false
  end.

Definition get_keyboard_shortcut_for_tool (tool : Tool) (t : Table)
    : option (nat * Shortcut) :=
  list_find (fun s => is_shortcut_for_tool tool s = true) (shortcuts t).

(** [add_keyboard_shortcut_to_execute_command]. *)
Definition add_keyboard_shortcut_to_execute_command (shortcut_string command_name : string)
    (params : option Params) (t : Table) : JAccel * Table :=
  match get_keyboard_shortcut_for_command command_name params t with
  | Some (_, shortcut) => (accel shortcut, add_shortcut shortcut shortcut_string t)
  | None =>
      let '(a, t1) := jaccel_new t in
      let shortcut :=
        {| accel := a;
           target := Shortcut_ExecuteCommand (get_command_by_name command_name)
                       (default ∅ params) |} in
      let t2 := {| accels := accels t1; shortcuts := shortcuts t1 ++ [shortcut];
                   buf_overrun := buf_overrun t1 |} in
      (accel shortcut, add_shortcut shortcut shortcut_string t2)
  end.

(** [add_keyboard_shortcut_to_change_tool]. *)
Definition add_keyboard_shortcut_to_change_tool (shortcut_string : string)
    (tool : Tool) (t : Table) : JAccel * Table :=
  match get_keyboard_shortcut_for_tool tool t with
  | Some (_, shortcut) => (accel shortcut, add_shortcut shortcut shortcut_string t)
  | None =>
      let '(a, t1) := jaccel_new t in
      let shortcut := {| accel := a; target := Shortcut_ChangeTool tool |} in
      let t2 := {| accels := accels t1; shortcuts := shortcuts t1 ++ [shortcut];
                   buf_overrun := buf_overrun t1 |} in
      (accel shortcut, add_shortcut shortcut shortcut_string t2)
  end.

(** [get_accel_to_execute_command] and [get_accel_to_change_tool]. *)
Definition get_accel_to_execute_command (command_name : string)
    (params : option Params) (t : Table) : option JAccel :=
  match get_keyboard_shortcut_for_command command_name params t with
  | Some (_, shortcut) => Some (accel shortcut)
  | None => None
  end.

Definition get_accel_to_change_tool (tool : Tool) (t : Table) : option JAccel :=
  match get_keyboard_shortcut_for_tool tool t with
  | Some (_, shortcut) => Some (accel shortcut)
  | None => None
  end.

(** *** The [JM_KEYPRESSED] case of [manager_msg_proc] *)

(** The first loop of the [Shortcut_ChangeTool] case: fills [group] with
    the tools whose shortcut is pressed; [None] when
    [get_keyboard_shortcut_for_tool] returns NULL for some tool. *)
Fixpoint collect_group (t : Table) (msg : KeyMsg) (tools : list Tool)
    : option (list Tool) :=
  match tools with
  | [] => Some []
  | tool :: rest =>
      match get_keyboard_shortcut_for_tool tool t with
      | None => None
      | Some (_, s) =>
          match collect_group t msg rest with
          | None => None
          | Some group => Some (if is_key_pressed t s msg then tool :: group else group)
          end
      end
  end.

(** The second loop: the element after the first [group[i] == current_tool]
    that has a successor. *)
Fixpoint next_in_group (current_tool : Tool) (group : list Tool) : option Tool :=
  match group with
  | g :: (g' :: _) as rest =>
      if decide (g = current_tool) then Some g' else next_in_group current_tool rest
  | _ => None
  end.

(** The loop over [widget->children] of the [Shortcut_ExecuteCommand]
    case: [true] when it reaches the call to [execute_command]. *)
Fixpoint scan_children (top_window : option nat) (children : list Window) : bool :=
  match children with
  | [] => false
  | child :: rest =>
      if is_foreground child then false
      else if is_desktop child && bool_decide (Some (window_addr child) = top_window)
      then true
      else scan_children top_window rest
  end.

Definition manager_msg_proc_keypressed (t : Table) (current_tool : Tool)
    (children : list Window) (top_window : option nat) (msg : KeyMsg) : KeyResult :=
  match list_find (fun s => is_key_pressed t s msg = true) (shortcuts t) with
  | None => Returned None false
  | Some (_, shortcut) =>
      match target shortcut with
      | Shortcut_ChangeTool tool =>
          match collect_group t msg tools_list with
          | None => NullDereference
          | Some group =>
              let select_this_tool :=
                if decide (2 <= length group)%nat
                then default tool (next_in_group current_tool group)
                else tool in
              Returned (Some (select_tool select_this_tool)) false
          end
      | Shortcut_ExecuteCommand None _ => NullDereference
      | Shortcut_ExecuteCommand (Some command) params =>
          if String.eqb (short_name command) screen_shot
          then Returned (Some (execute_command command params)) true
          else if scan_children top_window children
          then Returned (Some (execute_command command params)) true
          else Returned None false
      end
  end.

(** Running a sequence of bindings. *)
Definition run_bind (t : Table) (op : BindOp) : Table :=
  match op with
  | bind_command k n p => snd (add_keyboard_shortcut_to_execute_command k n p t)
  | bind_tool k tool => snd (add_keyboard_shortcut_to_change_tool k tool t)
  end.

Definition run_binds (ops : list BindOp) (t : Table) : Table :=
  foldl run_bind t ops.

(** A key event presses the chord written [shortcut_string]. *)
Definition chord_pressed (shortcut_string : string) (msg : KeyMsg) : bool :=
  jaccel_check (jaccel_parse ("<" +:+ shortcut_string +:+ ">"))
    (msg_shifts msg) (msg_ascii msg) (msg_scancode msg).

(** The accelerator behind a handle matches the event. *)
Definition accel_pressed (t : Table) (a : JAccel) (msg : KeyMsg) : bool :=
  match accels t !! a with
  | Some keys => jaccel_check keys (msg_shifts msg) (msg_ascii msg) (msg_scancode msg)
  | None => false
  end.

End with_collaborators.

(** The test of the loop in [get_command_from_key_message]: the shortcut
    has type [Shortcut_ExecuteCommand] and its accelerator matches. *)
Definition is_pressed_command_shortcut (t : Table) (msg : KeyMsg) (s : Shortcut) : bool :=
  match target s with
  | Shortcut_ExecuteCommand _ _ => is_key_pressed t s msg
  | Shortcut_ChangeTool _ => false
  end.

(** [get_command_from_key_message]: the [command] member of the first such
    shortcut; [None] is NULL, returned when there is none and also when the
    member itself is NULL. *)
Definition get_command_from_key_message (t : Table) (msg : KeyMsg) : option Command :=
  match list_find (fun s => is_pressed_command_shortcut t msg s = true) (shortcuts t) with
  | Some (_, shortcut) =>
      match target shortcut with
      | Shortcut_ExecuteCommand command _ => command
      | Shortcut_ChangeTool _ => None
      end
  | None => None
  end.

(** The first loop of [exit_module_gui]: [delete shortcut] for every
    element of the vector, in order; [Shortcut::~Shortcut] frees the
    accelerator of the shortcut.  The result is the accelerators passed to
    [jaccel_free], in order. *)
Definition exit_module_gui_shortcuts (t : Table) : list JAccel :=
  accel <$> shortcuts t.


(** ** Idle flags and the event-loop hook *)

Definition REBUILD_RECENT_LIST : Z := 2.
Definition REFRESH_FULL_SCREEN : Z := 4.

(** What the module reads of a sprite: its identity and the palette of its
    current frame, [sprite_get_palette(sprite, sprite->frame)]. *)
Record Sprite := MkSprite { sprite_id : nat; sprite_palette : nat }.

(** The calls made by [update_screen_for_sprite]. *)
Inductive ScreenCall :=
| set_current_palette (palette : option nat)
| jmanager_refresh_screen
| update_editors_with_sprite (sprite : Sprite)
| statusbar_set_text_empty.

(** The observable steps of [gui_feedback]: calls to collaborators, the
    call to [update_screen_for_sprite] with the calls it makes, and the
    stores to the volatile [next_idle_flags]. *)
Inductive FeedbackStep :=
| app_realloc_recent_list (result : bool)
| store_next_idle_flags (value : Z)
| call_update_screen_for_sprite (sprite : option Sprite) (calls : list ScreenCall)
| rec_screen_poll
| jmouse_draw_cursor
| ji_flip_dirty_region
| blit_screen
| stretch_blit_screen.

(** What one iteration reads from outside the module: the result of
    [app_realloc_recent_list()], the sprite of the [CurrentSpriteReader],
    [ase_mode & MODE_GUI], the result of [set_current_palette],
    [double_buffering], [ji_dirty_region], and whether the two screens have
    the same size. *)
Record FeedbackEnv := MkFeedbackEnv {
  recent_list_rebuilt : bool;
  current_sprite : option Sprite;
  mode_gui : bool;
  palette_changed : bool;
  double_buffering : bool;
  dirty_region : bool;
  same_screen_size : bool
}.

(** [display_switch_in_callback] and [schedule_rebuild_recent_list]. *)
Definition display_switch_in_callback (next_idle_flags : Z) : Z :=
  Z.lor next_idle_flags REFRESH_FULL_SCREEN.

Definition schedule_rebuild_recent_list (next_idle_flags : Z) : Z :=
  Z.lor next_idle_flags REBUILD_RECENT_LIST.

Definition update_screen_for_sprite (env : FeedbackEnv) (sprite : option Sprite)
    : list ScreenCall :=
  if negb (mode_gui env) then []
  else
    match sprite with
    | None =>
        set_current_palette None ::
        (if palette_changed env then [jmanager_refresh_screen] else [])
    | Some sp =>
        set_current_palette (Some (sprite_palette sp)) ::
        (if palette_changed env then [jmanager_refresh_screen]
         else [update_editors_with_sprite sp])
    end ++ [statusbar_set_text_empty].

(** [gui_feedback]: the new value of [next_idle_flags] and the steps
    performed, in order. *)
Definition gui_feedback (env : FeedbackEnv) (next_idle_flags : Z)
    : Z * list FeedbackStep :=
  let '(flags1, steps1) :=
    if negb (Z.land next_idle_flags REBUILD_RECENT_LIST =? 0) then
      if recent_list_rebuilt env then
        let v := Z.lxor next_idle_flags REBUILD_RECENT_LIST in
        (v, [app_realloc_recent_list true; store_next_idle_flags v])
      else (next_idle_flags, [app_realloc_recent_list false])
    else (next_idle_flags, []) in
  let '(flags2, steps2) :=
    if negb (Z.land flags1 REFRESH_FULL_SCREEN =? 0) then
      let v := Z.lxor flags1 REFRESH_FULL_SCREEN in
      (v, [store_next_idle_flags v;
           call_update_screen_for_sprite (current_sprite env)
             (update_screen_for_sprite env (current_sprite env))])
    else (flags1, []) in
  let steps3 :=
    if double_buffering env then
      jmouse_draw_cursor ::
      (if dirty_region env then [ji_flip_dirty_region]
       else if same_screen_size env then [blit_screen] else [stretch_blit_screen])
    else [] in
  (flags2, steps1 ++ steps2 ++ [rec_screen_poll] ++ steps3).

(** Successive iterations of the event loop, each of which calls
    [gui_feedback] once (the [JM_QUEUEPROCESSING] case of
    [manager_msg_proc]) and reads the outside world as [envs] gives it: the
    flags after the last iteration and the steps of every iteration. *)
Fixpoint gui_feedback_loop (envs : list FeedbackEnv) (next_idle_flags : Z)
    : Z * list (list FeedbackStep) :=
  match envs with
  | [] => (next_idle_flags, [])
  | env :: envs' =>
      let r := gui_feedback env next_idle_flags in
      let r' := gui_feedback_loop envs' (fst r) in
      (fst r', snd r :: snd r')
  end.

(** *** [gui_feedback] and the asynchronous callback *)

(** [next_idle_flags] is [volatile], and [display_switch_in_callback] is
    registered with [set_display_switch_callback] and locked with
    [LOCK_FUNCTION]: Allegro calls it asynchronously, so it can run between
    any two accesses of [gui_feedback] to the variable; it is taken to run
    to its end once it has started.  A compound assignment to a volatile
    variable is a read followed by a write.  The points of [gui_feedback]
    before each of its accesses and calls:
    - the test [if (next_idle_flags & REBUILD_RECENT_LIST)];
    - the call [app_realloc_recent_list()];
    - the read, then the write, of [next_idle_flags ^= REBUILD_RECENT_LIST];
    - the test [if (next_idle_flags & REFRESH_FULL_SCREEN)];
    - the read, then the write, of [next_idle_flags ^= REFRESH_FULL_SCREEN];
    - the call of [update_screen_for_sprite];
    - [rec_screen_poll()] and the block of the double buffering;
    - the return. *)
Inductive FeedbackPoint :=
| at_test_rebuild
| at_app_realloc_recent_list
| at_read_for_rebuild
| at_write_for_rebuild (value_read : Z)
| at_test_refresh
| at_read_for_refresh
| at_write_for_refresh (value_read : Z)
| at_update_screen
| at_rec_screen_poll
| at_return.

(** One step of [gui_feedback] from a point: the point reached, the new
    value of [next_idle_flags], and the observable steps made. *)
Definition feedback_step (env : FeedbackEnv) (pt : FeedbackPoint) (next_idle_flags : Z)
    : FeedbackPoint * Z * list FeedbackStep :=
  match pt with
  | at_test_rebuild =>
      (if negb (Z.land next_idle_flags REBUILD_RECENT_LIST =? 0)
       then at_app_realloc_recent_list else at_test_refresh,
       next_idle_flags, [])
  | at_app_realloc_recent_list =>
      (if recent_list_rebuilt env then at_read_for_rebuild else at_test_refresh,
       next_idle_flags, [app_realloc_recent_list (recent_list_rebuilt env)])
  | at_read_for_rebuild =>
      (at_write_for_rebuild next_idle_flags, next_idle_flags, [])
  | at_write_for_rebuild value_read =>
      let v := Z.lxor value_read REBUILD_RECENT_LIST in
      (at_test_refresh, v, [store_next_idle_flags v])
  | at_test_refresh =>
      (if negb (Z.land next_idle_flags REFRESH_FULL_SCREEN =? 0)
       then at_read_for_refresh else at_rec_screen_poll,
       next_idle_flags, [])
  | at_read_for_refresh =>
      (at_write_for_refresh next_idle_flags, next_idle_flags, [])
  | at_write_for_refresh value_read =>
      let v := Z.lxor value_read REFRESH_FULL_SCREEN in
      (at_update_screen, v, [store_next_idle_flags v])
  | at_update_screen =>
      (at_rec_screen_poll, next_idle_flags,
       [call_update_screen_for_sprite (current_sprite env)
          (update_screen_for_sprite env (current_sprite env))])
  | at_rec_screen_poll =>
      (at_return, next_idle_flags,
       rec_screen_poll ::
       (if double_buffering env then
          jmouse_draw_cursor ::
          (if dirty_region env then [ji_flip_dirty_region]
           else if same_screen_size env then [blit_screen] else [stretch_blit_screen])
        else []))
  | at_return => (at_return, next_idle_flags, [])
  end.

(** What is observed of a run with the callback: the callback running, and
    the steps of [gui_feedback]. *)
Inductive AsyncStep :=
| callback_ran
| main_step (s : FeedbackStep).

(** The steps of [gui_feedback] from a point, with the callback running
    before the steps that [fires] marks (a callback marked after the return
    runs after it). *)
Fixpoint run_feedback (fuel : nat) (env : FeedbackEnv) (fires : list bool)
    (pt : FeedbackPoint) (next_idle_flags : Z) : FeedbackPoint * Z * list AsyncStep :=
  match fuel with
  | O => (pt, next_idle_flags, [])
  | S fuel' =>
      let fired := default false (head fires) in
      let flags0 :=
        if fired then display_switch_in_callback next_idle_flags else next_idle_flags in
      let '(pt', flags', steps) := feedback_step env pt flags0 in
      let '(pt'', flags'', rest) := run_feedback fuel' env (tail fires) pt' flags' in
      (pt'', flags'',
       (if fired then [callback_ran] else []) ++ (main_step <$> steps) ++ rest)
  end.

(** One call of [gui_feedback] with the callback: the longest path from
    the entry to the return has nine steps. *)
Definition gui_feedback_async (env : FeedbackEnv) (fires : list bool)
    (next_idle_flags : Z) : FeedbackPoint * Z * list AsyncStep :=
  run_feedback 9 env fires at_test_rebuild next_idle_flags.

(** The steps of an iteration that are refresh passes, attempts to rebuild
    the recent list, and stores to the flags. *)
Definition is_refresh_pass (s : FeedbackStep) : bool :=
  match s with call_update_screen_for_sprite _ _ => true | _ => false end.

Definition is_rebuild_attempt (s : FeedbackStep) : bool :=
  match s with app_realloc_recent_list _ => true | _ => false end.

Definition is_store (s : FeedbackStep) : bool :=
  match s with store_next_idle_flags _ => true | _ => false end.

(** ** Loading widgets *)

(** [JWidget]: a widget, by address. *)
Abbreviation JWidget := nat.

(** The conditions thrown by this module (declared in ase_exception.h). *)
Inductive ase_exception :=
| widget_file_not_found (filename : string)
| widget_not_found (name : string).

(** A call returns a value, throws, or writes past the end of a local
    buffer, after which the behaviour of the program is undefined. *)
Inductive Result (A : Type) :=
| Return (a : A)
| Throw (e : ase_exception)
| BufferOverrun.
Arguments Return {A} a.
Arguments Throw {A} e.
Arguments BufferOverrun {A}.


(** The collaborators of the widget functions: [exists] on paths,
    [filename_in_datadir] (the candidate paths of a data file, as a [DIRS]
    list), [ji_load_widget] and [jwidget_find_name] (NULL is [None]). *)
Class WidgetHost := {
  file_exists : string -> bool;
  filename_in_datadir : string -> list string;
  ji_load_widget : string -> string -> option JWidget;
  jwidget_find_name : JWidget -> string -> option JWidget
}.

Section with_widget_host.
Context `{WidgetHost}.




Definition find_widget (widget : JWidget) (name : string) : Result JWidget :=
  match jwidget_find_name widget name with
  | None => Throw (widget_not_found name)
  | Some child => Return child
  end.

(** [get_widgets(window, name1, &widget1, ..., NULL)]: the variable
    arguments are pairs of a name and a pointer to a [JWidget] variable,
    ended by a NULL name; the loop also stops at a NULL pointer ([None]).
    The variables are modelled as a store indexed by the pointers; a
    variable holds [None] for NULL.  The result is the store after the call
    and whether the call returned or threw. *)
Fixpoint get_widgets (window : JWidget) (args : list (string * option nat))
    (vars : gmap nat (option JWidget)) : gmap nat (option JWidget) * Result unit :=
  match args with
  | [] => (vars, Return tt)
  | (name, None) :: _ => (vars, Return tt)
  | (name, Some widget) :: rest =>
      let vars' := <[widget := jwidget_find_name window name]> vars in
      match jwidget_find_name window name with
      | None => (vars', Throw (widget_not_found name))
      | Some _ => get_widgets window rest vars'
      end
  end.



End with_widget_host.

(** ** The name of a new layer *)

(** What [get_max_layer_num] reads of a layer: its name ([layer->name], a
    C string) and, for a layer set ([layer_is_set]), the layers that it
    holds ([layer->layers]). *)
#[local] Unset Elimination Schemes.
Inductive Layer :=
| image_layer (name : string)
| set_of_layers (name : string) (layers : list Layer).
#[local] Set Elimination Schemes.

Definition layer_name (layer : Layer) : string :=
  match layer with
  | image_layer name | set_of_layers name _ => name
  end.

(** The limits of [int], and the conversion of a [long] to [int] (the
    value modulo 2^32, as the compilers of the program define it). *)
Definition INT_MIN : Z := -2147483648.
Definition INT_MAX : Z := 2147483647.

Definition to_int (z : Z) : Z := (z - INT_MIN) mod 2 ^ 32 + INT_MIN.

(** [isspace] in the C locale: space, and the characters 9 to 13. *)
Definition isspace (c : ascii) : bool :=
  let n := N_of_ascii c in
  ((n =? 32) || ((9 <=? n) && (n <=? 13)))%N.

(** The value of a decimal digit. *)
Definition digit_value (c : ascii) : option Z :=
  let n := Z.of_N (N_of_ascii c) in
  if (48 <=? n) && (n <=? 57) then Some (n - 48) else None.

Fixpoint skip_spaces (s : string) : string :=
  match s with
  | String c s' => if isspace c then skip_spaces s' else s
  | EmptyString => s
  end.

(** The digits at the front of [s], read from the value [acc]. *)
Fixpoint read_digits (s : string) (acc : Z) : Z :=
  match s with
  | String c s' =>
      match digit_value c with
      | Some d => read_digits s' (10 * acc + d)
      | None => acc
      end
  | EmptyString => acc
  end.

(** [strtol(s, NULL, 10)] of the C library: white space is skipped, then
    an optional sign and the decimal digits that follow are read; the
    value is 0 when there is no digit, and [LONG_MAX] or [LONG_MIN] when it
    does not fit a [long].  [LONG_MAX] depends on the platform. *)
Definition strtol (LONG_MAX : Z) (s : string) : Z :=
  match skip_spaces s with
  | String "-"%char s' => Z.max (- LONG_MAX - 1) (- read_digits s' 0)
  | String "+"%char s' => Z.min LONG_MAX (read_digits s' 0)
  | s' => Z.min LONG_MAX (read_digits s' 0)
  end.

(** [s + n] for a C string of at least [n] characters. *)
Fixpoint skip_chars (n : nat) (s : string) : string :=
  match n, s with
  | S n', String _ s' => skip_chars n' s'
  | _, _ => s
  end.

(** The first statement of [get_max_layer_num]: the number after "Layer "
    in the name, 0 for a name that does not start so. *)
Definition layer_num (LONG_MAX : Z) (layer : Layer) : Z :=
  if String.prefix "Layer " (layer_name layer)
  then to_int (strtol LONG_MAX (skip_chars 6 (layer_name layer)))
  else 0.

(** [get_max_layer_num]. *)
Fixpoint get_max_layer_num (LONG_MAX : Z) (layer : Layer) : Z :=
  let max := layer_num LONG_MAX layer in
  match layer with
  | image_layer _ => max
  | set_of_layers _ layers =>
      foldl (fun max l => Z.max (get_max_layer_num LONG_MAX l) max) max layers
  end.

(** The result of [get_unique_layer_name]: NULL; or the addition of 1
    overflows [int], which is undefined; or the new name. *)
Inductive UniqueLayerName :=
| null_name
| overflow_name
| new_name (name : string).

(** [get_unique_layer_name]; the argument is [sprite->set], the layer set
    at the root of the sprite, or [None] for a NULL sprite.  [sprintf] with
    "%d" writes the number in decimal, which is what [pretty] does. *)
Definition get_unique_layer_name (LONG_MAX : Z) (sprite : option Layer)
    : UniqueLayerName :=
  match sprite with
  | Some set =>
      let n := get_max_layer_num LONG_MAX set in
      if n =? INT_MAX then overflow_name
      else new_name ("Layer " +:+ pretty (n + 1))
  | None => null_name
  end.



(** ** The graphics mode *)

(** The macro [MID(x, y, z)] of Allegro: [y] brought between [x] and [z].
    The versions of the macro ([MAX(x, MIN(y, z))], or the median of the
    three) agree when [x <= z]; the properties proved below use it in that
    case only. *)
Definition MID (x y z : Z) : Z := Z.max x (Z.min y z).

(** Modelled from the spec: the configuration store holds key-value pairs
    in named sections; a read of a variable that is not there gives the
    default passed to it, a read after a write gives the value written. *)
Record Config := MkConfig {
  config_ints : gmap (string * string) Z;
  config_bools : gmap (string * string) bool;
  config_strings : gmap (string * string) string
}.

Definition get_config_int (cfg : Config) (section name : string) (def : Z) : Z :=
  default def (config_ints cfg !! (section, name)).

Definition get_config_bool (cfg : Config) (section name : string) (def : bool) : bool :=
  default def (config_bools cfg !! (section, name)).

Definition get_config_string (cfg : Config) (section name def : string) : string :=
  default def (config_strings cfg !! (section, name)).

Definition set_config_int (section name : string) (value : Z) (cfg : Config) : Config :=
  {| config_ints := <[(section, name) := value]> (config_ints cfg);
     config_bools := config_bools cfg;
     config_strings := config_strings cfg |}.

Definition set_config_bool (section name : string) (value : bool) (cfg : Config) : Config :=
  {| config_ints := config_ints cfg;
     config_bools := <[(section, name) := value]> (config_bools cfg);
     config_strings := config_strings cfg |}.

(** An entry of [try_resolutions]. *)
Record Resolution := MkResolution { width : Z; height : Z; scale : Z }.

(** What [init_module_gui] asks of the Allegro library and of the platform:
    - the macro [DEF_SCALE] (2 under Windows, 1 elsewhere);
    - the results of [install_mouse()] and [install_keyboard()];
    - [get_desktop_resolution]: the desktop size when the call returns 0;
    - [desktop_color_depth()];
    - [set_gfx_mode depth fullscreen w h]: whether
      [set_gfx_mode(autodetect, w, h, 0, 0)] returns 0 after
      [set_color_depth(depth)], where [autodetect] is
      [GFX_AUTODETECT_FULLSCREEN] when [fullscreen] holds and
      [GFX_AUTODETECT_WINDOWED] otherwise.  Whether the driver accepts a
      mode is taken to depend on the mode asked for only. *)
Class GfxHost := {
  DEF_SCALE : Z;
  install_mouse : Z;
  install_keyboard : Z;
  get_desktop_resolution : option (Z * Z);
  desktop_color_depth : Z;
  set_gfx_mode : Z -> bool -> Z -> Z -> bool
}.

(** How [init_module_gui] ends: it prints an error and returns -1; or it
    reaches [gfx_done] with a graphics mode set and a value of
    [screen_scaling], goes on to set up the manager and returns 0; or it
    reads [try_depths] past its end, which is undefined.  The last outcome
    is the bound on the iterations of the model's loop being reached. *)
Inductive InitError := mouse_handler | keyboard_handler | graphics_mode.

Inductive InitOutcome :=
| init_error (what : InitError)
| init_gfx_done (fullscreen : bool) (depth w h screen_scaling : Z)
| init_depths_overrun
| init_unfinished.

Section with_gfx_host.
Context `{GfxHost}.

(** The table [try_resolutions], without its terminating entry. *)
Definition try_resolutions : list Resolution :=
  [ MkResolution 1024 768 DEF_SCALE;
    MkResolution 800 600 DEF_SCALE;
    MkResolution 640 480 DEF_SCALE;
    MkResolution 320 240 1;
    MkResolution 320 200 1 ].

(** The table [try_depths]; it has five elements and no terminating
    zero. *)
Definition try_depths : list Z := [32; 24; 16; 15; 8].

(** [load_gui_config]: the values stored through the four pointers, and
    the new value of [screen_scaling]. *)
Definition load_gui_config (cfg : Config) : Z * Z * Z * bool * Z :=
  (get_config_int cfg "GfxMode" "Width" 0,
   get_config_int cfg "GfxMode" "Height" 0,
   get_config_int cfg "GfxMode" "Depth" 0,
   get_config_bool cfg "GfxMode" "FullScreen" false,
   MID 1 (get_config_int cfg "GfxMode" "Scale" 1) 4).

(** The test of the loop that looks for a default resolution. *)
Definition fits_desktop (dsk_w dsk_h : Z) (r : Resolution) : bool :=
  (width r <=? dsk_w) && (height r <=? dsk_h).

(** The block [if (!w || !h)] of [init_module_gui]: the new values of [w],
    [h], [fullscreen], [screen_scaling] and [min_possible_dsk_res]. *)
Definition default_resolution (w h : Z) (fullscreen : bool) (screen_scaling : Z)
    : Z * Z * bool * Z * nat :=
  if (w =? 0) || (h =? 0) then
    match get_desktop_resolution with
    | Some (dsk_w, dsk_h) =>
        match list_find (fun r => fits_desktop (dsk_w - 16) (dsk_h - 32) r = true)
                try_resolutions with
        | Some (c, r) => (width r, height r, false, scale r, c)
        | None => (w, h, fullscreen, screen_scaling, 0%nat)
        end
    | None => (320, 200, true, 1, 0%nat)
    end
  else (w, h, fullscreen, screen_scaling, 0%nat).

(** The block [if (!bpp)]. *)
Definition default_depth (bpp : Z) : Z :=
  if bpp =? 0 then
    if desktop_color_depth =? 0 then 8 else desktop_color_depth
  else bpp.

(** The loop [for (c=0; try_depths[c]; ++c)] that steps [bpp] down: the
    element after the first one equal to [bpp]; [None] when the loop reads
    past the end of the table. *)
Fixpoint next_depth (bpp : Z) (depths : list Z) : option Z :=
  match depths with
  | [] => None
  | d :: rest => if bpp =? d then head rest else next_depth bpp rest
  end.

(** The loop [for (;;)] of [init_module_gui], for at most [fuel]
    iterations. *)
Fixpoint set_gfx_mode_loop (fuel : nat) (autodetect : bool) (w h : Z)
    (min_possible_dsk_res : nat) (screen_scaling bpp : Z) : InitOutcome :=
  match fuel with
  | O => init_unfinished
  | S fuel' =>
      if set_gfx_mode bpp autodetect w h
      then init_gfx_done autodetect bpp w h screen_scaling
      else
        match list_find (fun r => set_gfx_mode bpp autodetect (width r) (height r) = true)
                (drop min_possible_dsk_res try_resolutions) with
        | Some (_, r) =>
            init_gfx_done autodetect bpp (width r) (height r) (scale r)
        | None =>
            if bpp =? 8 then init_error graphics_mode
            else
              match next_depth bpp try_depths with
              | Some bpp' =>
                  set_gfx_mode_loop fuel' autodetect w h min_possible_dsk_res
                    screen_scaling bpp'
              | None => init_depths_overrun
              end
        end
  end.

(** [init_module_gui], up to the label [gfx_done].  The loop is given as
    many iterations as [try_depths] has elements. *)
Definition init_module_gui (cfg : Config) : InitOutcome :=
  if install_mouse <? 0 then init_error mouse_handler
  else if install_keyboard <? 0 then init_error keyboard_handler
  else
    let '(w, h, bpp, fullscreen, screen_scaling) := load_gui_config cfg in
    let autodetect := fullscreen in
    let '(w, h, fullscreen, screen_scaling, min_possible_dsk_res) :=
      default_resolution w h fullscreen screen_scaling in
    let bpp := default_depth bpp in
    set_gfx_mode_loop (length try_depths) autodetect w h min_possible_dsk_res
      screen_scaling bpp.

End with_gfx_host.

(** What [save_gui_config] reads of the screen: [SCREEN_W], [SCREEN_H],
    [bitmap_color_depth(screen)] and [gfx_driver->windowed]. *)
Record Screen := MkScreen {
  SCREEN_W : Z;
  SCREEN_H : Z;
  screen_color_depth : Z;
  windowed : bool
}.

Definition save_gui_config (scr : Screen) (screen_scaling : Z) (cfg : Config) : Config :=
  set_config_int "GfxMode" "Scale" screen_scaling
    (set_config_bool "GfxMode" "FullScreen" (negb (windowed scr))
       (set_config_int "GfxMode" "Depth" (screen_color_depth scr)
          (set_config_int "GfxMode" "Height" (SCREEN_H scr)
             (set_config_int "GfxMode" "Width" (SCREEN_W scr) cfg)))).

(** ** The screen of the widget library and the default font *)

(** Bitmaps and fonts, by address: the [screen] and the [font] of Allegro,
    which the module does not create, and the objects created by
    [create_bitmap] and [ji_font_load], numbered in the order of their
    creation. *)
Inductive Bitmap := allegro_screen | created_bitmap (id : nat).
Inductive Font := allegro_font | loaded_font (id : nat).

#[global] Instance Bitmap_eq_dec : EqDecision Bitmap.
Proof. solve_decision. Defined.
#[global] Instance Font_eq_dec : EqDecision Font.
Proof. solve_decision. Defined.

(** The calls that create, use and destroy these objects. *)
Inductive DisplayCall :=
| create_bitmap (id : nat) (w h : Z)
| destroy_bitmap (bmp : Bitmap)
| ji_font_load_ok (id : nat) (path : string)
| ji_font_set_size (f : Font) (size : Z)
| destroy_font (f : Font)
| ji_set_font_of_all_widgets (f : Font).

(** The variables of the module and of the widget library that
    [gui_setup_screen], [reload_default_font] and [exit_module_gui] read
    and write: [screen_scaling], [double_buffering], [ji_screen] with its
    width [JI_SCREEN_W], [ji_screen_created], [theme->default_font] (NULL
    is [None]) and the configuration; with the number of objects created
    and the calls made so far. *)
Record Display := MkDisplay {
  screen_scaling : Z;
  display_double_buffering : bool;
  ji_screen : Bitmap;
  JI_SCREEN_W : Z;
  ji_screen_created : bool;
  default_font : option Font;
  config : Config;
  created : nat;
  display_calls : list DisplayCall
}.

(** The state at the start of [init_module_gui]: the widget library draws
    on the screen of Allegro and the theme has no font yet. *)
Definition initial_display (scr : Screen) (cfg : Config) : Display := {|
  screen_scaling := 0;
  display_double_buffering := false;
  ji_screen := allegro_screen;
  JI_SCREEN_W := SCREEN_W scr;
  ji_screen_created := false;
  default_font := None;
  config := cfg;
  created := 0;
  display_calls := []
|}.

(** [ji_font_load]: whether the file gives a font and, if it does, whether
    the font is scalable ([ji_font_is_scalable]). *)
Class FontHost := {
  ji_font_load : string -> option bool
}.

Definition set_screen_scaling (scaling : Z) (d : Display) : Display :=
  {| screen_scaling := scaling;
     display_double_buffering := display_double_buffering d;
     ji_screen := ji_screen d; JI_SCREEN_W := JI_SCREEN_W d;
     ji_screen_created := ji_screen_created d; default_font := default_font d;
     config := config d; created := created d; display_calls := display_calls d |}.

(** [guiscale]. *)
Definition guiscale (d : Display) : Z := if JI_SCREEN_W d >? 512 then 2 else 1.

Section with_display_host.
Context `{WidgetHost} `{FontHost}.

(** The files that [reload_default_font] tries, in order: the font of the
    user, when the configuration names one, then the font of the program
    in the data directories. *)
Definition font_dirs (d : Display) : list string :=
  let user_font := get_config_string (config d) "Options" "UserFont" "" in
  (if String.eqb user_font "" then [] else [user_font]) ++
  filename_in_datadir ("fonts/ase" +:+ pretty (guiscale d) +:+ ".pcx").

(** [reload_default_font]. *)
Definition reload_default_font (d : Display) : Display :=
  let destroyed :=
    match default_font d with
    | Some f => if decide (f = allegro_font) then [] else [destroy_font f]
    | None => []
    end in
  let '(f, n, loaded) :=
    match list_find (fun path => is_Some (ji_font_load path)) (font_dirs d) with
    | Some (_, path) =>
        let f := loaded_font (created d) in
        (f, S (created d),
         ji_font_load_ok (created d) path ::
         (if default false (ji_font_load path)
          then [ji_font_set_size f (8 * guiscale d)] else []))
    | None => (allegro_font, created d, [])
    end in
  {| screen_scaling := screen_scaling d;
     display_double_buffering := display_double_buffering d;
     ji_screen := ji_screen d; JI_SCREEN_W := JI_SCREEN_W d;
     ji_screen_created := ji_screen_created d;
     default_font := Some f;
     config := config d;
     created := n;
     display_calls :=
       display_calls d ++ destroyed ++ loaded ++ [ji_set_font_of_all_widgets f] |}.

(** [gui_setup_screen]; [scr] is the screen of Allegro at the time of the
    call. *)
Definition gui_setup_screen (scr : Screen) (d : Display) : Display :=
  let double_buffering := screen_scaling d >? 1 in
  let d1 :=
    if double_buffering then
      let old_bmp := ji_screen d in
      let w := Z.quot (SCREEN_W scr) (screen_scaling d) in
      let h := Z.quot (SCREEN_H scr) (screen_scaling d) in
      {| screen_scaling := screen_scaling d;
         display_double_buffering := true;
         ji_screen := created_bitmap (created d); JI_SCREEN_W := w;
         ji_screen_created := true;
         default_font := default_font d; config := config d;
         created := S (created d);
         display_calls :=
           display_calls d ++ create_bitmap (created d) w h ::
           (if ji_screen_created d then [destroy_bitmap old_bmp] else []) |}
    else
      {| screen_scaling := screen_scaling d;
         display_double_buffering := false;
         ji_screen := allegro_screen; JI_SCREEN_W := SCREEN_W scr;
         ji_screen_created := false;
         default_font := default_font d; config := config d;
         created := created d;
         display_calls := display_calls d |} in
  let d2 := reload_default_font d1 in
  {| screen_scaling := screen_scaling d2;
     display_double_buffering := display_double_buffering d2;
     ji_screen := ji_screen d2; JI_SCREEN_W := JI_SCREEN_W d2;
     ji_screen_created := ji_screen_created d2;
     default_font := default_font d2;
     config := save_gui_config scr (screen_scaling d2) (config d2);
     created := created d2;
     display_calls := display_calls d2 |}.

(** The block [if (double_buffering)] of [exit_module_gui]. *)
Definition exit_module_gui_screen (scr : Screen) (d : Display) : Display :=
  if display_double_buffering d then
    {| screen_scaling := screen_scaling d;
       display_double_buffering := display_double_buffering d;
       ji_screen := allegro_screen; JI_SCREEN_W := SCREEN_W scr;
       ji_screen_created := false;
       default_font := default_font d; config := config d;
       created := created d;
       display_calls :=
         display_calls d ++
         (if ji_screen_created d then [destroy_bitmap (ji_screen d)] else []) |}
  else d.

(** What the rest of the program does with the display: it changes the
    scaling, sets the screen up again after changing the graphics mode to
    [scr], or reloads the font. *)
Inductive DisplayOp :=
| op_set_screen_scaling (scaling : Z)
| op_gui_setup_screen (scr : Screen)
| op_reload_default_font.

Definition run_display_op (d : Display) (op : DisplayOp) : Display :=
  match op with
  | op_set_screen_scaling scaling => set_screen_scaling scaling d
  | op_gui_setup_screen scr => gui_setup_screen scr d
  | op_reload_default_font => reload_default_font d
  end.

Definition run_display_ops (ops : list DisplayOp) (d : Display) : Display :=
  foldl run_display_op d ops.

End with_display_host.

(** ** Window positions *)

(** [struct jrect] of the widget library; its coordinates are [int]s. *)
Record JRect := MkJRect { x1 : Z; y1 : Z; x2 : Z; y2 : Z }.

(** The result of an addition or subtraction of [int]s: the value when it
    fits an [int], and [None] when it does not (a signed overflow, after
    which the behaviour of the program is undefined). *)
Definition int_result (z : Z) : option Z :=
  if (INT_MIN <=? z) && (z <=? INT_MAX) then Some z else None.

(** The differences computed by the macros [jrect_w] and [jrect_h]. *)
Definition jrect_w (r : JRect) : Z := x2 r - x1 r.
Definition jrect_h (r : JRect) : Z := y2 r - y1 r.

(** [jrect_moveto] is defined in the widget library, outside these
    sources; it is taken to move the rectangle to the point given, keeping
    its size. *)
Definition jrect_moveto (rect : JRect) (x y : Z) : JRect :=
  {| x1 := x; y1 := y; x2 := x + jrect_w rect; y2 := y + jrect_h rect |}.

(** [load_window_pos]: [orig_pos] is the rectangle of the window,
    [configured] is what [get_config_rect] finds for the section ([None]
    when it leaves [pos] as it is), and the result is the rectangle passed
    to [jwidget_set_rect], or [None] when one of the additions and
    subtractions overflows [int]. *)
Definition load_window_pos (JI_SCREEN_W JI_SCREEN_H : Z) (orig_pos : JRect)
    (configured : option JRect) : option JRect :=
  let pos := default orig_pos configured in
  w_orig ← int_result (jrect_w orig_pos);
  w_pos ← int_result (jrect_w pos);
  pos_x2 ← int_result (x1 pos + MID w_orig w_pos JI_SCREEN_W);
  let pos := {| x1 := x1 pos; y1 := y1 pos; x2 := pos_x2; y2 := y2 pos |} in
  h_orig ← int_result (jrect_h orig_pos);
  h_pos ← int_result (jrect_h pos);
  pos_y2 ← int_result (y1 pos + MID h_orig h_pos JI_SCREEN_H);
  let pos := {| x1 := x1 pos; y1 := y1 pos; x2 := x2 pos; y2 := pos_y2 |} in
  w ← int_result (jrect_w pos);
  x_max ← int_result (JI_SCREEN_W - w);
  h ← int_result (jrect_h pos);
  y_max ← int_result (JI_SCREEN_H - h);
  let moved := jrect_moveto pos (MID 0 (x1 pos) x_max) (MID 0 (y1 pos) y_max) in
  _ ← int_result (x2 moved);
  _ ← int_result (y2 moved);
  Some moved.

(** ** Monitors *)

(** [Monitor*]: the address of a [Monitor] object.  Addresses are handed
    out in increasing order and never reused. *)
Abbreviation MonitorPtr := nat.

(** [struct Monitor].  The callbacks [proc] and [free] and the user [data]
    are opaque; what the module itself reads is whether [free] is not NULL,
    and the two flags.  What the [proc] callbacks do is given to the model
    from outside (see [Call] below). *)
Record Monitor := MkMonitor {
  free : bool;
  lock : bool;
  deleted : bool
}.

(** What is observed of a run: the calls to [add_gui_monitor] and
    [remove_gui_monitor] that pass their checks, the entries into and
    returns from the [proc] callbacks, and the destructions of monitors
    ([teardown] tells whether [~Monitor] called the [free] callback). *)
Inductive Event :=
| ev_added (m : MonitorPtr) (has_free : bool)
| ev_remove_requested (m : MonitorPtr)
| ev_proc_called (m : MonitorPtr)
| ev_proc_returned (m : MonitorPtr)
| ev_deleted (m : MonitorPtr) (teardown : bool).

#[global] Instance Event_eq_dec : EqDecision Event.
Proof. solve_decision. Defined.

(** The two ways in which the module leaves defined behaviour:
    the [assert] of [remove_gui_monitor] fails, or the loop of the timer
    message continues from an iterator whose list node was erased. *)
Inductive Crash :=
| assertion_failed
| invalid_iterator.

(** The global state of the monitor scheduler: the live [Monitor] objects,
    the next fresh address, the [monitors] list, [monitor_timer], the
    timers of the manager (whether each is running), the events so far
    (oldest first), and whether the run has crashed.

    [MonitorList] is declared in modules/gui.h; it is taken to be
    [std::list<Monitor*>], as the loop of the timer message supposes when
    it keeps [next] across a callback that may erase [it]: [erase]
    invalidates the iterators to the erased node and no others, and
    [push_back] invalidates none. *)
Record Gui := MkGui {
  objects : gmap nat Monitor;
  next_object : nat;
  monitors : list MonitorPtr;
  monitor_timer : Z;
  timers : list bool;
  log : list Event;
  crash : option Crash
}.

(** The state after [init_module_gui]: [monitor_timer = -1] and an empty
    list. *)
Definition initial_gui : Gui := {|
  objects := ∅;
  next_object := 0;
  monitors := [];
  monitor_timer := -1;
  timers := [];
  log := [];
  crash := None
|}.

Definition log_event (e : Event) (g : Gui) : Gui :=
  {| objects := objects g; next_object := next_object g; monitors := monitors g;
     monitor_timer := monitor_timer g; timers := timers g;
     log := log g ++ [e]; crash := crash g |}.

Definition set_objects (o : gmap nat Monitor) (g : Gui) : Gui :=
  {| objects := o; next_object := next_object g; monitors := monitors g;
     monitor_timer := monitor_timer g; timers := timers g;
     log := log g; crash := crash g |}.

Definition set_monitors (l : list MonitorPtr) (g : Gui) : Gui :=
  {| objects := objects g; next_object := next_object g; monitors := l;
     monitor_timer := monitor_timer g; timers := timers g;
     log := log g; crash := crash g |}.

Definition set_timers (t : list bool) (g : Gui) : Gui :=
  {| objects := objects g; next_object := next_object g; monitors := monitors g;
     monitor_timer := monitor_timer g; timers := t;
     log := log g; crash := crash g |}.

Definition crashed (g : Gui) : bool :=
  match crash g with Some _ => true | None => false end.

Definition set_crash (c : Crash) (g : Gui) : Gui :=
  {| objects := objects g; next_object := next_object g; monitors := monitors g;
     monitor_timer := monitor_timer g; timers := timers g;
     log := log g; crash := Some c |}.

(** Modelled from the spec: the timer primitives of the manager.
    [jmanager_add_timer] registers a new recurring timer, not yet running,
    and returns its id; [jmanager_start_timer] and [jmanager_stop_timer]
    make the timer with the given id run or stop. *)
Definition jmanager_add_timer (g : Gui) : Z * Gui :=
  (Z.of_nat (length (timers g)), set_timers (timers g ++ [false]) g).

Definition jmanager_start_timer (timer_id : Z) (g : Gui) : Gui :=
  if timer_id <? 0 then g else set_timers (<[Z.to_nat timer_id := true]> (timers g)) g.

Definition jmanager_stop_timer (timer_id : Z) (g : Gui) : Gui :=
  if timer_id <? 0 then g else set_timers (<[Z.to_nat timer_id := false]> (timers g)) g.

(** Reading and writing the flags of a monitor through its pointer. *)
Definition is_locked (m : MonitorPtr) (g : Gui) : bool :=
  match objects g !! m with Some mon => lock mon | None => false end.

Definition is_deleted (m : MonitorPtr) (g : Gui) : bool :=
  match objects g !! m with Some mon => deleted mon | None => false end.

Definition set_lock (m : MonitorPtr) (b : bool) (g : Gui) : Gui :=
  set_objects
    (alter (fun mon => {| free := free mon; lock := b; deleted := deleted mon |})
       m (objects g)) g.

Definition set_deleted (m : MonitorPtr) (b : bool) (g : Gui) : Gui :=
  set_objects
    (alter (fun mon => {| free := free mon; lock := lock mon; deleted := b |})
       m (objects g)) g.

(** [delete monitor]: [Monitor::~Monitor] calls [free] on the data when
    [free] is not NULL, and the object is gone. *)
Definition delete_monitor (m : MonitorPtr) (g : Gui) : Gui :=
  match objects g !! m with
  | Some mon => log_event (ev_deleted m (free mon)) (set_objects (delete m (objects g)) g)
  | None => g
  end.

(** [add_gui_monitor]: returns the new pointer. *)
Definition add_gui_monitor (has_free : bool) (g : Gui) : MonitorPtr * Gui :=
  let monitor := next_object g in
  let g1 :=
    {| objects := <[monitor := {| free := has_free; lock := false; deleted := false |}]>
                    (objects g);
       next_object := S monitor;
       monitors := monitors g ++ [monitor];
       monitor_timer := monitor_timer g; timers := timers g;
       log := log g ++ [ev_added monitor has_free]; crash := crash g |} in
  let g2 :=
    if monitor_timer g1 <? 0 then
      let '(id, g') := jmanager_add_timer g1 in
      {| objects := objects g'; next_object := next_object g'; monitors := monitors g';
         monitor_timer := id; timers := timers g'; log := log g'; crash := crash g' |}
    else g1 in
  (monitor, jmanager_start_timer (monitor_timer g2) g2).

(** [remove_gui_monitor]. *)
Definition remove_gui_monitor (monitor : MonitorPtr) (g : Gui) : Gui :=
  match list_find (fun x => x = monitor) (monitors g) with
  | None => set_crash assertion_failed g
  | Some (it, _) =>
      let g0 := log_event (ev_remove_requested monitor) g in
      let g1 :=
        if negb (is_locked monitor g0) then delete_monitor monitor g0
        else set_deleted monitor true g0 in
      let g2 := set_monitors (delete it (monitors g1)) g1 in
      if bool_decide (monitors g2 = []) then jmanager_stop_timer (monitor_timer g2) g2
      else g2
  end.

(** What the code outside the module does with the scheduler, and what
    the opaque [proc] callbacks do while they run: calls to
    [add_gui_monitor] and [remove_gui_monitor], and event loops in which
    the manager receives the [JM_TIMER] message of the monitor timer.  For
    such a message, [procs] gives what the callback does in each iteration
    of the loop over the monitors, in order (nothing once [procs] is
    used up; the entry of an iteration that finds its monitor locked is not
    run). *)
#[local] Unset Elimination Schemes.
Inductive Call :=
| call_add_gui_monitor (has_free : bool)
| call_remove_gui_monitor (monitor : MonitorPtr)
| call_timer_message (procs : list (list Call)).
#[local] Set Elimination Schemes.

(** The iterator after [it] in the list: [next = it; ++next], with [None]
    for [monitors->end()]. *)
Fixpoint successor (m : MonitorPtr) (l : list MonitorPtr) : option MonitorPtr :=
  match l with
  | [] => None
  | x :: l' => if decide (x = m) then head l' else successor m l'
  end.

(** The monitors from [m] to the end of the list. *)
Fixpoint suffix_from (m : MonitorPtr) (l : list MonitorPtr) : list MonitorPtr :=
  match l with
  | [] => []
  | x :: l' => if decide (x = m) then l else suffix_from m l'
  end.

(** The body of the loop of the [JM_TIMER] case for the monitor [monitor];
    [proc] is what the callback does to the state. *)
Definition poll_monitor (proc : Gui -> Gui) (monitor : MonitorPtr) (g : Gui) : Gui :=
  if negb (is_locked monitor g) then
    let g1 := log_event (ev_proc_called monitor) (set_lock monitor true g) in
    let g2 := proc g1 in
    if crashed g2 then g2
    else
      let g3 := log_event (ev_proc_returned monitor) (set_lock monitor false g2) in
      if is_deleted monitor g3 then delete_monitor monitor g3 else g3
  else g.

(** The rest of the loop once the callbacks do nothing any more: the list
    no longer changes, so the loop visits the monitors from the iterator
    to the end. *)
Fixpoint poll_remaining (l : list MonitorPtr) (g : Gui) : Gui :=
  match l with
  | [] => g
  | monitor :: l' => poll_remaining l' (poll_monitor (fun g => g) monitor g)
  end.

(** The end of the [JM_TIMER] case: [if (monitors->empty())
    jmanager_stop_timer(monitor_timer)]. *)
Definition stop_timer_if_empty (g : Gui) : Gui :=
  if crashed g then g
  else if bool_decide (monitors g = []) then jmanager_stop_timer (monitor_timer g) g
  else g.

(** The loop of the [JM_TIMER] case of [manager_msg_proc] for the monitor
    timer, from the iterator [it]; [run_call] runs one call made by a
    callback.  The loop takes [next] before the callback runs; an iterator
    whose monitor is no longer in the list has been invalidated by [erase].
    A crashed run does nothing more. *)
Definition timer_loop (run_call : Call -> Gui -> Gui)
    : list (list Call) -> option MonitorPtr -> Gui -> Gui :=
  fix loop (procs : list (list Call)) (it : option MonitorPtr) (g : Gui) {struct procs} : Gui :=
    match it with
    | None => g
    | Some monitor =>
        if crashed g then g
        else if bool_decide (monitor ∈ monitors g) then
          match procs with
          | [] => poll_remaining (suffix_from monitor (monitors g)) g
          | proc :: procs' =>
              let next := successor monitor (monitors g) in
              loop procs' next
                (poll_monitor (fun g => foldl (fun g c => run_call c g) g proc) monitor g)
          end
        else set_crash invalid_iterator g
    end.

(** The [JM_TIMER] case of [manager_msg_proc] for a message with
    [msg->timer.timer_id == monitor_timer]; there is no such message before
    the timer is allocated. *)
Definition manager_msg_proc_timer (run_call : Call -> Gui -> Gui)
    (procs : list (list Call)) (g : Gui) : Gui :=
  if monitor_timer g <? 0 then g
  else stop_timer_if_empty (timer_loop run_call procs (head (monitors g)) g).

(** One call. *)
Fixpoint run_call (c : Call) (g : Gui) {struct c} : Gui :=
  if crashed g then g
  else
    match c with
    | call_add_gui_monitor has_free => snd (add_gui_monitor has_free g)
    | call_remove_gui_monitor monitor => remove_gui_monitor monitor g
    | call_timer_message procs => manager_msg_proc_timer run_call procs g
    end.

(** A sequence of calls. *)
Definition run_calls (cs : list Call) (g : Gui) : Gui :=
  foldl (fun g c => run_call c g) g cs.

(** The second loop of [exit_module_gui]: [delete monitor] for every
    element of the list, in order, after which the list itself is deleted.
    As everywhere in this model, a [free] callback does not call back into
    the module. *)
Definition exit_module_gui_monitors (g : Gui) : Gui :=
  if crashed g then g
  else set_monitors [] (foldl (fun g monitor => delete_monitor monitor g) g (monitors g)).

(** * Predicates, invariants and scenarios used in the statements *)

(** ** The shortcut table and the key handler *)

(** A chord string that [Shortcut::add_shortcut] formats within its
    buffer: at most 253 bytes, which with the two angle brackets and the
    terminating zero fill the 256 bytes of [buf]. *)
Definition chord_fits (shortcut_string : string) : Prop :=
  (String.length shortcut_string <= 253)%nat.

(** The chord string of a binding, and the bindings whose chord strings
    all fit. *)
Definition op_chord (op : BindOp) : string :=
  match op with
  | bind_command shortcut_string _ _ | bind_tool shortcut_string _ => shortcut_string
  end.

Definition chords_fit (ops : list BindOp) : Prop :=
  Forall (fun op => chord_fits (op_chord op)) ops.

(** In the list of children of the manager, no foreground window stands
    after a desktop window that is the top window of the application. *)
Definition foreground_windows_first (top_window : option nat) (children : list Window)
    : Prop :=
  forall before desktop after,
    children = before ++ desktop :: after ->
    is_desktop desktop = true -> Some (window_addr desktop) = top_window ->
    Forall (fun w => is_foreground w = false) after.

(** Every shortcut of the table owns an accelerator of the store. *)
Definition accels_allocated (t : Table) : Prop :=
  Forall (fun s => (accel s < length (accels t))%nat) (shortcuts t).

(** A target that names a command or a tool (the command pointer is not
    NULL). *)
Definition names_target (tg : ShortcutTarget) : Prop :=
  match tg with
  | Shortcut_ExecuteCommand None _ => False
  | _ => True
  end.

(** No two shortcuts of the table have the same command and parameters, or
    the same tool. *)
Definition unique_targets (t : Table) : Prop :=
  forall i j si sj,
    shortcuts t !! i = Some si -> shortcuts t !! j = Some sj ->
    target si = target sj -> names_target (target si) -> i = j.

(** The target that a binding names: the command found by the registry
    with the parameters given (none meaning the empty set), or the tool. *)
Definition bound_target `{Collaborators} (op : BindOp) : ShortcutTarget :=
  match op with
  | bind_command _ command_name params =>
      Shortcut_ExecuteCommand (get_command_by_name command_name) (default ∅ params)
  | bind_tool _ tool => Shortcut_ChangeTool tool
  end.

(** Each shortcut owns an accelerator of its own: the shortcut at position
    [i] of the vector has the accelerator [i] of the store, and the store
    has no other. *)
Definition accels_owned (t : Table) : Prop :=
  accel <$> shortcuts t = seq 0 (length (accels t)).

(** The test of the first loop of the [Shortcut_ChangeTool] case, for a
    tool that has a shortcut. *)
Definition tool_pressed (t : Table) (msg : KeyMsg) (tool : Tool) : bool :=
  match get_keyboard_shortcut_for_tool tool t with
  | Some (_, s) => is_key_pressed t s msg
  | None => false
  end.

Section with_tools_list.
Context `{Collaborators}.

(** The tools, in the order of [tools_list], whose own shortcut matches the
    event. *)
Definition tool_group (t : Table) (msg : KeyMsg) : list Tool :=
  filter (fun tool => tool_pressed t msg tool = true) tools_list.

(** The [Shortcut_ChangeTool] shortcuts stand in the table in the order in
    which their tools stand in [tools_list]. *)
Definition tools_bound_in_registration_order (t : Table) : Prop :=
  forall i j si sj pi pj ti tj,
    shortcuts t !! i = Some si -> target si = Shortcut_ChangeTool ti ->
    shortcuts t !! j = Some sj -> target sj = Shortcut_ChangeTool tj ->
    tools_list !! pi = Some ti -> tools_list !! pj = Some tj ->
    (pi < pj)%nat -> (i < j)%nat.

End with_tools_list.

(** ** The graphics mode *)

Section with_gfx_plan.
Context `{GfxHost}.

(** The colour depths that the loop of [init_module_gui] goes through when
    it starts from [bpp]: the elements of the table from [bpp] on. *)
Fixpoint depths_from (bpp : Z) (depths : list Z) : list Z :=
  match depths with
  | [] => []
  | d :: rest => if bpp =? d then depths else depths_from bpp rest
  end.

(** A graphics mode that the loop asks for: colour depth, width, height,
    and the value that [screen_scaling] has if the mode is accepted. *)
Record ModeRequest := MkModeRequest {
  req_depth : Z;
  req_w : Z;
  req_h : Z;
  req_scaling : Z
}.

(** The modes asked for at one colour depth, in order: the size wanted,
    then the sizes of [try_resolutions] from [min_possible_dsk_res] on. *)
Definition requests_at (w h : Z) (min_possible_dsk_res : nat) (screen_scaling d : Z)
    : list ModeRequest :=
  MkModeRequest d w h screen_scaling ::
  ((fun r => MkModeRequest d (width r) (height r) (scale r)) <$>
     drop min_possible_dsk_res try_resolutions).

(** All the modes asked for, in order, if none is accepted. *)
Definition mode_plan (w h : Z) (min_possible_dsk_res : nat) (screen_scaling bpp : Z)
    : list ModeRequest :=
  depths_from bpp try_depths ≫= requests_at w h min_possible_dsk_res screen_scaling.

(** The driver accepts the mode. *)
Definition accepted (autodetect : bool) (m : ModeRequest) : bool :=
  set_gfx_mode (req_depth m) autodetect (req_w m) (req_h m).

End with_gfx_plan.

(** ** Widgets *)

(** The pairs that [get_widgets] goes through: those before the first NULL
    pointer. *)
Fixpoint named_slots (args : list (string * option nat)) : list (string * nat) :=
  match args with
  | (name, Some widget) :: rest => (name, widget) :: named_slots rest
  | _ => []
  end.

(** ** Idle flags *)

(** The test [next_idle_flags & mask] of the C code. *)
Definition flag_set (next_idle_flags mask : Z) : bool :=
  negb (Z.land next_idle_flags mask =? 0).

(** The callback runs once, before step [k] of [gui_feedback]. *)
Definition callback_before (k : nat) : list bool := replicate k false ++ [true].

(** The callback running before step [k] lands between the read and the
    write of [next_idle_flags ^= REBUILD_RECENT_LIST]: the rebuild is
    pending and succeeds, and the step is the fourth. *)
Definition lands_in_rebuild_update (env : FeedbackEnv) (next_idle_flags : Z) (k : nat)
    : Prop :=
  k = 3%nat /\ flag_set next_idle_flags REBUILD_RECENT_LIST = true /\
  recent_list_rebuilt env = true.

(** A refresh pass is made after the callback has run for the first
    time. *)
Definition is_refresh_step (s : AsyncStep) : bool :=
  match s with
  | main_step s => is_refresh_pass s
  | callback_ran => false
  end.

Fixpoint refreshed_after_callback (steps : list AsyncStep) : bool :=
  match steps with
  | [] => false
  | callback_ran :: rest => existsb is_refresh_step rest
  | main_step _ :: rest => refreshed_after_callback rest
  end.

(** ** The timer of the monitors *)

(** The monitor timer is running: it is allocated and the manager has it
    started. *)
Definition timer_running (g : Gui) : bool :=
  if monitor_timer g <? 0 then false
  else default false (timers g !! Z.to_nat (monitor_timer g)).

(** The invariant of the timer: before the timer is allocated no monitor
    is registered; an allocated timer is a timer of the manager; and the
    timer runs exactly when the list of monitors is not empty. *)
Definition timer_inv (g : Gui) : Prop :=
  (monitor_timer g < 0 -> monitors g = []) /\
  (0 <= monitor_timer g -> (Z.to_nat (monitor_timer g) < length (timers g))%nat) /\
  timer_running g = bool_decide (monitors g <> []).

(** One step keeps the invariant and the allocated timer. *)
Definition timer_kept (g g' : Gui) : Prop :=
  timer_inv g' /\ (0 <= monitor_timer g -> monitor_timer g' = monitor_timer g).

(** ** The protocol of a monitor *)

(** The states of a registered monitor: eligible to run; inside its
    callback; inside its callback with removal requested; about to be
    destroyed; destroyed.  Each state but the last remembers whether the
    monitor was registered with a [free] callback. *)
Inductive Phase :=
| Active (has_free : bool)
| Running (has_free : bool)
| PendingDelete (has_free : bool)
| Finalizing (has_free : bool)
| Destroyed.

#[global] Instance Phase_eq_dec : EqDecision Phase.
Proof. solve_decision. Defined.

(** The state of the protocol: the phase of every monitor registered so
    far, and the monitor whose destruction must be the very next event. *)
Record Protocol := MkProtocol {
  phases : gmap nat Phase;
  expecting : option MonitorPtr
}.

Definition initial_protocol : Protocol := {| phases := ∅; expecting := None |}.

Definition set_phase (m : MonitorPtr) (ph : Phase) (P : Protocol) : Protocol :=
  {| phases := <[m := ph]> (phases P); expecting := expecting P |}.

Definition expect (m : MonitorPtr) (ph : Phase) (P : Protocol) : Protocol :=
  {| phases := <[m := ph]> (phases P); expecting := Some m |}.

(** One event: a monitor is registered once; its callback is entered only
    when it is eligible and returns only when it is running; removal is
    requested for an eligible monitor, which must be destroyed next, or for
    a running one, which is destroyed right after its callback returns;
    nothing else is ever destroyed. *)
Definition protocol_step (P : Protocol) (e : Event) : option Protocol :=
  match expecting P with
  | Some m =>
      match e with
      | ev_deleted m' f =>
          if bool_decide (m' = m /\ phases P !! m = Some (Finalizing f))
          then Some {| phases := <[m := Destroyed]> (phases P); expecting := None |}
          else None
      | _ => None
      end
  | None =>
      match e with
      | ev_added m f =>
          match phases P !! m with
          | None => Some (set_phase m (Active f) P)
          | Some _ => None
          end
      | ev_proc_called m =>
          match phases P !! m with
          | Some (Active f) => Some (set_phase m (Running f) P)
          | _ => None
          end
      | ev_proc_returned m =>
          match phases P !! m with
          | Some (Running f) => Some (set_phase m (Active f) P)
          | Some (PendingDelete f) => Some (expect m (Finalizing f) P)
          | _ => None
          end
      | ev_remove_requested m =>
          match phases P !! m with
          | Some (Active f) => Some (expect m (Finalizing f) P)
          | Some (Running f) => Some (set_phase m (PendingDelete f) P)
          | _ => None
          end
      | ev_deleted _ _ => None
      end
  end.

(** The protocol state after a sequence of events, [None] if some event
    was not allowed. *)
Definition protocol_run (P : option Protocol) (tr : list Event) : option Protocol :=
  foldl (fun P e => P ≫= fun P => protocol_step P e) P tr.

(** The monitor is inside its callback at the end of the events: its
    callback was entered and has not returned since. *)
Definition in_callback (m : MonitorPtr) (tr : list Event) : bool :=
  foldl (fun b e =>
           if bool_decide (e = ev_proc_called m) then true
           else if bool_decide (e = ev_proc_returned m) then false
           else b) false tr.

(** The events that destroy the monitor. *)
Definition destroys (m : MonitorPtr) (e : Event) : bool :=
  match e with
  | ev_deleted m' _ => bool_decide (m' = m)
  | _ => false
  end.

(** Removal of the monitor has been requested. *)
Definition removal_phase (ph : option Phase) : Prop :=
  match ph with
  | Some (PendingDelete _) | Some (Finalizing _) | Some Destroyed => True
  | _ => False
  end.

(** The monitor is inside its callback. *)
Definition callback_phase (ph : option Phase) : Prop :=
  match ph with
  | Some (Running _) | Some (PendingDelete _) => True
  | _ => False
  end.

(** One for the phase [Destroyed], zero for the others. *)
Definition destroyed_count (ph : option Phase) : nat :=
  match ph with Some Destroyed => 1 | _ => 0 end.

(** The flag remembered in a phase. *)
Definition phase_flag (ph : option Phase) : option bool :=
  match ph with
  | Some (Active f) | Some (Running f) | Some (PendingDelete f) | Some (Finalizing f) => Some f
  | _ => None
  end.

(** Every flag remembered in a phase is the flag of a registration among
    the events. *)
Definition flags_registered (P : Protocol) (tr : list Event) : Prop :=
  forall m f, phase_flag (phases P !! m) = Some f -> ev_added m f ∈ tr.

(** Case analysis on an allowed step. *)
Ltac protocol_cases H :=
  unfold protocol_step in H;
  repeat match type of H with
         | context [match expecting ?P with _ => _ end] =>
             let E := fresh "Hexp" in destruct (expecting P) eqn:E
         | context [match ?e with ev_added _ _ => _ | _ => _ end] => destruct e
         | context [bool_decide ?Q] => destruct (bool_decide_reflect Q)
         | context [match phases ?P !! ?k with _ => _ end] =>
             let E := fresh "Hph" in destruct (phases P !! k) as [[]|] eqn:E
         end;
  destruct_and?; simplify_eq.

(** Finishes a goal about the phase of a monitor after a step. *)
Ltac phase_after_step :=
  cbn [phases set_phase expect] in *;
  repeat first
    [ rewrite lookup_insert_eq
    | match goal with
      | |- context [<[?k := _]> _ !! ?m] =>
          destruct (decide (k = m)) as [?|?];
          [subst; rewrite ?lookup_insert_eq | rewrite lookup_insert_ne by done]
      | H : context [<[?k := _]> _ !! ?k] |- _ => rewrite lookup_insert_eq in H
      | H : context [<[?k := _]> _ !! ?m] |- _ =>
          destruct (decide (k = m)) as [?|?];
          [subst; rewrite ?lookup_insert_eq in H | rewrite lookup_insert_ne in H by done]
      end ];
  simplify_eq; cbn in *; try done; try congruence.

(** ** The state of the scheduler and the protocol *)

(** The phase of a monitor as the state of the scheduler has it. *)
Definition state_phase (g : Gui) (m : MonitorPtr) : option Phase :=
  match objects g !! m with
  | Some mon =>
      Some (if lock mon
            then if deleted mon then PendingDelete (free mon) else Running (free mon)
            else Active (free mon))
  | None => if decide (m < next_object g)%nat then Some Destroyed else None
  end.

(** The invariant of the scheduler: the events so far follow the protocol,
    no destruction is outstanding, and the phases are those of the state;
    the list holds each registered monitor once, and exactly the live
    monitors whose removal was not requested; only a locked monitor can be
    marked deleted. *)
Definition monitors_inv (g : Gui) : Prop :=
  (exists P, protocol_run (Some initial_protocol) (log g) = Some P /\
             expecting P = None /\
             forall m, phases P !! m = state_phase g m) /\
  NoDup (monitors g) /\
  (forall m, m ∈ monitors g <->
             exists mon, objects g !! m = Some mon /\ deleted mon = false) /\
  (forall m mon, objects g !! m = Some mon ->
                 (m < next_object g)%nat /\ (deleted mon = true -> lock mon = true)).

(** One step keeps the invariant and the locks: a monitor that is locked
    stays locked, and a step that does not crash ends with the locks it
    started with. *)
Definition monitors_kept (g g' : Gui) : Prop :=
  monitors_inv g' /\
  (forall m, is_locked m g = true -> is_locked m g' = true) /\
  (crashed g' = false ->
   crashed g = false /\ forall m, is_locked m g' = is_locked m g).

(** The destructions made by the loop of [exit_module_gui] over the
    monitors [l], for the live objects [o]. *)
Definition exit_events (o : gmap nat Monitor) (l : list MonitorPtr) : list Event :=
  omap (fun m => (fun mon => ev_deleted m (free mon)) <$> o !! m) l.

(** ** Bitmaps and fonts *)

(** A font that can be used while the fonts [fonts] are alive. *)
Definition font_usable (fonts : gset nat) (f : Font) : bool :=
  match f with
  | allegro_font => true
  | loaded_font id => bool_decide (id ∈ fonts)
  end.

(** The bitmaps and the fonts that are alive after the calls, starting
    from those given; [None] when a call destroys the screen or the font of
    Allegro, destroys an object that is not alive, or uses a font that is
    not alive. *)
Fixpoint alive_after (bitmaps fonts : gset nat) (calls : list DisplayCall)
    : option (gset nat * gset nat) :=
  match calls with
  | [] => Some (bitmaps, fonts)
  | create_bitmap id _ _ :: rest => alive_after (bitmaps ∪ {[id]}) fonts rest
  | destroy_bitmap (created_bitmap id) :: rest =>
      if bool_decide (id ∈ bitmaps) then alive_after (bitmaps ∖ {[id]}) fonts rest
      else None
  | destroy_bitmap allegro_screen :: _ => None
  | ji_font_load_ok id _ :: rest => alive_after bitmaps (fonts ∪ {[id]}) rest
  | destroy_font (loaded_font id) :: rest =>
      if bool_decide (id ∈ fonts) then alive_after bitmaps (fonts ∖ {[id]}) rest
      else None
  | destroy_font allegro_font :: _ => None
  | ji_font_set_size f _ :: rest | ji_set_font_of_all_widgets f :: rest =>
      if font_usable fonts f then alive_after bitmaps fonts rest else None
  end.

(** The loaded fonts that the theme refers to. *)
Definition theme_fonts (d : Display) : gset nat :=
  match default_font d with
  | Some (loaded_font id) => {[id]}
  | _ => ∅
  end.

(** The invariant of the display: no call so far misused a bitmap or a
    font; the loaded fonts alive are the one of the theme, if any;
    [ji_screen] is the screen of Allegro when [ji_screen_created] is false
    and a bitmap that is alive when it is true; and the objects alive were
    created. *)
Definition display_inv (d : Display) : Prop :=
  exists bitmaps,
    alive_after ∅ ∅ (display_calls d) = Some (bitmaps, theme_fonts d) /\
    (if ji_screen_created d
     then exists id, ji_screen d = created_bitmap id /\ id ∈ bitmaps
     else ji_screen d = allegro_screen) /\
    (forall id, id ∈ bitmaps ∪ theme_fonts d -> (id < created d)%nat).

(** ** Window positions *)

(** Coordinates whose sums and differences fit an [int]. *)
Definition small_coord (z : Z) : Prop := - 2 ^ 30 <= z < 2 ^ 30.

Definition small_rect (r : JRect) : Prop :=
  small_coord (x1 r) /\ small_coord (y1 r) /\ small_coord (x2 r) /\ small_coord (y2 r).

(** ** Layers *)

(** The layers of a tree of layers: the layer itself and, for a set, the
    layers of everything that it holds. *)
Fixpoint layers_of (layer : Layer) : list Layer :=
  layer ::
  match layer with
  | image_layer _ => []
  | set_of_layers _ layers => layers ≫= layers_of
  end.

(** ** Worked scenarios *)

(** A chord grammar that knows three chords. *)
Definition sample_parse (buf : string) : list KeyCombo :=
  if String.eqb buf "<N>" then [MkKeyCombo 0 14]
  else if String.eqb buf "<Ctrl+N>" then [MkKeyCombo 2 14]
  else if String.eqb buf "<M>" then [MkKeyCombo 0 13]
  else [].

(** Two commands. *)
Definition cmd_new_file : Command := MkCommand 1 "new_file".
Definition cmd_screen_shot : Command := MkCommand 2 "screen_shot".

(** A registry with two commands, and two tools. *)
Definition sample_collaborators : Collaborators := {|
  get_command_by_name n :=
    if String.eqb n "new_file" then Some cmd_new_file
    else if String.eqb n "screen_shot" then Some cmd_screen_shot
    else None;
  jaccel_parse := sample_parse;
  tools_list := [10%nat; 20%nat];
  screen_shot := "screen_shot"
|}.

(** Key events that press "N", "Ctrl+N" and "M". *)
Definition key_N : KeyMsg := MkKeyMsg 0 110 14.
Definition key_Ctrl_N : KeyMsg := MkKeyMsg 2 14 14.
Definition key_M : KeyMsg := MkKeyMsg 0 109 13.

(** The desktop window and a foreground dialog. *)
Definition desktop_window : Window :=
  {| window_addr := 1; is_foreground := false; is_desktop := true |}.
Definition dialog_window : Window :=
  {| window_addr := 2; is_foreground := true; is_desktop := false |}.

(** An iteration in GUI mode, without sprite, in which the recent-list menu
    cannot be rebuilt. *)
Definition sample_env : FeedbackEnv := {|
  recent_list_rebuilt := false;
  current_sprite := None;
  mode_gui := true;
  palette_changed := true;
  double_buffering := false;
  dirty_region := false;
  same_screen_size := true
|}.

(** The same iteration when the recent-list menu can be rebuilt. *)
Definition sample_env_rebuilt : FeedbackEnv := {|
  recent_list_rebuilt := true;
  current_sprite := None;
  mode_gui := true;
  palette_changed := true;
  double_buffering := false;
  dirty_region := false;
  same_screen_size := true
|}.

(** A data directory in which only "data/jids/newlay.jid" exists; that
    file defines the window "new_layer" but no widget called "name". *)
Definition sample_host : WidgetHost := {|
  file_exists path := String.eqb path "data/jids/newlay.jid";
  filename_in_datadir rel := ["home/" +:+ rel; "data/" +:+ rel];
  ji_load_widget path name :=
    if String.eqb path "data/jids/newlay.jid" && String.eqb name "new_layer"
    then Some 7%nat else None;
  jwidget_find_name w name := None
|}.

(** A host whose driver accepts 640 by 480 in 16 bits, in a window, and
    nothing else, on a desktop of 1280 by 1024; and a configuration file
    without any variable. *)
Definition sample_gfx_host : GfxHost := {|
  DEF_SCALE := 1;
  install_mouse := 0;
  install_keyboard := 0;
  get_desktop_resolution := Some (1280, 1024);
  desktop_color_depth := 32;
  set_gfx_mode depth fullscreen w h :=
    (depth =? 16) && negb fullscreen && (w =? 640) && (h =? 480)
|}.

Definition empty_config : Config :=
  {| config_ints := ∅; config_bools := ∅; config_strings := ∅ |}.

(** A host in which only the small font of the program can be loaded (it
    is scalable), and a screen of 1024 by 768 in a window. *)
Definition sample_font_host : FontHost := {|
  ji_font_load path :=
    if String.eqb path "data/fonts/ase1.pcx" then Some true else None
|}.

Definition sample_screen : Screen :=
  {| SCREEN_W := 1024; SCREEN_H := 768; screen_color_depth := 16; windowed := true |}.


(** A sprite with two layers at the top and one inside a set. *)
Definition sample_layers : Layer :=
  set_of_layers "Layers"
    [image_layer "Layer 1"; image_layer "Background";
     set_of_layers "Layer 7" [image_layer "Layer 12"]].

(** * Verification *)

(** ** Strings and buffers *)

Lemma string_length_app (s1 s2 : string) :
  String.length (s1 +:+ s2) = (String.length s1 + String.length s2)%nat.
Proof.
  induction s1 as [|c s1 IH]; [done|].
  change (String c s1 +:+ s2) with (String c (s1 +:+ s2)).
  cbn [String.length]. by rewrite IH.
Qed.

(** ** The shortcut table *)

Section shortcut_table_facts.
Context `{Collaborators}.

Lemma shortcuts_add_shortcut s k t : shortcuts (add_shortcut s k t) = shortcuts t.
Proof. reflexivity. Qed.

Lemma length_accels_add_shortcut s k t :
  length (accels (add_shortcut s k t)) = length (accels t).
Proof. cbn. apply length_alter. Qed.

Lemma shortcuts_add_command k n p t :
  shortcuts (snd (add_keyboard_shortcut_to_execute_command k n p t)) =
  match get_keyboard_shortcut_for_command n p t with
  | Some _ => shortcuts t
  | None =>
      shortcuts t ++
      [ {| accel := length (accels t);
           target := Shortcut_ExecuteCommand (get_command_by_name n) (default ∅ p) |} ]
  end.
Proof.
  unfold add_keyboard_shortcut_to_execute_command.
  destruct (get_keyboard_shortcut_for_command n p t) as [[i s]|]; reflexivity.
Qed.

Lemma shortcuts_add_tool k tool t :
  shortcuts (snd (add_keyboard_shortcut_to_change_tool k tool t)) =
  match get_keyboard_shortcut_for_tool tool t with
  | Some _ => shortcuts t
  | None =>
      shortcuts t ++
      [ {| accel := length (accels t); target := Shortcut_ChangeTool tool |} ]
  end.
Proof.
  unfold add_keyboard_shortcut_to_change_tool.
  destruct (get_keyboard_shortcut_for_tool tool t) as [[i s]|]; reflexivity.
Qed.

Lemma length_accels_add_command k n p t :
  length (accels (snd (add_keyboard_shortcut_to_execute_command k n p t))) =
  match get_keyboard_shortcut_for_command n p t with
  | Some _ => length (accels t)
  | None => S (length (accels t))
  end.
Proof.
  unfold add_keyboard_shortcut_to_execute_command.
  destruct (get_keyboard_shortcut_for_command n p t) as [[i s]|]; cbn.
  - apply length_alter.
  - rewrite length_alter, length_app. cbn. lia.
Qed.

Lemma length_accels_add_tool k tool t :
  length (accels (snd (add_keyboard_shortcut_to_change_tool k tool t))) =
  match get_keyboard_shortcut_for_tool tool t with
  | Some _ => length (accels t)
  | None => S (length (accels t))
  end.
Proof.
  unfold add_keyboard_shortcut_to_change_tool.
  destruct (get_keyboard_shortcut_for_tool tool t) as [[i s]|]; cbn.
  - apply length_alter.
  - rewrite length_alter, length_app. cbn. lia.
Qed.

Lemma run_binds_snoc ops op t :
  run_binds (ops ++ [op]) t = run_bind (run_binds ops t) op.
Proof. unfold run_binds. apply foldl_snoc. Qed.

Lemma accels_allocated_run_bind t op :
  accels_allocated t -> accels_allocated (run_bind t op).
Proof.
  unfold accels_allocated. intros Hwf.
  destruct op as [k n p|k tool]; cbn [run_bind].
  - rewrite shortcuts_add_command, length_accels_add_command.
    destruct (get_keyboard_shortcut_for_command n p t); [done|].
    apply Forall_app. split.
    + eapply Forall_impl; [exact Hwf|]. cbn. intros; lia.
    + apply Forall_singleton. cbn. lia.
  - rewrite shortcuts_add_tool, length_accels_add_tool.
    destruct (get_keyboard_shortcut_for_tool tool t); [done|].
    apply Forall_app. split.
    + eapply Forall_impl; [exact Hwf|]. cbn. intros; lia.
    + apply Forall_singleton. cbn. lia.
Qed.

Lemma accels_allocated_run_binds ops :
  accels_allocated (run_binds ops empty_table).
Proof.
  induction ops as [|op ops IH] using rev_ind.
  - constructor.
  - rewrite run_binds_snoc. by apply accels_allocated_run_bind.
Qed.

Lemma is_shortcut_for_command_spec c p s :
  is_shortcut_for_command c p s = true <->
  target s = Shortcut_ExecuteCommand (Some c) (default ∅ p).
Proof.
  unfold is_shortcut_for_command.
  destruct (target s) as [c' q|tool], p as [p|]; cbn;
    rewrite ?andb_true_iff, ?bool_decide_eq_true; split;
    try (intros [-> ->]; done); try done; intros [= -> ->]; done.
Qed.

Lemma is_shortcut_for_tool_spec tool s :
  is_shortcut_for_tool tool s = true <-> target s = Shortcut_ChangeTool tool.
Proof.
  unfold is_shortcut_for_tool.
  destruct (target s) as [c' q|tool']; cbn; rewrite ?bool_decide_eq_true;
    split; try done; [intros ->; done | intros [= ->]; done].
Qed.

(** A lookup that fails although the name is registered means that no
    shortcut with this target is in the table. *)
Lemma get_keyboard_shortcut_for_command_None n c p t :
  get_command_by_name n = Some c ->
  get_keyboard_shortcut_for_command n p t = None ->
  Forall (fun s => target s <> Shortcut_ExecuteCommand (Some c) (default ∅ p)) (shortcuts t).
Proof.
  unfold get_keyboard_shortcut_for_command. intros -> Hnone.
  apply list_find_None in Hnone.
  eapply Forall_impl; [exact Hnone|]. cbn. intros s Hs Heq. apply Hs.
  by apply is_shortcut_for_command_spec.
Qed.

Lemma get_keyboard_shortcut_for_tool_None tool t :
  get_keyboard_shortcut_for_tool tool t = None ->
  Forall (fun s => target s <> Shortcut_ChangeTool tool) (shortcuts t).
Proof.
  unfold get_keyboard_shortcut_for_tool. intros Hnone.
  apply list_find_None in Hnone.
  eapply Forall_impl; [exact Hnone|]. cbn. intros s Hs Heq. apply Hs.
  by apply is_shortcut_for_tool_spec.
Qed.

Lemma unique_targets_snoc t s accels' overrun' :
  unique_targets t ->
  (names_target (target s) -> Forall (fun s' => target s' <> target s) (shortcuts t)) ->
  unique_targets {| accels := accels'; shortcuts := shortcuts t ++ [s];
                    buf_overrun := overrun' |}.
Proof.
  intros Huniq Hfresh i j si sj Hi Hj Heq Hnamed. cbn in Hi, Hj.
  apply lookup_app_Some in Hi as [Hi|[Hil Hi]];
    apply lookup_app_Some in Hj as [Hj|[Hjl Hj]].
  - eauto.
  - apply list_lookup_singleton_Some in Hj as [_ <-].
    rewrite Heq in Hnamed. specialize (Hfresh Hnamed).
    rewrite Forall_forall in Hfresh. exfalso.
    eapply Hfresh; [|exact Heq]. eapply list_elem_of_lookup_2; eauto.
  - apply list_lookup_singleton_Some in Hi as [_ <-].
    specialize (Hfresh Hnamed).
    rewrite Forall_forall in Hfresh. exfalso.
    eapply Hfresh; [|symmetry; exact Heq]. eapply list_elem_of_lookup_2; eauto.
  - apply list_lookup_singleton_Some in Hi as [Hi _].
    apply list_lookup_singleton_Some in Hj as [Hj _]. lia.
Qed.

Lemma unique_targets_same_shortcuts t t' :
  shortcuts t' = shortcuts t -> unique_targets t -> unique_targets t'.
Proof. unfold unique_targets. intros ->. done. Qed.

Lemma unique_targets_run_bind t op :
  unique_targets t -> unique_targets (run_bind t op).
Proof.
  intros Huniq. destruct op as [k n p|k tool]; cbn [run_bind].
  - unfold add_keyboard_shortcut_to_execute_command.
    destruct (get_keyboard_shortcut_for_command n p t) as [[i s]|] eqn:Hget; cbn.
    + by eapply unique_targets_same_shortcuts.
    + eapply unique_targets_same_shortcuts; [reflexivity|].
      apply unique_targets_snoc; [done|]. cbn.
      destruct (get_command_by_name n) as [c|] eqn:Hc; [|done]. intros _.
      by eapply get_keyboard_shortcut_for_command_None.
  - unfold add_keyboard_shortcut_to_change_tool.
    destruct (get_keyboard_shortcut_for_tool tool t) as [[i s]|] eqn:Hget; cbn.
    + by eapply unique_targets_same_shortcuts.
    + eapply unique_targets_same_shortcuts; [reflexivity|].
      apply unique_targets_snoc; [done|]. cbn. intros _.
      by eapply get_keyboard_shortcut_for_tool_None.
Qed.

Lemma unique_targets_run_binds ops : unique_targets (run_binds ops empty_table).
Proof.
  induction ops as [|op ops IH] using rev_ind.
  - intros i j si sj Hi. cbn in Hi. by rewrite lookup_nil in Hi.
  - rewrite run_binds_snoc. by apply unique_targets_run_bind.
Qed.

(** *** Looking up a binding that was just made *)

Lemma get_keyboard_shortcut_for_command_default n p p' t :
  default ∅ p = default ∅ p' ->
  get_keyboard_shortcut_for_command n p t = get_keyboard_shortcut_for_command n p' t.
Proof.
  intros Hp. unfold get_keyboard_shortcut_for_command.
  destruct (get_command_by_name n) as [c|]; [|done].
  apply list_find_ext. intros s. by rewrite !is_shortcut_for_command_spec, Hp.
Qed.

Lemma get_keyboard_shortcut_for_command_elem n p t i s :
  get_keyboard_shortcut_for_command n p t = Some (i, s) -> shortcuts t !! i = Some s.
Proof.
  unfold get_keyboard_shortcut_for_command.
  destruct (get_command_by_name n); [|done]. by intros (? & _)%list_find_Some.
Qed.

Lemma get_keyboard_shortcut_for_tool_elem tool t i s :
  get_keyboard_shortcut_for_tool tool t = Some (i, s) -> shortcuts t !! i = Some s.
Proof. unfold get_keyboard_shortcut_for_tool. by intros (? & _)%list_find_Some. Qed.

Lemma accels_allocated_lookup t i s :
  accels_allocated t -> shortcuts t !! i = Some s -> (accel s < length (accels t))%nat.
Proof. unfold accels_allocated. rewrite Forall_lookup. eauto. Qed.

Lemma lookup_after_add_command k n c p t :
  get_command_by_name n = Some c ->
  exists i s,
    get_keyboard_shortcut_for_command n p
      (snd (add_keyboard_shortcut_to_execute_command k n p t)) = Some (i, s) /\
    accel s = fst (add_keyboard_shortcut_to_execute_command k n p t).
Proof.
  intros Hc. unfold add_keyboard_shortcut_to_execute_command.
  destruct (get_keyboard_shortcut_for_command n p t) as [[i s]|] eqn:Hget; cbn.
  - exists i, s. split; [|done]. exact Hget.
  - exists (0 + length (shortcuts t))%nat,
      {| accel := length (accels t);
         target := Shortcut_ExecuteCommand (get_command_by_name n) (default ∅ p) |}.
    split; [|reflexivity].
    unfold get_keyboard_shortcut_for_command in *. rewrite Hc in *.
    rewrite ?shortcuts_add_shortcut. cbn [shortcuts]. rewrite list_find_app_r by done.
    erewrite (proj2 (list_find_Some _ [_] 0%nat _)); [reflexivity|].
    split_and!; [done|by apply is_shortcut_for_command_spec|intros; lia].
Qed.

Lemma lookup_after_add_tool k tool t :
  exists i s,
    get_keyboard_shortcut_for_tool tool
      (snd (add_keyboard_shortcut_to_change_tool k tool t)) = Some (i, s) /\
    accel s = fst (add_keyboard_shortcut_to_change_tool k tool t).
Proof.
  unfold add_keyboard_shortcut_to_change_tool.
  destruct (get_keyboard_shortcut_for_tool tool t) as [[i s]|] eqn:Hget; cbn.
  - exists i, s. split; [|done]. exact Hget.
  - exists (0 + length (shortcuts t))%nat,
      {| accel := length (accels t); target := Shortcut_ChangeTool tool |}.
    split; [|reflexivity].
    unfold get_keyboard_shortcut_for_tool in *.
    rewrite ?shortcuts_add_shortcut. cbn [shortcuts]. rewrite list_find_app_r by done.
    erewrite (proj2 (list_find_Some _ [_] 0%nat _)); [reflexivity|].
    split_and!; [done|by apply is_shortcut_for_tool_spec|intros; lia].
Qed.

(** *** Adding chords keeps the old alternatives and adds the new ones *)

Lemma jaccel_check_app keys keys' shifts ascii scancode :
  jaccel_check (keys ++ keys') shifts ascii scancode =
  jaccel_check keys shifts ascii scancode || jaccel_check keys' shifts ascii scancode.
Proof. unfold jaccel_check. apply existsb_app. Qed.

Lemma accel_pressed_add_shortcut s k t msg :
  (accel s < length (accels t))%nat ->
  accel_pressed (add_shortcut s k t) (accel s) msg =
  accel_pressed t (accel s) msg || chord_pressed k msg.
Proof.
  intros Hlt. destruct (lookup_lt_is_Some_2 _ _ Hlt) as [keys Hkeys].
  unfold accel_pressed, add_shortcut, chord_pressed, jaccel_add_keys_from_string.
  cbn [accels]. rewrite list_lookup_alter_eq, !Hkeys. cbn [fmap option_fmap option_map].
  apply jaccel_check_app.
Qed.

Lemma accel_pressed_add_shortcut_mono s k t a msg :
  accel_pressed t a msg = true -> accel_pressed (add_shortcut s k t) a msg = true.
Proof.
  unfold accel_pressed, add_shortcut, jaccel_add_keys_from_string.
  cbn [accels]. rewrite list_lookup_alter.
  case_decide as Ha; [|done]. subst a.
  destruct (accels t !! accel s) as [keys|]; [|done].
  cbn [fmap option_fmap option_map].
  rewrite jaccel_check_app. by intros ->.
Qed.

Lemma accel_pressed_after_add_command k n p t msg :
  accels_allocated t ->
  let r := add_keyboard_shortcut_to_execute_command k n p t in
  accel_pressed (snd r) (fst r) msg = accel_pressed t (fst r) msg || chord_pressed k msg.
Proof.
  intros Hwf. unfold add_keyboard_shortcut_to_execute_command.
  destruct (get_keyboard_shortcut_for_command n p t) as [[i s]|] eqn:Hget; cbn.
  - apply accel_pressed_add_shortcut.
    eauto using accels_allocated_lookup, get_keyboard_shortcut_for_command_elem.
  - unfold accel_pressed, chord_pressed, add_shortcut, jaccel_add_keys_from_string.
    cbn [accels accel]. rewrite list_lookup_alter_eq, lookup_app_r, Nat.sub_diag by done.
    rewrite (lookup_ge_None_2 (accels t) (length (accels t))) by lia. reflexivity.
Qed.

Lemma accel_pressed_after_add_tool k tool t msg :
  accels_allocated t ->
  let r := add_keyboard_shortcut_to_change_tool k tool t in
  accel_pressed (snd r) (fst r) msg = accel_pressed t (fst r) msg || chord_pressed k msg.
Proof.
  intros Hwf. unfold add_keyboard_shortcut_to_change_tool.
  destruct (get_keyboard_shortcut_for_tool tool t) as [[i s]|] eqn:Hget; cbn.
  - apply accel_pressed_add_shortcut.
    eauto using accels_allocated_lookup, get_keyboard_shortcut_for_tool_elem.
  - unfold accel_pressed, chord_pressed, add_shortcut, jaccel_add_keys_from_string.
    cbn [accels accel]. rewrite list_lookup_alter_eq, lookup_app_r, Nat.sub_diag by done.
    rewrite (lookup_ge_None_2 (accels t) (length (accels t))) by lia. reflexivity.
Qed.

End shortcut_table_facts.

(** *** Chord strings and the buffer of [Shortcut::add_shortcut] *)

Section buffer_facts.
Context `{Collaborators}.

Lemma buf_overrun_add_shortcut s k t :
  buf_overrun (add_shortcut s k t) = buf_overrun t || (253 <? String.length k)%nat.
Proof.
  unfold add_shortcut, jaccel_add_keys_from_string, add_shortcut_buf_size.
  cbn [buf_overrun]. f_equal.
  rewrite !string_length_app. cbn [String.length].
  apply eq_true_iff_eq. rewrite !(Nat.ltb_lt). lia.
Qed.

Lemma buf_overrun_run_bind t op :
  buf_overrun (run_bind t op) =
  buf_overrun t || (253 <? String.length (op_chord op))%nat.
Proof.
  destruct op as [k n p|k tool]; cbn [run_bind op_chord].
  - unfold add_keyboard_shortcut_to_execute_command, jaccel_new.
    destruct (get_keyboard_shortcut_for_command n p t) as [[i s]|]; cbn [snd];
      by rewrite buf_overrun_add_shortcut.
  - unfold add_keyboard_shortcut_to_change_tool, jaccel_new.
    destruct (get_keyboard_shortcut_for_tool tool t) as [[i s]|]; cbn [snd];
      by rewrite buf_overrun_add_shortcut.
Qed.

Lemma chord_fits_ltb k : chord_fits k -> (253 <? String.length k)%nat = false.
Proof. unfold chord_fits. intros Hk. by apply Nat.ltb_ge. Qed.

(** The writes of a sequence of bindings stay within the buffer exactly
    when every chord string fits. *)
Lemma buf_overrun_run_binds ops : forall t,
  buf_overrun (run_binds ops t) = false <-> buf_overrun t = false /\ chords_fit ops.
Proof.
  unfold chords_fit.
  induction ops as [|op ops IH]; intros t; cbn [run_binds foldl].
  - split; [by intros ->|by intros [-> _]].
  - change (foldl run_bind (run_bind t op) ops) with (run_binds ops (run_bind t op)).
    rewrite IH, buf_overrun_run_bind, Forall_cons, orb_false_iff.
    unfold chord_fits. rewrite Nat.ltb_ge. tauto.
Qed.

Lemma chords_fit_run_binds ops :
  chords_fit ops -> buf_overrun (run_binds ops empty_table) = false.
Proof. intros Hops. by apply buf_overrun_run_binds. Qed.

(** A binding whose chord string has more than 253 bytes writes past the
    end of the buffer. *)
Lemma long_chord_overruns t op :
  ~ chord_fits (op_chord op) -> buf_overrun (run_bind t op) = true.
Proof.
  unfold chord_fits. intros Hlong. rewrite buf_overrun_run_bind.
  rewrite (proj2 (Nat.ltb_lt _ _)) by lia. apply orb_true_r.
Qed.

End buffer_facts.

Section shortcut_table_claims.
Context `{Collaborators}.

(** C9 (as amended).  For every command name known to the command registry,
    any parameters and any chord string of at most 253 bytes, on every
    table built by a sequence of bindings whose chord strings have at most
    253 bytes: [add_keyboard_shortcut_to_execute_command] stays within the
    buffer of [Shortcut::add_shortcut]; followed by
    [get_accel_to_execute_command] (and [get_keyboard_shortcut_for_command])
    with the same name and parameters it returns the very accelerator that
    the binding call returned, the alternatives of that accelerator end with
    the chords parsed from the string, and every key event that presses the
    chord is matched by it. *)
Theorem bind_command_then_find_returns_its_accel ops k n c p :
  get_command_by_name n = Some c ->
  chords_fit ops -> chord_fits k ->
  let t := run_binds ops empty_table in
  let r := add_keyboard_shortcut_to_execute_command k n p t in
  buf_overrun (snd r) = false /\
  get_accel_to_execute_command n p (snd r) = Some (fst r) /\
  (exists i s, get_keyboard_shortcut_for_command n p (snd r) = Some (i, s) /\
               accel s = fst r /\
               target s = Shortcut_ExecuteCommand (Some c) (default ∅ p)) /\
  (exists keys, accels (snd r) !! fst r = Some (keys ++ jaccel_parse ("<" +:+ k +:+ ">"))) /\
  (forall msg, chord_pressed k msg = true -> accel_pressed (snd r) (fst r) msg = true).
Proof.
  intros Hc Hops Hk t r.
  destruct (lookup_after_add_command k n c p t Hc) as (i & s & Hget & Hacc).
  fold r in Hget, Hacc.
  assert (Hwf : accels_allocated t) by apply accels_allocated_run_binds.
  split_and!.
  - pose proof (buf_overrun_run_bind t (bind_command k n p)) as Hbuf.
    cbn [run_bind op_chord] in Hbuf. subst r. rewrite Hbuf.
    subst t. rewrite (chords_fit_run_binds ops Hops). by apply chord_fits_ltb.
  - unfold get_accel_to_execute_command. rewrite Hget. by rewrite Hacc.
  - exists i, s. split_and!; [done..|].
    unfold get_keyboard_shortcut_for_command in Hget. rewrite Hc in Hget.
    apply list_find_Some in Hget as (_ & Hs & _).
    by apply is_shortcut_for_command_spec.
  - subst r. unfold add_keyboard_shortcut_to_execute_command.
    destruct (get_keyboard_shortcut_for_command n p t) as [[j s']|] eqn:Hold;
      unfold add_shortcut, jaccel_add_keys_from_string, jaccel_new;
      cbn [fst snd accels accel].
    + destruct (lookup_lt_is_Some_2 (accels t) (accel s')) as [keys Hkeys].
      { eauto using accels_allocated_lookup, get_keyboard_shortcut_for_command_elem. }
      exists keys. by rewrite list_lookup_alter_eq, Hkeys.
    + exists []. rewrite list_lookup_alter_eq, lookup_app_r, Nat.sub_diag by done.
      reflexivity.
  - intros msg Hmsg. subst r.
    rewrite (accel_pressed_after_add_command k n p t msg Hwf).
    rewrite Hmsg. apply orb_true_r.
Qed.

(** C4 (as amended).  After any sequence of bindings whose chord strings
    have at most 253 bytes, the table holds at most one
    [Shortcut_ExecuteCommand] shortcut per registered command and parameter
    set (absent parameters being stored as the empty set) and at most one
    [Shortcut_ChangeTool] shortcut per tool.  Binding again, with chord
    strings of at most 253 bytes, a registered command with the same
    parameters (absent or empty alike), or a tool, stays within the buffer of
    [Shortcut::add_shortcut], returns the accelerator of the existing
    shortcut, leaves the vector of shortcuts as it was, keeps every event
    matched before matched, and makes the accelerator match exactly the
    events it matched before or that press one of the two chords. *)
Theorem bindings_unique_and_rebinding_appends ops k1 k2 n c p1 p2 tool :
  get_command_by_name n = Some c ->
  default ∅ p1 = default ∅ p2 ->
  chords_fit ops -> chord_fits k1 -> chord_fits k2 ->
  let t := run_binds ops empty_table in
  (forall i j si sj c' p,
      shortcuts t !! i = Some si -> shortcuts t !! j = Some sj ->
      target si = Shortcut_ExecuteCommand (Some c') p ->
      target sj = Shortcut_ExecuteCommand (Some c') p -> i = j) /\
  (forall i j si sj tool',
      shortcuts t !! i = Some si -> shortcuts t !! j = Some sj ->
      target si = Shortcut_ChangeTool tool' ->
      target sj = Shortcut_ChangeTool tool' -> i = j) /\
  (let r1 := add_keyboard_shortcut_to_execute_command k1 n p1 t in
   let r2 := add_keyboard_shortcut_to_execute_command k2 n p2 (snd r1) in
   buf_overrun (snd r2) = false /\
   fst r2 = fst r1 /\
   shortcuts (snd r2) = shortcuts (snd r1) /\
   length (shortcuts (snd r2)) = length (shortcuts (snd r1)) /\
   (forall a msg, accel_pressed (snd r1) a msg = true ->
                  accel_pressed (snd r2) a msg = true) /\
   (forall msg, accel_pressed (snd r2) (fst r1) msg =
                accel_pressed t (fst r1) msg || chord_pressed k1 msg || chord_pressed k2 msg)) /\
  (let r1 := add_keyboard_shortcut_to_change_tool k1 tool t in
   let r2 := add_keyboard_shortcut_to_change_tool k2 tool (snd r1) in
   buf_overrun (snd r2) = false /\
   fst r2 = fst r1 /\
   shortcuts (snd r2) = shortcuts (snd r1) /\
   length (shortcuts (snd r2)) = length (shortcuts (snd r1)) /\
   (forall a msg, accel_pressed (snd r1) a msg = true ->
                  accel_pressed (snd r2) a msg = true) /\
   (forall msg, accel_pressed (snd r2) (fst r1) msg =
                accel_pressed t (fst r1) msg || chord_pressed k1 msg || chord_pressed k2 msg)).
Proof.
  intros Hc Hp Hops Hk1 Hk2 t.
  assert (Hwf : accels_allocated t) by apply accels_allocated_run_binds.
  assert (Huniq : unique_targets t) by apply unique_targets_run_binds.
  assert (Hbuf : buf_overrun t = false) by by apply chords_fit_run_binds.
  split_and!.
  - intros i j si sj c' p Hi Hj Hsi Hsj.
    eapply Huniq; eauto; [congruence|]. by rewrite Hsi.
  - intros i j si sj tool' Hi Hj Hsi Hsj.
    eapply Huniq; eauto; [congruence|]. by rewrite Hsi.
  - intros r1 r2.
    destruct (lookup_after_add_command k1 n c p1 t Hc) as (i & s & Hget & Hacc).
    fold r1 in Hget, Hacc.
    rewrite (get_keyboard_shortcut_for_command_default n p1 p2) in Hget by done.
    assert (Hr2 : r2 = (accel s, add_shortcut s k2 (snd r1))).
    { subst r2. unfold add_keyboard_shortcut_to_execute_command at 1. by rewrite Hget. }
    assert (Hwf1 : accels_allocated (snd r1)).
    { apply (accels_allocated_run_bind t (bind_command k1 n p1) Hwf). }
    rewrite Hr2. cbn [fst snd]. split_and!; [|done..| |].
    + pose proof (buf_overrun_run_bind t (bind_command k1 n p1)) as Hbuf1.
      cbn [run_bind op_chord] in Hbuf1. fold r1 in Hbuf1.
      by rewrite buf_overrun_add_shortcut, Hbuf1, Hbuf, !chord_fits_ltb.
    + intros a msg. apply accel_pressed_add_shortcut_mono.
    + intros msg. rewrite <- Hacc, accel_pressed_add_shortcut.
      * rewrite Hacc. subst r1.
        by rewrite (accel_pressed_after_add_command k1 n p1 t msg Hwf).
      * eauto using accels_allocated_lookup, get_keyboard_shortcut_for_command_elem.
  - intros r1 r2.
    destruct (lookup_after_add_tool k1 tool t) as (i & s & Hget & Hacc).
    fold r1 in Hget, Hacc.
    assert (Hr2 : r2 = (accel s, add_shortcut s k2 (snd r1))).
    { subst r2. unfold add_keyboard_shortcut_to_change_tool at 1. by rewrite Hget. }
    assert (Hwf1 : accels_allocated (snd r1)).
    { apply (accels_allocated_run_bind t (bind_tool k1 tool) Hwf). }
    rewrite Hr2. cbn [fst snd]. split_and!; [|done..| |].
    + pose proof (buf_overrun_run_bind t (bind_tool k1 tool)) as Hbuf1.
      cbn [run_bind op_chord] in Hbuf1. fold r1 in Hbuf1.
      by rewrite buf_overrun_add_shortcut, Hbuf1, Hbuf, !chord_fits_ltb.
    + intros a msg. apply accel_pressed_add_shortcut_mono.
    + intros msg. rewrite <- Hacc, accel_pressed_add_shortcut.
      * rewrite Hacc. subst r1.
        by rewrite (accel_pressed_after_add_tool k1 tool t msg Hwf).
      * eauto using accels_allocated_lookup, get_keyboard_shortcut_for_tool_elem.
Qed.

End shortcut_table_claims.

(** Binding a registered command on the empty table and looking it up. *)
Lemma bind_command_then_find_witness :
  @get_command_by_name sample_collaborators "new_file" = Some cmd_new_file /\
  chord_fits "Ctrl+N" /\
  let r := @add_keyboard_shortcut_to_execute_command sample_collaborators
             "Ctrl+N" "new_file" None empty_table in
  buf_overrun (snd r) = false /\
  @get_accel_to_execute_command sample_collaborators "new_file" None (snd r) = Some (fst r).
Proof.
  assert (Hops : chords_fit []) by constructor.
  assert (Hk : chord_fits "Ctrl+N") by (unfold chord_fits; cbn; lia).
  split; [reflexivity|]. split; [exact Hk|].
  destruct (@bind_command_then_find_returns_its_accel sample_collaborators
              [] "Ctrl+N" "new_file" cmd_new_file None eq_refl Hops Hk)
    as (Hbuf & Hfind & _).
  exact (conj Hbuf Hfind).
Defined.

(** C9 as stated fails for a name the registry does not know: the binding
    call creates a shortcut and returns its accelerator, and the lookup
    with the same name and parameters returns NULL. *)
Lemma bind_unregistered_command_then_find_fails :
  let r := @add_keyboard_shortcut_to_execute_command sample_collaborators
             "Ctrl+N" "bogus" None empty_table in
  fst r = 0%nat /\
  length (shortcuts (snd r)) = 1%nat /\
  @get_accel_to_execute_command sample_collaborators "bogus" None (snd r) = None /\
  @get_accel_to_execute_command sample_collaborators "bogus" None (snd r) <> Some (fst r).
Proof. vm_compute. split_and!; [reflexivity..|discriminate]. Qed.

(** Binding a registered command twice, once without parameters and once
    with the empty parameter set. *)
Lemma rebinding_appends_witness :
  let t := @run_binds sample_collaborators [] empty_table in
  let r1 := @add_keyboard_shortcut_to_execute_command sample_collaborators
              "N" "new_file" None t in
  let r2 := @add_keyboard_shortcut_to_execute_command sample_collaborators
              "Ctrl+N" "new_file" (Some ∅) (snd r1) in
  @get_command_by_name sample_collaborators "new_file" = Some cmd_new_file /\
  default (∅ : Params) None = default ∅ (Some ∅) /\
  chord_fits "N" /\ chord_fits "Ctrl+N" /\
  buf_overrun (snd r2) = false /\
  fst r2 = fst r1 /\
  length (shortcuts (snd r2)) = length (shortcuts (snd r1)).
Proof.
  intros t r1 r2.
  assert (Hops : chords_fit []) by constructor.
  assert (Hk1 : chord_fits "N") by (unfold chord_fits; cbn; lia).
  assert (Hk2 : chord_fits "Ctrl+N") by (unfold chord_fits; cbn; lia).
  split; [reflexivity|]. split; [reflexivity|]. split; [exact Hk1|]. split; [exact Hk2|].
  pose proof (@bindings_unique_and_rebinding_appends sample_collaborators
                [] "N" "Ctrl+N" "new_file" cmd_new_file None (Some ∅) 10%nat
                eq_refl eq_refl Hops Hk1 Hk2) as (_ & _ & (Hbuf & Hacc & _ & Hlen & _) & _).
  exact (conj Hbuf (conj Hacc Hlen)).
Defined.

(** C4 as stated fails for a name the registry does not know: binding it
    twice with the same parameters creates two shortcuts with the same
    (NULL) command and the same parameters, and the table grows. *)
Lemma binding_unregistered_command_twice_duplicates :
  let t1 := @run_binds sample_collaborators
              [bind_command "N" "bogus" None] empty_table in
  let t2 := @run_binds sample_collaborators
              [bind_command "N" "bogus" None; bind_command "M" "bogus" None] empty_table in
  length (shortcuts t1) = 1%nat /\
  length (shortcuts t2) = 2%nat /\
  target <$> shortcuts t2 =
    [Shortcut_ExecuteCommand None ∅; Shortcut_ExecuteCommand None ∅].
Proof. vm_compute. split_and!; reflexivity. Qed.

(** ** The key handler *)

Section key_handler_facts.
Context `{Collaborators}.

Lemma collect_group_None t msg tools :
  collect_group t msg tools = None <->
  exists tool, tool ∈ tools /\ get_keyboard_shortcut_for_tool tool t = None.
Proof.
  induction tools as [|tool tools IH]; cbn.
  - split; [done|]. intros (tool & Hin & _). by apply elem_of_nil in Hin.
  - destruct (get_keyboard_shortcut_for_tool tool t) as [[i s]|] eqn:Hget.
    + destruct (collect_group t msg tools) as [group|].
      * split; [done|]. intros (tool' & Hin & Hnone).
        apply elem_of_cons in Hin as [->|Hin]; [congruence|].
        assert (Some group = None) as Hn by (apply IH; eauto). done.
      * split; [|done]. intros _.
        destruct (proj1 IH eq_refl) as (tool' & Hin & Hnone).
        exists tool'. split; [by apply elem_of_cons; right|done].
    + split; [|done]. intros _. exists tool. split; [by apply elem_of_cons; left|done].
Qed.

Lemma collect_group_Some t msg tools :
  (forall tool, tool ∈ tools -> is_Some (get_keyboard_shortcut_for_tool tool t)) ->
  collect_group t msg tools =
  Some (filter (fun tool => tool_pressed t msg tool = true) tools).
Proof.
  induction tools as [|tool tools IH]; intros Hall; cbn [collect_group]; [done|].
  destruct (Hall tool) as [[i s] Hget]; [by apply elem_of_cons; left|].
  rewrite Hget, IH; [|intros; apply Hall; by apply elem_of_cons; right].
  assert (Hp : tool_pressed t msg tool = is_key_pressed t s msg).
  { unfold tool_pressed. by rewrite Hget. }
  f_equal. rewrite filter_cons, Hp.
  destruct (is_key_pressed t s msg); by case_decide.
Qed.

Lemma next_in_group_not_elem current group :
  current ∉ group -> next_in_group current group = None.
Proof.
  induction group as [|g [|g' group] IH]; intros Hnin; cbn; [done..|].
  rewrite decide_False; [|intros ->; apply Hnin; by apply elem_of_cons; left].
  apply IH. intros Hin. apply Hnin. by apply elem_of_cons; right.
Qed.

Lemma next_in_group_lookup current group k nxt :
  NoDup group ->
  group !! k = Some current -> group !! S k = Some nxt ->
  next_in_group current group = Some nxt.
Proof.
  revert k. induction group as [|g [|g' group] IH]; intros k Hnd Hk Hsk; [done..|].
  cbn [next_in_group]. destruct k as [|k].
  - cbn in Hk, Hsk. simplify_eq. by rewrite decide_True.
  - apply NoDup_cons in Hnd as [Hg Hnd].
    rewrite decide_False.
    + eapply IH; eauto.
    + intros ->. apply Hg. eapply list_elem_of_lookup_2. exact Hk.
Qed.

Lemma next_in_group_last current group :
  NoDup group -> last group = Some current -> next_in_group current group = None.
Proof.
  induction group as [|g [|g' group] IH]; intros Hnd Hlast; [done..|].
  cbn [next_in_group]. apply NoDup_cons in Hnd as [Hg Hnd].
  rewrite decide_False.
  - apply IH; [done|]. exact Hlast.
  - intros ->. apply Hg. change (last (current :: g' :: group)) with (last (g' :: group)) in Hlast.
    apply last_Some in Hlast as (l' & ->).
    apply elem_of_app. right. by apply elem_of_cons; left.
Qed.

Lemma filter_first_lookup {A} (P : A -> Prop) `{!forall x, Decision (P x)} (l : list A) x :
  filter P l !! 0%nat = Some x ->
  exists p, l !! p = Some x /\ P x /\ forall q y, l !! q = Some y -> (q < p)%nat -> ~ P y.
Proof.
  induction l as [|a l IH]; [done|]. rewrite filter_cons. case_decide as Ha.
  - intros [= ->]. exists 0%nat. split_and!; [done..|]. intros; lia.
  - intros (p & Hp & Hx & Hleast)%IH. exists (S p). split_and!; [done..|].
    intros [|q] y Hq Hlt; cbn in Hq; [by simplify_eq|]. apply (Hleast q); [done|lia].
Qed.

(** The first matching shortcut, when it changes the tool on a table whose
    targets are unique, is the shortcut that the lookup by tool returns. *)
Lemma first_pressed_is_shortcut_for_tool t msg i shortcut tool :
  unique_targets t ->
  list_find (fun s => is_key_pressed t s msg = true) (shortcuts t) = Some (i, shortcut) ->
  target shortcut = Shortcut_ChangeTool tool ->
  get_keyboard_shortcut_for_tool tool t = Some (i, shortcut) /\
  tool_pressed t msg tool = true.
Proof.
  intros Huniq (Hi & Hpressed & Hleast)%list_find_Some Htarget.
  assert (Hget : get_keyboard_shortcut_for_tool tool t = Some (i, shortcut)).
  { unfold get_keyboard_shortcut_for_tool. apply list_find_Some.
    split_and!; [done|by apply is_shortcut_for_tool_spec|].
    intros j y Hj Hlt Hy%is_shortcut_for_tool_spec.
    assert (j = i); [|lia].
    eapply Huniq; eauto; [congruence|]. by rewrite Hy. }
  split; [done|]. unfold tool_pressed. by rewrite Hget.
Qed.

End key_handler_facts.

Section key_handler_claims.
Context `{Collaborators}.

(** C6.  When the first shortcut matching a key event is a
    [Shortcut_ChangeTool] shortcut, the handler looks up the shortcut of
    every entry of [tools_list] and dereferences the result: it
    dereferences NULL exactly when some tool of [tools_list] has no
    shortcut in the table, and otherwise it selects a tool and returns
    false. *)
Theorem change_tool_dereferences_every_tool_shortcut
    t current_tool children top_window msg i shortcut tool :
  list_find (fun s => is_key_pressed t s msg = true) (shortcuts t) = Some (i, shortcut) ->
  target shortcut = Shortcut_ChangeTool tool ->
  let r := manager_msg_proc_keypressed t current_tool children top_window msg in
  (r = NullDereference <->
   exists tl, tl ∈ tools_list /\ get_keyboard_shortcut_for_tool tl t = None) /\
  ((forall tl, tl ∈ tools_list -> is_Some (get_keyboard_shortcut_for_tool tl t)) ->
   exists selected, r = Returned (Some (select_tool selected)) false).
Proof.
  intros Hfind Htarget r. subst r. unfold manager_msg_proc_keypressed.
  rewrite Hfind, Htarget. split.
  - destruct (collect_group t msg tools_list) as [group|] eqn:Hgroup.
    + split; [done|]. intros Hex. apply (collect_group_None t msg) in Hex. congruence.
    + split; [|done]. intros _. by apply (collect_group_None t msg).
  - intros Hall. rewrite (collect_group_Some t msg tools_list Hall). eauto.
Qed.

(** The [Shortcut_ExecuteCommand] case of the key handler.  When the first
    shortcut matching a key event is a [Shortcut_ExecuteCommand] shortcut:
    if its command is NULL the handler dereferences the NULL pointer; if
    the command is the screen shot command it is executed and the handler
    returns true; otherwise the command is executed (and true returned)
    exactly when some child of the manager is the desktop window and the
    application's top window and neither it nor any child before it in the
    list of children is a foreground window, and in every other case
    nothing is executed and the handler returns false.  In particular the
    command is executed when the desktop child is the top window and no
    child at all is a foreground window; and when no foreground window
    stands after the desktop top window in the list, it is executed exactly
    in that case. *)
Theorem execute_command_is_gated_by_focus
    t current_tool children top_window msg i shortcut command params :
  list_find (fun s => is_key_pressed t s msg = true) (shortcuts t) = Some (i, shortcut) ->
  target shortcut = Shortcut_ExecuteCommand command params ->
  let r := manager_msg_proc_keypressed t current_tool children top_window msg in
  match command with
  | None => r = NullDereference
  | Some command =>
      let executed := Returned (Some (execute_command command params)) true in
      let desktop_reached :=
        exists before desktop after,
          children = before ++ desktop :: after /\
          is_desktop desktop = true /\ Some (window_addr desktop) = top_window /\
          is_foreground desktop = false /\
          Forall (fun w => is_foreground w = false) before in
      let desktop_on_top :=
        (exists desktop, desktop ∈ children /\ is_desktop desktop = true /\
                         Some (window_addr desktop) = top_window) /\
        Forall (fun w => is_foreground w = false) children in
      (short_name command = screen_shot -> r = executed) /\
      (short_name command <> screen_shot ->
       (r = executed \/ r = Returned None false) /\
       (r = executed <-> desktop_reached) /\
       (desktop_on_top -> r = executed) /\
       (foreground_windows_first top_window children ->
        (r = executed <-> desktop_on_top)))
  end.
Proof.
  intros Hfind Htarget r.
  destruct command as [command|]; [intros executed desktop_reached desktop_on_top|];
    subst r; unfold manager_msg_proc_keypressed; rewrite Hfind, Htarget; [|done].
  assert (Hscan : scan_children top_window children = true <-> desktop_reached).
  { subst desktop_reached. clear. induction children as [|child rest IH]; cbn.
    - split; [done|]. intros (before & d & after & Heq & _). by destruct before.
    - destruct (is_foreground child) eqn:Hfg.
      + split; [done|]. intros ([|b before] & d & after & Heq & Hd & Htop & Hdfg & Hbefore).
        * cbn in Heq. simplify_eq. congruence.
        * cbn in Heq. simplify_eq. apply Forall_cons in Hbefore as [? _]. congruence.
      + destruct (is_desktop child && bool_decide (Some (window_addr child) = top_window))
          eqn:Hdesk.
        * split; [|done]. intros _.
          apply andb_true_iff in Hdesk as [Hd Htop%bool_decide_eq_true].
          exists [], child, rest. split_and!; done.
        * rewrite IH. split.
          -- intros (before & d & after & -> & Hd & Htop & Hdfg & Hbefore).
             exists (child :: before), d, after. split_and!; try done.
             by apply Forall_cons.
          -- intros ([|b before] & d & after & Heq & Hd & Htop & Hdfg & Hbefore).
             ++ cbn in Heq. simplify_eq.
                rewrite Hd in Hdesk. cbn in Hdesk.
                apply bool_decide_eq_false in Hdesk. done.
             ++ cbn in Heq. simplify_eq. apply Forall_cons in Hbefore as [_ Hbefore].
                exists before, d, after. split_and!; done. }
  assert (Hon_top : desktop_on_top -> desktop_reached).
  { intros [(d & Hin & Hd & Htop) Hnofg].
    apply list_elem_of_split in Hin as (before & after & ->).
    apply Forall_app in Hnofg as [Hbefore Hrest].
    apply Forall_cons in Hrest as [Hdfg _].
    exists before, d, after. split_and!; done. }
  split.
  - intros Hname. apply String.eqb_eq in Hname. by rewrite Hname.
  - intros Hname. apply String.eqb_neq in Hname. rewrite Hname.
    split_and!.
    + destruct (scan_children top_window children); auto.
    + rewrite <- Hscan. destruct (scan_children top_window children); split; done.
    + intros Htop. by rewrite (proj2 Hscan (Hon_top Htop)).
    + intros Horder.
      assert (Hiff : scan_children top_window children = true <-> desktop_on_top).
      { split; [|intros Htop; apply Hscan; by apply Hon_top].
        intros (before & d & after & -> & Hd & Htop & Hdfg & Hbefore)%Hscan. split.
        - exists d. split_and!; [|done..]. apply elem_of_app. right. by left.
        - apply Forall_app. split; [done|]. apply Forall_cons. split; [done|].
          by eapply Horder. }
      rewrite <- Hiff. destruct (scan_children top_window children); split; done.
Qed.

(** C1 (as amended).  On a table built by a sequence of bindings in which
    every tool of [tools_list] (a list without repetition) has a shortcut:
    when the first shortcut matching a key event is the
    [Shortcut_ChangeTool] shortcut of a tool of [tools_list], the handler
    selects one tool and returns false.  With G the tools, in the order of
    [tools_list], whose own shortcut matches the event, the tool of the
    first matching shortcut belongs to G; if G has exactly one element that
    element is selected; if the current tool stands in G at a position
    followed by another element, that next element is selected; otherwise
    (current tool last in G, or not in G) the tool of the first matching
    shortcut is selected, which is the first element of G whenever the tool
    shortcuts stand in the table in the order of [tools_list]. *)
Theorem change_tool_cycles_through_group
    ops current_tool children top_window msg i shortcut tool :
  let t := run_binds ops empty_table in
  list_find (fun s => is_key_pressed t s msg = true) (shortcuts t) = Some (i, shortcut) ->
  target shortcut = Shortcut_ChangeTool tool ->
  (forall tl, tl ∈ tools_list -> is_Some (get_keyboard_shortcut_for_tool tl t)) ->
  tool ∈ tools_list ->
  NoDup tools_list ->
  let G := tool_group t msg in
  exists selected,
    manager_msg_proc_keypressed t current_tool children top_window msg =
      Returned (Some (select_tool selected)) false /\
    tool ∈ G /\
    (length G = 1%nat -> G = [selected]) /\
    (forall k next, G !! k = Some current_tool -> G !! S k = Some next ->
                    selected = next) /\
    (current_tool ∉ G \/ last G = Some current_tool -> selected = tool) /\
    (tools_bound_in_registration_order t -> G !! 0%nat = Some tool).
Proof.
  intros t Hfind Htarget Hall Htool Hnodup G.
  assert (Huniq : unique_targets t) by apply unique_targets_run_binds.
  destruct (first_pressed_is_shortcut_for_tool t msg i shortcut tool Huniq Hfind Htarget)
    as [Hget Hpressed].
  assert (HG : tool ∈ G).
  { apply list_elem_of_filter. done. }
  assert (HndG : NoDup G) by (by apply NoDup_filter).
  unfold manager_msg_proc_keypressed. rewrite Hfind, Htarget.
  rewrite (collect_group_Some t msg tools_list Hall). fold (tool_group t msg). fold G.
  eexists. split; [reflexivity|]. split; [done|]. split_and!.
  - intros Hlen. rewrite decide_False by lia.
    destruct G as [|g [|g' G']]; cbn in Hlen; try lia.
    apply list_elem_of_singleton in HG. by subst.
  - intros k next Hk Hnext.
    assert (S k < length G)%nat by (by eapply lookup_lt_Some).
    rewrite decide_True by lia.
    by rewrite (next_in_group_lookup current_tool G k next).
  - intros Hcur. case_decide; [|done].
    destruct Hcur as [Hnin|Hlast].
    + by rewrite next_in_group_not_elem.
    + by rewrite next_in_group_last.
  - intros Horder.
    destruct (G !! 0%nat) as [g0|] eqn:Hg0.
    2:{ apply lookup_ge_None in Hg0. destruct G; [by apply elem_of_nil in HG|cbn in Hg0; lia]. }
    apply filter_first_lookup in Hg0 as (p0 & Hp0 & Hg0 & Hleast).
    apply list_elem_of_lookup in Htool as [p Hp].
    destruct (decide (p < p0)%nat) as [Hlt|Hge].
    { exfalso. by apply (Hleast p tool). }
    destruct (decide (p0 < p)%nat) as [Hlt|Hge'].
    { exfalso. unfold tool_pressed in Hg0.
      destruct (get_keyboard_shortcut_for_tool g0 t) as [[i0 s0]|] eqn:Hget0; [|done].
      pose proof Hget0 as (Hi0 & Hs0%is_shortcut_for_tool_spec & _)%list_find_Some.
      apply list_find_Some in Hfind as (Hi & _ & Hfirst).
      assert (i0 < i)%nat by (eapply (Horder i0 i s0 shortcut p0 p); eauto).
      by apply (Hfirst i0 s0). }
    assert (p0 = p) as -> by lia. congruence.
Qed.

End key_handler_claims.

(** Two tools bound to the same chord in the order of [tools_list], the
    first being current: the key selects the second. *)
Lemma change_tool_advances_witness :
  let t := @run_binds sample_collaborators
             [bind_tool "N" 10%nat; bind_tool "N" 20%nat] empty_table in
  @tool_group sample_collaborators t key_N = [10%nat; 20%nat] /\
  @manager_msg_proc_keypressed sample_collaborators t 10%nat [] None key_N =
    Returned (Some (select_tool 20%nat)) false.
Proof.
  intros t. split; [reflexivity|].
  destruct (@change_tool_cycles_through_group sample_collaborators
              [bind_tool "N" 10%nat; bind_tool "N" 20%nat] 10%nat [] None key_N
              0%nat {| accel := 0%nat; target := Shortcut_ChangeTool 10%nat |} 10%nat)
    as (selected & Hr & _ & _ & Hnext & _).
  - reflexivity.
  - reflexivity.
  - intros tl Htl. apply elem_of_cons in Htl as [->|Htl]; [vm_compute; eauto|].
    apply elem_of_cons in Htl as [->|Htl]; [vm_compute; eauto|].
    by apply elem_of_nil in Htl.
  - apply elem_of_cons. by left.
  - apply (bool_decide_unpack _). vm_compute. exact I.
  - fold t in Hr. rewrite Hr. by rewrite (Hnext 0%nat 20%nat eq_refl eq_refl).
Defined.

(** C1 as stated fails when the tool shortcuts were not bound in the order
    of [tools_list]: with the group [10; 20] and the current tool last in
    the group, or outside it, the handler selects tool 20, the tool of the
    first matching shortcut, and not the first tool of the group. *)
Lemma change_tool_fallback_is_not_group_head :
  let t := @run_binds sample_collaborators
             [bind_tool "N" 20%nat; bind_tool "N" 10%nat] empty_table in
  @tool_group sample_collaborators t key_N = [10%nat; 20%nat] /\
  @manager_msg_proc_keypressed sample_collaborators t 20%nat [] None key_N =
    Returned (Some (select_tool 20%nat)) false /\
  @manager_msg_proc_keypressed sample_collaborators t 30%nat [] None key_N =
    Returned (Some (select_tool 20%nat)) false.
Proof. vm_compute. split_and!; reflexivity. Qed.

(** Only one of the two tools has a shortcut: the key that changes to it
    makes the handler dereference NULL. *)
Lemma change_tool_null_dereference_witness :
  let t := @run_binds sample_collaborators [bind_tool "N" 10%nat] empty_table in
  get_keyboard_shortcut_for_tool 20%nat t = None /\
  @manager_msg_proc_keypressed sample_collaborators t 10%nat [] None key_N = NullDereference.
Proof.
  intros t. split; [reflexivity|].
  apply (@change_tool_dereferences_every_tool_shortcut sample_collaborators
           t 10%nat [] None key_N
           0%nat {| accel := 0%nat; target := Shortcut_ChangeTool 10%nat |} 10%nat
           eq_refl eq_refl).
  exists 20%nat. split; [|reflexivity].
  apply elem_of_cons. right. apply elem_of_cons. by left.
Defined.

(** The desktop window alone, being the top window: the command runs. *)
Lemma execute_command_on_desktop_witness :
  let t := @run_binds sample_collaborators
             [bind_command "Ctrl+N" "new_file" None] empty_table in
  @manager_msg_proc_keypressed sample_collaborators t 10%nat
    [desktop_window] (Some 1%nat) key_Ctrl_N =
  Returned (Some (execute_command cmd_new_file ∅)) true.
Proof.
  intros t.
  destruct (@execute_command_is_gated_by_focus sample_collaborators
              t 10%nat [desktop_window] (Some 1%nat) key_Ctrl_N
              0%nat {| accel := 0%nat;
                       target := Shortcut_ExecuteCommand (Some cmd_new_file) ∅ |}
              (Some cmd_new_file) ∅ eq_refl eq_refl) as [_ Hother].
  destruct Hother as (_ & _ & Hon_top & _); [discriminate|].
  apply Hon_top. split.
  - exists desktop_window. split_and!; [|reflexivity..]. apply elem_of_cons. by left.
  - by apply Forall_singleton.
Defined.

(** C3, at the input where the code breaks it.  After a chord is bound to a
    command name that the registry does not know, the first shortcut that
    a press of the chord matches is a [Shortcut_ExecuteCommand] shortcut
    whose command is NULL.  The handler reads [command->short_name()] from
    it and so dereferences the NULL pointer, with the desktop window on top
    as well as behind a dialog, where the claim has the command executed or
    not executed. *)
Theorem key_press_on_unregistered_command_dereferences_null :
  let t := @run_binds sample_collaborators [bind_command "N" "bogus" None] empty_table in
  @get_command_by_name sample_collaborators "bogus" = None /\
  list_find (fun s => is_key_pressed t s key_N = true) (shortcuts t) =
    Some (0%nat, {| accel := 0%nat; target := Shortcut_ExecuteCommand None ∅ |}) /\
  @manager_msg_proc_keypressed sample_collaborators t 10%nat
    [desktop_window] (Some 1%nat) key_N = NullDereference /\
  @manager_msg_proc_keypressed sample_collaborators t 10%nat
    [dialog_window; desktop_window] (Some 1%nat) key_N = NullDereference.
Proof. vm_compute. split_and!; reflexivity. Qed.

(** The scan of the children stops at the desktop window: when a
    foreground window stands after the desktop window in the list, the
    command is executed although a foreground window is among the children
    of the manager. *)
Lemma execute_command_despite_foreground_window :
  let t := @run_binds sample_collaborators
             [bind_command "Ctrl+N" "new_file" None] empty_table in
  let children := [desktop_window; dialog_window] in
  @manager_msg_proc_keypressed sample_collaborators t 10%nat
    children (Some 1%nat) key_Ctrl_N =
    Returned (Some (execute_command cmd_new_file ∅)) true /\
  short_name cmd_new_file <> @screen_shot sample_collaborators /\
  ~ Forall (fun w => is_foreground w = false) children.
Proof.
  split_and!.
  - vm_compute. reflexivity.
  - discriminate.
  - intros Hall. apply Forall_cons in Hall as [_ Hall].
    apply Forall_cons in Hall as [Hfg _]. discriminate.
Qed.

(** ** Idle flags *)

Lemma flag_set_testbit flags k :
  0 <= k -> flag_set flags (2 ^ k) = Z.testbit flags k.
Proof.
  intros Hk. unfold flag_set.
  assert (Hland : Z.land flags (2 ^ k) = if Z.testbit flags k then 2 ^ k else 0).
  { apply Z.bits_inj'. intros n Hn.
    rewrite Z.land_spec, Z.pow2_bits_eqb by done.
    destruct (Z.eqb_spec k n) as [->|Hne].
    - destruct (Z.testbit flags n) eqn:Hb; cbn.
      + by rewrite Z.pow2_bits_true.
      + by rewrite Z.bits_0.
    - rewrite andb_false_r. destruct (Z.testbit flags k).
      + by rewrite Z.pow2_bits_false.
      + by rewrite Z.bits_0. }
  rewrite Hland. destruct (Z.testbit flags k); [|done].
  assert (0 < 2 ^ k) by (by apply Z.pow_pos_nonneg).
  destruct (Z.eqb_spec (2 ^ k) 0); [lia|done].
Qed.

Lemma flag_set_REFRESH flags :
  flag_set flags REFRESH_FULL_SCREEN = Z.testbit flags 2.
Proof. by apply (flag_set_testbit flags 2). Qed.

Lemma flag_set_REBUILD flags :
  flag_set flags REBUILD_RECENT_LIST = Z.testbit flags 1.
Proof. by apply (flag_set_testbit flags 1). Qed.

Lemma testbit_lxor_REBUILD flags n :
  0 <= n -> Z.testbit (Z.lxor flags REBUILD_RECENT_LIST) n =
            xorb (Z.testbit flags n) (n =? 1).
Proof.
  intros Hn. rewrite Z.lxor_spec. f_equal.
  change REBUILD_RECENT_LIST with (2 ^ 1).
  rewrite (Z.pow2_bits_eqb 1 n) by done. apply Z.eqb_sym.
Qed.

Lemma testbit_lxor_REFRESH flags n :
  0 <= n -> Z.testbit (Z.lxor flags REFRESH_FULL_SCREEN) n =
            xorb (Z.testbit flags n) (n =? 2).
Proof.
  intros Hn. rewrite Z.lxor_spec. f_equal.
  change REFRESH_FULL_SCREEN with (2 ^ 2).
  rewrite (Z.pow2_bits_eqb 2 n) by done. apply Z.eqb_sym.
Qed.

(** The flags after an iteration. *)
Lemma fst_gui_feedback env flags :
  fst (gui_feedback env flags) =
  let flags1 :=
    if flag_set flags REBUILD_RECENT_LIST && recent_list_rebuilt env
    then Z.lxor flags REBUILD_RECENT_LIST else flags in
  if flag_set flags1 REFRESH_FULL_SCREEN
  then Z.lxor flags1 REFRESH_FULL_SCREEN else flags1.
Proof.
  unfold gui_feedback. fold (flag_set flags REBUILD_RECENT_LIST).
  destruct (flag_set flags REBUILD_RECENT_LIST), (recent_list_rebuilt env);
    cbn [negb andb];
    match goal with
    | |- context [negb (Z.land ?f REFRESH_FULL_SCREEN =? 0)] =>
        fold (flag_set f REFRESH_FULL_SCREEN);
        destruct (flag_set f REFRESH_FULL_SCREEN)
    end; reflexivity.
Qed.

(** The flags after an iteration, bit by bit. *)
Lemma gui_feedback_flags env flags n :
  0 <= n ->
  Z.testbit (fst (gui_feedback env flags)) n =
  if n =? 2 then false
  else if n =? 1 then Z.testbit flags 1 && negb (recent_list_rebuilt env)
  else Z.testbit flags n.
Proof.
  intros Hn. rewrite fst_gui_feedback. cbv zeta.
  rewrite flag_set_REBUILD.
  set (flags1 := if Z.testbit flags 1 && recent_list_rebuilt env
                 then Z.lxor flags REBUILD_RECENT_LIST else flags).
  assert (H1 : Z.testbit flags1 n =
               if n =? 1 then Z.testbit flags 1 && negb (recent_list_rebuilt env)
               else Z.testbit flags n).
  { subst flags1.
    destruct (Z.testbit flags 1) eqn:Hb1, (recent_list_rebuilt env); cbn [andb negb];
      rewrite ?testbit_lxor_REBUILD by done;
      destruct (Z.eqb_spec n 1) as [Hn1|Hn1]; rewrite ?Hn1, ?Hb1, ?xorb_false_r; done. }
  rewrite flag_set_REFRESH.
  destruct (Z.testbit flags1 2) eqn:Hb2.
  - rewrite testbit_lxor_REFRESH by done.
    destruct (Z.eqb_spec n 2) as [Hn2|Hn2].
    + by rewrite Hn2, Hb2.
    + by rewrite xorb_false_r.
  - destruct (Z.eqb_spec n 2) as [Hn2|Hn2]; [by rewrite Hn2|done].
Qed.

(** The steps of an iteration, by kind. *)
Lemma gui_feedback_steps env flags :
  let r := gui_feedback env flags in
  filter (fun s => is_refresh_pass s = true) (snd r) =
    (if flag_set flags REFRESH_FULL_SCREEN
     then [call_update_screen_for_sprite (current_sprite env)
             (update_screen_for_sprite env (current_sprite env))]
     else []) /\
  filter (fun s => is_rebuild_attempt s = true) (snd r) =
    (if flag_set flags REBUILD_RECENT_LIST
     then [app_realloc_recent_list (recent_list_rebuilt env)]
     else []) /\
  filter (fun s => is_store s = true) (snd r) =
    (if flag_set flags REBUILD_RECENT_LIST && recent_list_rebuilt env
     then [store_next_idle_flags (Z.lxor flags REBUILD_RECENT_LIST)]
     else []) ++
    (if flag_set flags REFRESH_FULL_SCREEN
     then [store_next_idle_flags (fst r)]
     else []).
Proof.
  cbv zeta. unfold gui_feedback.
  fold (flag_set flags REBUILD_RECENT_LIST).
  assert (Hx : flag_set (Z.lxor flags REBUILD_RECENT_LIST) REFRESH_FULL_SCREEN =
               flag_set flags REFRESH_FULL_SCREEN).
  { rewrite !flag_set_REFRESH, testbit_lxor_REBUILD by lia. apply xorb_false_r. }
  destruct (flag_set flags REBUILD_RECENT_LIST), (recent_list_rebuilt env); cbn [negb andb];
    match goal with
    | |- context [negb (Z.land ?f REFRESH_FULL_SCREEN =? 0)] =>
        fold (flag_set f REFRESH_FULL_SCREEN)
    end; rewrite ?Hx;
    destruct (flag_set flags REFRESH_FULL_SCREEN);
    destruct (double_buffering env), (dirty_region env), (same_screen_size env);
    split_and!; reflexivity.
Qed.

(** C5 (as amended).  In every iteration of [gui_feedback]:
    [REFRESH_FULL_SCREEN] is clear afterwards, and when it was observed set
    the iteration stores the flags with the bit cleared once and makes one
    call to [update_screen_for_sprite] with the current sprite;
    when [REBUILD_RECENT_LIST] is observed set the iteration calls
    [app_realloc_recent_list] once, and it clears the bit (with one store)
    exactly when that call reports success, otherwise the bit stays set for
    the next iteration; a bit that is not observed set causes no action and
    no store, and no other bit of the flags changes. *)
Theorem gui_feedback_drains_idle_flags env flags :
  let r := gui_feedback env flags in
  flag_set (fst r) REFRESH_FULL_SCREEN = false /\
  filter (fun s => is_refresh_pass s = true) (snd r) =
    (if flag_set flags REFRESH_FULL_SCREEN
     then [call_update_screen_for_sprite (current_sprite env)
             (update_screen_for_sprite env (current_sprite env))]
     else []) /\
  flag_set (fst r) REBUILD_RECENT_LIST =
    flag_set flags REBUILD_RECENT_LIST && negb (recent_list_rebuilt env) /\
  filter (fun s => is_rebuild_attempt s = true) (snd r) =
    (if flag_set flags REBUILD_RECENT_LIST
     then [app_realloc_recent_list (recent_list_rebuilt env)]
     else []) /\
  filter (fun s => is_store s = true) (snd r) =
    (if flag_set flags REBUILD_RECENT_LIST && recent_list_rebuilt env
     then [store_next_idle_flags (Z.lxor flags REBUILD_RECENT_LIST)]
     else []) ++
    (if flag_set flags REFRESH_FULL_SCREEN
     then [store_next_idle_flags (fst r)]
     else []) /\
  (flag_set flags REBUILD_RECENT_LIST = true ->
   flag_set (Z.lxor flags REBUILD_RECENT_LIST) REBUILD_RECENT_LIST = false) /\
  (forall n, 0 <= n -> n <> 1 -> n <> 2 ->
             Z.testbit (fst r) n = Z.testbit flags n).
Proof.
  intros r. destruct (gui_feedback_steps env flags) as (Hrefresh & Hrebuild & Hstore).
  fold r in Hrefresh, Hrebuild, Hstore. subst r.
  split_and!; try done.
  - by rewrite flag_set_REFRESH, gui_feedback_flags.
  - by rewrite !flag_set_REBUILD, gui_feedback_flags.
  - rewrite !flag_set_REBUILD, testbit_lxor_REBUILD by done. by intros ->.
  - intros n Hn Hn1 Hn2. rewrite gui_feedback_flags by done.
    destruct (Z.eqb_spec n 2); [done|]. by destruct (Z.eqb_spec n 1).
Qed.

(** Both bits set while the recent-list menu cannot be rebuilt. *)
Lemma gui_feedback_drains_witness :
  flag_set (fst (gui_feedback sample_env 6)) REFRESH_FULL_SCREEN = false /\
  flag_set (fst (gui_feedback sample_env 6)) REBUILD_RECENT_LIST = true.
Proof.
  pose proof (gui_feedback_drains_idle_flags sample_env 6) as (H1 & _ & H2 & _).
  exact (conj H1 H2).
Defined.

(** C5 as stated fails for [REBUILD_RECENT_LIST] when
    [app_realloc_recent_list] reports that the list was not rebuilt: the
    bit is observed set and is still set after the iteration, and nothing
    is stored to the flags. *)
Lemma rebuild_flag_stays_set_when_not_rebuilt :
  flag_set 2 REBUILD_RECENT_LIST = true /\
  gui_feedback sample_env 2 = (2, [app_realloc_recent_list false; rec_screen_poll]) /\
  flag_set (fst (gui_feedback sample_env 2)) REBUILD_RECENT_LIST = true.
Proof. vm_compute. split_and!; reflexivity. Qed.

(** The callback between two iterations.  When
    [display_switch_in_callback] has set [REFRESH_FULL_SCREEN] before
    [gui_feedback] starts, whatever the flags were, the iteration makes
    exactly one call to [update_screen_for_sprite], with the current
    sprite, and leaves the flag clear, so that a following iteration makes
    none; in GUI mode a call without sprite sets the default palette, a
    call with a sprite sets the palette of the sprite. *)
Theorem refresh_flag_causes_one_refresh_pass env env' flags :
  let r := gui_feedback env (display_switch_in_callback flags) in
  filter (fun s => is_refresh_pass s = true) (snd r) =
    [call_update_screen_for_sprite (current_sprite env)
       (update_screen_for_sprite env (current_sprite env))] /\
  flag_set (fst r) REFRESH_FULL_SCREEN = false /\
  filter (fun s => is_refresh_pass s = true) (snd (gui_feedback env' (fst r))) = [] /\
  update_screen_for_sprite env None =
    (if mode_gui env
     then set_current_palette None ::
          (if palette_changed env then [jmanager_refresh_screen] else []) ++
          [statusbar_set_text_empty]
     else []) /\
  (forall sp, update_screen_for_sprite env (Some sp) =
    if mode_gui env
    then set_current_palette (Some (sprite_palette sp)) ::
         (if palette_changed env then [jmanager_refresh_screen]
          else [update_editors_with_sprite sp]) ++
         [statusbar_set_text_empty]
    else []).
Proof.
  intros r.
  assert (Hset : flag_set (display_switch_in_callback flags) REFRESH_FULL_SCREEN = true).
  { rewrite flag_set_REFRESH. unfold display_switch_in_callback.
    rewrite Z.lor_spec. apply orb_true_r. }
  assert (Hclear : flag_set (fst r) REFRESH_FULL_SCREEN = false).
  { subst r. by rewrite flag_set_REFRESH, gui_feedback_flags. }
  pose proof (gui_feedback_steps env (display_switch_in_callback flags)) as (Hpass & _).
  fold r in Hpass. rewrite Hset in Hpass.
  pose proof (gui_feedback_steps env' (fst r)) as (Hnext & _).
  rewrite Hclear in Hnext.
  split_and!; try done.
  - unfold update_screen_for_sprite. by destruct (mode_gui env).
  - intros sp. unfold update_screen_for_sprite. by destruct (mode_gui env).
Qed.

(** *** The callback inside [gui_feedback] *)

Lemma test_REBUILD v :
  negb (Z.land v REBUILD_RECENT_LIST =? 0) = Z.testbit v 1.
Proof. apply flag_set_REBUILD. Qed.

Lemma test_REFRESH v :
  negb (Z.land v REFRESH_FULL_SCREEN =? 0) = Z.testbit v 2.
Proof. apply flag_set_REFRESH. Qed.

Lemma testbit_callback v n :
  0 <= n -> Z.testbit (display_switch_in_callback v) n = Z.testbit v n || (n =? 2).
Proof.
  intros Hn. unfold display_switch_in_callback. rewrite Z.lor_spec. f_equal.
  change REFRESH_FULL_SCREEN with (2 ^ 2).
  rewrite (Z.pow2_bits_eqb 2 n) by done. apply Z.eqb_sym.
Qed.

(** Without the callback the steps are those of [gui_feedback]. *)
Lemma gui_feedback_async_without_callback env flags :
  gui_feedback_async env [] flags =
  (at_return, fst (gui_feedback env flags), main_step <$> snd (gui_feedback env flags)).
Proof.
  unfold gui_feedback_async, gui_feedback.
  cbn [run_feedback feedback_step head tail default from_option id].
  destruct (negb (Z.land flags REBUILD_RECENT_LIST =? 0));
    cbn [run_feedback feedback_step head tail default from_option id];
    [destruct (recent_list_rebuilt env);
     cbn [run_feedback feedback_step head tail default from_option id]|];
    match goal with
    | |- context [negb (Z.land ?f REFRESH_FULL_SCREEN =? 0)] =>
        destruct (negb (Z.land f REFRESH_FULL_SCREEN =? 0))
    end;
    cbn [run_feedback feedback_step head tail default from_option id];
    destruct (double_buffering env), (dirty_region env), (same_screen_size env);
    reflexivity.
Qed.

Ltac feedback_run H1 H2 :=
  repeat (progress (
    cbn [run_feedback feedback_step head tail default from_option id
         callback_before replicate app fmap list_fmap fst snd];
    rewrite ?test_REBUILD, ?test_REFRESH;
    rewrite ?testbit_lxor_REBUILD, ?testbit_lxor_REFRESH, ?testbit_callback by lia;
    rewrite ?H1, ?H2;
    cbn [Z.eqb Pos.eqb orb xorb negb andb])).

(** The callback lost.  When the rebuild of the recent list is pending and
    succeeds, and the callback runs between the read and the write of
    [next_idle_flags ^= REBUILD_RECENT_LIST], the write puts back the value
    read before the callback: [REFRESH_FULL_SCREEN] is clear after the
    call, no refresh pass was made after the callback, and the next
    iteration makes none. *)
Lemma refresh_request_lost env env' flags :
  lands_in_rebuild_update env flags 3 ->
  flag_set flags REFRESH_FULL_SCREEN = false ->
  let r := gui_feedback_async env (callback_before 3) flags in
  r.1.1 = at_return /\
  callback_ran ∈ r.2 /\
  refreshed_after_callback r.2 = false /\
  flag_set r.1.2 REFRESH_FULL_SCREEN = false /\
  filter (fun s => is_refresh_pass s = true) (snd (gui_feedback env' r.1.2)) = [].
Proof.
  intros (_ & H1 & Hok) H2. rewrite flag_set_REBUILD in H1. rewrite flag_set_REFRESH in H2.
  intros r.
  assert (Hr : r = (at_return, Z.lxor flags REBUILD_RECENT_LIST,
                    main_step (app_realloc_recent_list true) :: callback_ran ::
                    main_step (store_next_idle_flags (Z.lxor flags REBUILD_RECENT_LIST)) ::
                    (main_step <$>
                       rec_screen_poll ::
                       (if double_buffering env then
                          jmouse_draw_cursor ::
                          (if dirty_region env then [ji_flip_dirty_region]
                           else if same_screen_size env then [blit_screen]
                                else [stretch_blit_screen])
                        else [])))).
  { subst r. unfold gui_feedback_async. feedback_run H1 H2. rewrite Hok.
    feedback_run H1 H2.
    by destruct (double_buffering env), (dirty_region env), (same_screen_size env). }
  rewrite Hr. cbn [fst snd].
  assert (Hclear : flag_set (Z.lxor flags REBUILD_RECENT_LIST) REFRESH_FULL_SCREEN = false).
  { rewrite flag_set_REFRESH, testbit_lxor_REBUILD by lia. by rewrite H2. }
  split_and!.
  - done.
  - apply elem_of_cons. right. apply elem_of_cons. by left.
  - cbn [refreshed_after_callback existsb is_refresh_step is_refresh_pass orb].
    by destruct (double_buffering env), (dirty_region env), (same_screen_size env).
  - done.
  - destruct (gui_feedback_steps env' (Z.lxor flags REBUILD_RECENT_LIST)) as (Hpass & _).
    by rewrite Hpass, Hclear.
Qed.

(** Everywhere else the callback is served.  When the callback runs once
    during a call of [gui_feedback], before any of its steps or after its
    return, and not between the read and the write of
    [next_idle_flags ^= REBUILD_RECENT_LIST], then a refresh pass is made
    after the callback in that call, or [REFRESH_FULL_SCREEN] is set when
    the call returns and the next iteration makes exactly one refresh pass;
    the flag is clear after the next iteration. *)
Theorem refresh_request_is_served env env' flags k :
  (k < 9)%nat -> ~ lands_in_rebuild_update env flags k ->
  let r := gui_feedback_async env (callback_before k) flags in
  r.1.1 = at_return /\
  callback_ran ∈ r.2 /\
  (refreshed_after_callback r.2 = true \/
   flag_set r.1.2 REFRESH_FULL_SCREEN = true /\
   filter (fun s => is_refresh_pass s = true) (snd (gui_feedback env' r.1.2)) =
     [call_update_screen_for_sprite (current_sprite env')
        (update_screen_for_sprite env' (current_sprite env'))]) /\
  flag_set (fst (gui_feedback env' r.1.2)) REFRESH_FULL_SCREEN = false.
Proof.
  intros Hk Hout r.
  assert (Hlast : flag_set (fst (gui_feedback env' r.1.2)) REFRESH_FULL_SCREEN = false).
  { by rewrite flag_set_REFRESH, gui_feedback_flags. }
  assert (Hnext : flag_set r.1.2 REFRESH_FULL_SCREEN = true ->
    filter (fun s => is_refresh_pass s = true) (snd (gui_feedback env' r.1.2)) =
      [call_update_screen_for_sprite (current_sprite env')
         (update_screen_for_sprite env' (current_sprite env'))]).
  { intros Hset. destruct (gui_feedback_steps env' r.1.2) as (Hpass & _).
    by rewrite Hpass, Hset. }
  enough (r.1.1 = at_return /\ callback_ran ∈ r.2 /\
          (refreshed_after_callback r.2 = true \/
           flag_set r.1.2 REFRESH_FULL_SCREEN = true)) as (? & ? & [?|?]).
  { split_and!; auto. }
  { split_and!; auto. }
  clear Hlast Hnext. subst r.
  unfold lands_in_rebuild_update in Hout. rewrite flag_set_REBUILD in Hout.
  destruct (Z.testbit flags 1) eqn:H1, (Z.testbit flags 2) eqn:H2,
    (recent_list_rebuilt env) eqn:Hok.
  all: destruct k as [|[|[|[|[|[|[|[|[|k]]]]]]]]]; [..|lia].
  all: try (exfalso; apply Hout; by split_and!).
  all: unfold gui_feedback_async; feedback_run H1 H2; rewrite ?Hok;
    feedback_run H1 H2; rewrite ?flag_set_REFRESH;
    rewrite ?testbit_lxor_REBUILD, ?testbit_lxor_REFRESH, ?testbit_callback by lia;
    rewrite ?H1, ?H2;
    cbn [refreshed_after_callback existsb is_refresh_step is_refresh_pass orb xorb
         Z.eqb Pos.eqb negb];
    (split; [reflexivity|]); (split; [|auto]);
    repeat (rewrite elem_of_cons || rewrite elem_of_app); auto 20.
  all: try (right; apply orb_true_r).
Qed.

(** The callback between the read and the write of
    [next_idle_flags ^= REFRESH_FULL_SCREEN], in an iteration that also
    rebuilds the recent list. *)
Lemma refresh_request_is_served_witness :
  let r := gui_feedback_async sample_env_rebuilt (callback_before 6) 6 in
  r.1.1 = at_return /\
  callback_ran ∈ r.2 /\
  (refreshed_after_callback r.2 = true \/
   flag_set r.1.2 REFRESH_FULL_SCREEN = true /\
   filter (fun s => is_refresh_pass s = true) (snd (gui_feedback sample_env r.1.2)) =
     [call_update_screen_for_sprite (current_sprite sample_env)
        (update_screen_for_sprite sample_env (current_sprite sample_env))]) /\
  flag_set (fst (gui_feedback sample_env r.1.2)) REFRESH_FULL_SCREEN = false.
Proof.
  apply (refresh_request_is_served sample_env_rebuilt sample_env 6 6).
  - lia.
  - intros [Hk _]. discriminate Hk.
Defined.

(** C8, at the input where the code breaks it.  The rebuild of the recent
    list is pending and [app_realloc_recent_list] succeeds; the display is
    switched in, and the callback sets [REFRESH_FULL_SCREEN], after
    [gui_feedback] has read [next_idle_flags] for
    [next_idle_flags ^= REBUILD_RECENT_LIST] and before it writes the
    result.  The write puts back the value computed from the flags read
    before the callback: the bit that the callback set is lost, this call
    of [gui_feedback] makes no refresh pass, the flags are 0 after it, and
    the next iteration makes no refresh pass either. *)
Theorem display_switch_inside_rebuild_update_is_lost :
  let fires := [false; false; false; true] in
  gui_feedback_async sample_env_rebuilt fires REBUILD_RECENT_LIST =
    (at_return, 0,
     [main_step (app_realloc_recent_list true); callback_ran;
      main_step (store_next_idle_flags 0); main_step rec_screen_poll]) /\
  gui_feedback sample_env_rebuilt 0 = (0, [rec_screen_poll]) /\
  gui_feedback_async sample_env_rebuilt [] REBUILD_RECENT_LIST =
    (at_return, 0,
     [main_step (app_realloc_recent_list true);
      main_step (store_next_idle_flags 0); main_step rec_screen_poll]) /\
  display_switch_in_callback 0 = REFRESH_FULL_SCREEN.
Proof. vm_compute. split_and!; reflexivity. Qed.

(** ** Loading widgets *)

Section widget_claims.
Context `{WidgetHost}.


End widget_claims.



(** ** Monitors *)

(** Induction on calls, with the calls of the callbacks of a timer message
    as sub-calls. *)
Lemma Call_nested_ind (P : Call -> Prop) :
  (forall has_free, P (call_add_gui_monitor has_free)) ->
  (forall monitor, P (call_remove_gui_monitor monitor)) ->
  (forall procs, Forall (Forall P) procs -> P (call_timer_message procs)) ->
  forall c, P c.
Proof.
  intros Hadd Hremove Htimer.
  fix IH 1. intros [has_free|monitor|procs].
  - apply Hadd.
  - apply Hremove.
  - apply Htimer.
    induction procs as [|proc procs IHprocs]; constructor; [|exact IHprocs].
    induction proc as [|c proc IHproc]; constructor; [apply IH|exact IHproc].
Qed.

Lemma run_calls_cons c cs g : run_calls (c :: cs) g = run_calls cs (run_call c g).
Proof. reflexivity. Qed.

Lemma run_calls_snoc cs c g : run_calls (cs ++ [c]) g = run_call c (run_calls cs g).
Proof. unfold run_calls. by rewrite foldl_snoc. Qed.

Lemma run_call_timer_message procs g :
  run_call (call_timer_message procs) g =
  if crashed g then g
  else if monitor_timer g <? 0 then g
  else stop_timer_if_empty (timer_loop run_call procs (head (monitors g)) g).
Proof. reflexivity. Qed.

Lemma timer_loop_cons proc procs monitor g :
  timer_loop run_call (proc :: procs) (Some monitor) g =
  if crashed g then g
  else if bool_decide (monitor ∈ monitors g) then
    timer_loop run_call procs (successor monitor (monitors g))
      (poll_monitor (run_calls proc) monitor g)
  else set_crash invalid_iterator g.
Proof. reflexivity. Qed.

Lemma timer_loop_nil monitor g :
  timer_loop run_call [] (Some monitor) g =
  if crashed g then g
  else if bool_decide (monitor ∈ monitors g) then
    poll_remaining (suffix_from monitor (monitors g)) g
  else set_crash invalid_iterator g.
Proof. reflexivity. Qed.

Lemma timer_loop_end procs g : timer_loop run_call procs None g = g.
Proof. by destruct procs. Qed.

(** *** The timer follows the list of monitors *)

Lemma timer_kept_refl g : timer_inv g -> timer_kept g g.
Proof. by split. Qed.

Lemma timer_kept_trans g1 g2 g3 :
  timer_kept g1 g2 -> timer_kept g2 g3 -> timer_kept g1 g3.
Proof.
  intros [Hinv2 Hid2] [Hinv3 Hid3]. split; [done|].
  intros Hpos. rewrite Hid3; [by apply Hid2|]. rewrite Hid2; done.
Qed.

(** Steps that touch neither the list nor the timers. *)
Lemma timer_kept_same_view g g' :
  monitors g' = monitors g -> monitor_timer g' = monitor_timer g ->
  timers g' = timers g -> timer_inv g -> timer_kept g g'.
Proof.
  intros Hm Ht Hts (H1 & H2 & H3). split; [|done].
  unfold timer_inv, timer_running in *. rewrite Hm, Ht, Hts. done.
Qed.

Lemma delete_monitor_view m g :
  monitors (delete_monitor m g) = monitors g /\
  monitor_timer (delete_monitor m g) = monitor_timer g /\
  timers (delete_monitor m g) = timers g /\
  crash (delete_monitor m g) = crash g.
Proof. unfold delete_monitor. by destruct (objects g !! m). Qed.

Lemma timer_running_start g :
  0 <= monitor_timer g -> (Z.to_nat (monitor_timer g) < length (timers g))%nat ->
  timer_running (jmanager_start_timer (monitor_timer g) g) = true.
Proof.
  intros Hpos Hlt. unfold timer_running, jmanager_start_timer.
  destruct (Z.ltb_spec (monitor_timer g) 0); [lia|]. cbn.
  destruct (Z.ltb_spec (monitor_timer g) 0); [lia|].
  by rewrite list_lookup_insert_eq.
Qed.

Lemma timer_running_stop g :
  timer_running (jmanager_stop_timer (monitor_timer g) g) = false.
Proof.
  unfold timer_running, jmanager_stop_timer.
  destruct (Z.ltb_spec (monitor_timer g) 0) as [Hneg|Hpos].
  - by destruct (Z.ltb_spec (monitor_timer g) 0); [|lia].
  - cbn. destruct (Z.ltb_spec (monitor_timer g) 0); [lia|].
    destruct (decide (Z.to_nat (monitor_timer g) < length (timers g))%nat).
    + by rewrite list_lookup_insert_eq.
    + rewrite list_insert_ge by lia. by rewrite lookup_ge_None_2 by lia.
Qed.

(** The state after [add_gui_monitor], field by field. *)
Lemma add_gui_monitor_fields has_free g :
  let g' := snd (add_gui_monitor has_free g) in
  fst (add_gui_monitor has_free g) = next_object g /\
  objects g' = <[next_object g := {| free := has_free; lock := false; deleted := false |}]>
                 (objects g) /\
  next_object g' = S (next_object g) /\
  monitors g' = monitors g ++ [next_object g] /\
  monitor_timer g' =
    (if monitor_timer g <? 0 then Z.of_nat (length (timers g)) else monitor_timer g) /\
  timers g' =
    <[Z.to_nat (monitor_timer g') := true]>
      (if monitor_timer g <? 0 then timers g ++ [false] else timers g) /\
  log g' = log g ++ [ev_added (next_object g) has_free] /\
  crash g' = crash g.
Proof.
  unfold add_gui_monitor. cbn [monitor_timer].
  destruct (Z.ltb_spec (monitor_timer g) 0) as [Hneg|Hpos].
  - cbn [jmanager_add_timer set_timers fst snd monitors timers monitor_timer
         objects next_object log crash].
    unfold jmanager_start_timer. cbn [monitor_timer].
    destruct (Z.ltb_spec (Z.of_nat (length (timers g))) 0); [lia|]. done.
  - unfold jmanager_start_timer. cbn [monitor_timer].
    destruct (Z.ltb_spec (monitor_timer g) 0); [lia|]. done.
Qed.

Lemma timer_kept_add has_free g :
  timer_inv g -> timer_kept g (snd (add_gui_monitor has_free g)).
Proof.
  intros (Hnone & Halloc & Hrun).
  destruct (add_gui_monitor_fields has_free g) as (_ & _ & _ & Hms & Hid & Hts & _).
  cbv zeta in *. set (g' := snd (add_gui_monitor has_free g)) in *.
  assert (Hpos : 0 <= monitor_timer g').
  { rewrite Hid. destruct (Z.ltb_spec (monitor_timer g) 0); lia. }
  assert (Hlt : (Z.to_nat (monitor_timer g') < length (timers g'))%nat).
  { rewrite Hts, length_insert, Hid.
    destruct (Z.ltb_spec (monitor_timer g) 0).
    - rewrite Nat2Z.id, length_app. cbn. lia.
    - by apply Halloc. }
  split.
  - split_and!; [lia|done|].
    unfold timer_running. destruct (Z.ltb_spec (monitor_timer g') 0); [lia|].
    rewrite Hts, list_lookup_insert_eq by (by rewrite Hts, length_insert in Hlt).
    symmetry. apply bool_decide_eq_true. rewrite Hms. by destruct (monitors g).
  - intros Hpos0. rewrite Hid. by destruct (Z.ltb_spec (monitor_timer g) 0); [lia|].
Qed.

(** The state after a [remove_gui_monitor] that passes its [assert], field
    by field. *)
Lemma remove_gui_monitor_fields m g it x :
  list_find (fun y => y = m) (monitors g) = Some (it, x) ->
  let g' := remove_gui_monitor m g in
  objects g' =
    (if is_locked m g
     then alter (fun mon => {| free := free mon; lock := lock mon; deleted := true |})
            m (objects g)
     else delete m (objects g)) /\
  next_object g' = next_object g /\
  monitors g' = delete it (monitors g) /\
  monitor_timer g' = monitor_timer g /\
  timers g' =
    (if bool_decide (delete it (monitors g) = []) then
       if monitor_timer g <? 0 then timers g
       else <[Z.to_nat (monitor_timer g) := false]> (timers g)
     else timers g) /\
  log g' =
    log g ++ ev_remove_requested m ::
      (if is_locked m g then []
       else match objects g !! m with
            | Some mon => [ev_deleted m (free mon)]
            | None => []
            end) /\
  crash g' = crash g.
Proof.
  intros Hfind. unfold remove_gui_monitor. rewrite Hfind.
  change (is_locked m (log_event (ev_remove_requested m) g)) with (is_locked m g).
  unfold is_locked, delete_monitor, set_deleted.
  cbn [objects log_event set_objects].
  destruct (objects g !! m) as [mon|] eqn:Hobj; [destruct (lock mon)|];
    cbn [negb monitors set_monitors set_objects log_event monitor_timer];
    (destruct (bool_decide (delete it (monitors g) = [])); unfold jmanager_stop_timer;
     cbn [monitor_timer]; [destruct (monitor_timer g <? 0)|];
     cbn; rewrite <- ?app_assoc; split_and!; try reflexivity).
  all: by rewrite delete_id.
Qed.

Lemma remove_gui_monitor_crash m g :
  list_find (fun y => y = m) (monitors g) = None ->
  remove_gui_monitor m g = set_crash assertion_failed g.
Proof. intros Hfind. unfold remove_gui_monitor. by rewrite Hfind. Qed.

Lemma timer_kept_remove m g :
  timer_inv g -> timer_kept g (remove_gui_monitor m g).
Proof.
  intros Hinv.
  destruct (list_find (fun y => y = m) (monitors g)) as [[it x]|] eqn:Hfind.
  - destruct (remove_gui_monitor_fields m g it x Hfind) as (_ & _ & Hms & Hid & Hts & _).
    cbv zeta in *. set (g' := remove_gui_monitor m g) in *.
    destruct Hinv as (Hnone & Halloc & Hrun).
    assert (Hne : monitors g <> []).
    { apply list_find_Some in Hfind as (Hit & _). intros Hnil. by rewrite Hnil in Hit. }
    assert (Hpos : 0 <= monitor_timer g).
    { destruct (Z.ltb_spec (monitor_timer g) 0); [|done]. by destruct Hne; apply Hnone. }
    split; [|done]. split_and!.
    + rewrite Hid. lia.
    + intros _. rewrite Hid, Hts.
      destruct (bool_decide (delete it (monitors g) = [])); [|by apply Halloc].
      destruct (Z.ltb_spec (monitor_timer g) 0); [lia|].
      rewrite length_insert. by apply Halloc.
    + unfold timer_running. rewrite Hid, Hts, Hms.
      destruct (Z.ltb_spec (monitor_timer g) 0); [lia|].
      destruct (decide (delete it (monitors g) = [])) as [Hempty|Hempty].
      * rewrite (bool_decide_eq_true_2 _ Hempty).
        rewrite list_lookup_insert_eq by (by apply Halloc).
        symmetry. apply bool_decide_eq_false. by intros [].
      * rewrite (bool_decide_eq_false_2 _ Hempty).
        unfold timer_running in Hrun.
        destruct (Z.ltb_spec (monitor_timer g) 0); [lia|].
        rewrite Hrun, (bool_decide_eq_true_2 _ Hne).
        symmetry. by apply bool_decide_eq_true.
  - rewrite remove_gui_monitor_crash by done. by apply timer_kept_same_view.
Qed.

Lemma timer_kept_poll_monitor proc m g :
  (forall g0, timer_inv g0 -> timer_kept g0 (proc g0)) ->
  timer_inv g -> timer_kept g (poll_monitor proc m g).
Proof.
  intros Hproc Hinv. unfold poll_monitor.
  destruct (is_locked m g); cbn [negb]; [by apply timer_kept_refl|].
  set (g1 := log_event (ev_proc_called m) (set_lock m true g)).
  assert (H1 : timer_kept g g1) by (by apply timer_kept_same_view).
  assert (H2 : timer_kept g1 (proc g1)) by (apply Hproc, H1).
  destruct (crashed (proc g1)); [exact (timer_kept_trans _ _ _ H1 H2)|].
  set (g3 := log_event (ev_proc_returned m) (set_lock m false (proc g1))).
  assert (H3 : timer_kept (proc g1) g3) by (apply timer_kept_same_view; [done..|apply H2]).
  destruct (is_deleted m g3).
  - destruct (delete_monitor_view m g3) as (? & ? & ? & _).
    eapply timer_kept_trans; [exact H1|]. eapply timer_kept_trans; [exact H2|].
    eapply timer_kept_trans; [exact H3|]. apply timer_kept_same_view; [done..|apply H3].
  - eapply timer_kept_trans; [exact H1|]. exact (timer_kept_trans _ _ _ H2 H3).
Qed.

Lemma timer_kept_poll_remaining l g :
  timer_inv g -> timer_kept g (poll_remaining l g).
Proof.
  revert g. induction l as [|m l IH]; intros g Hinv; cbn [poll_remaining].
  - by apply timer_kept_refl.
  - assert (H1 : timer_kept g (poll_monitor (fun g => g) m g)).
    { apply timer_kept_poll_monitor; [|done]. intros. by apply timer_kept_refl. }
    eapply timer_kept_trans; [exact H1|]. apply IH, H1.
Qed.

Lemma timer_kept_run_calls cs g :
  Forall (fun c => forall g0, timer_inv g0 -> timer_kept g0 (run_call c g0)) cs ->
  timer_inv g -> timer_kept g (run_calls cs g).
Proof.
  intros Hcs. revert g. induction Hcs as [|c cs Hc Hcs IH]; intros g Hinv.
  - by apply timer_kept_refl.
  - rewrite run_calls_cons. eapply timer_kept_trans; [by apply Hc|]. apply IH, Hc, Hinv.
Qed.

Lemma timer_kept_timer_loop procs it g :
  Forall (Forall (fun c => forall g0, timer_inv g0 -> timer_kept g0 (run_call c g0))) procs ->
  timer_inv g -> timer_kept g (timer_loop run_call procs it g).
Proof.
  intros Hprocs. revert it g.
  induction Hprocs as [|proc procs Hproc Hprocs IH]; intros [m|] g Hinv;
    rewrite ?timer_loop_end, ?timer_loop_nil, ?timer_loop_cons;
    try (by apply timer_kept_refl).
  - destruct (crashed g); [by apply timer_kept_refl|].
    case_bool_decide.
    + by apply timer_kept_poll_remaining.
    + by apply timer_kept_same_view.
  - destruct (crashed g); [by apply timer_kept_refl|].
    case_bool_decide; [|by apply timer_kept_same_view].
    assert (H1 : timer_kept g (poll_monitor (run_calls proc) m g)).
    { apply timer_kept_poll_monitor; [|done]. intros g0. by apply timer_kept_run_calls. }
    eapply timer_kept_trans; [exact H1|]. apply IH, H1.
Qed.

Lemma timer_kept_stop_if_empty g :
  timer_inv g -> timer_kept g (stop_timer_if_empty g).
Proof.
  intros Hinv. unfold stop_timer_if_empty.
  destruct (crashed g); [by apply timer_kept_refl|].
  case_bool_decide as Hempty; [|by apply timer_kept_refl].
  destruct Hinv as (Hnone & Halloc & Hrun).
  assert (Hview : monitors (jmanager_stop_timer (monitor_timer g) g) = monitors g /\
                  monitor_timer (jmanager_stop_timer (monitor_timer g) g) = monitor_timer g).
  { unfold jmanager_stop_timer. by destruct (monitor_timer g <? 0). }
  destruct Hview as [Hms Hid]. split; [|done]. split_and!.
  - by rewrite Hms.
  - rewrite Hid. intros Hpos. unfold jmanager_stop_timer.
    destruct (Z.ltb_spec (monitor_timer g) 0); [lia|]. cbn. rewrite length_insert. auto.
  - set (g' := jmanager_stop_timer (monitor_timer g) g) in *.
    assert (Hstop : timer_running g' = false).
    { subst g'. apply timer_running_stop. }
    rewrite Hstop, Hms. symmetry. apply bool_decide_eq_false. by intros [].
Qed.

(** Every call keeps the invariant of the timer and the allocated timer. *)
Lemma timer_kept_run_call c :
  forall g, timer_inv g -> timer_kept g (run_call c g).
Proof.
  induction c as [has_free|m|procs IH] using Call_nested_ind; intros g Hinv.
  - cbn. destruct (crashed g); [by apply timer_kept_refl|]. by apply timer_kept_add.
  - cbn. destruct (crashed g); [by apply timer_kept_refl|]. by apply timer_kept_remove.
  - rewrite run_call_timer_message.
    destruct (crashed g); [by apply timer_kept_refl|].
    destruct (monitor_timer g <? 0); [by apply timer_kept_refl|].
    assert (H1 : timer_kept g (timer_loop run_call procs (head (monitors g)) g)).
    { by apply timer_kept_timer_loop. }
    eapply timer_kept_trans; [exact H1|]. apply timer_kept_stop_if_empty, H1.
Qed.

Lemma timer_inv_initial : timer_inv initial_gui.
Proof. split_and!; [done|cbn; lia|done]. Qed.

Lemma timer_inv_run_calls cs : timer_inv (run_calls cs initial_gui).
Proof.
  induction cs as [|c cs IH] using rev_ind.
  - apply timer_inv_initial.
  - rewrite run_calls_snoc. by apply timer_kept_run_call.
Qed.

(** C7.  From any state in which the timer follows the list of monitors
    (as it does initially, before the timer is allocated, and after any
    sequence of calls within defined behaviour), every call of
    [add_gui_monitor] or [remove_gui_monitor] and every timer message that
    stays within defined behaviour leaves the monitor timer running if the
    list of monitors is not empty and stopped if it is empty.  Once
    allocated, the timer id never changes and stays a timer of the manager;
    [add_gui_monitor] allocates it if there is none, and always leaves it
    running.  Nothing is stated of a step that leaves defined behaviour (a
    timer message that steps onto an erased node of the list, or a failed
    assertion of [remove_gui_monitor]), nor of what follows it. *)
Theorem monitor_timer_follows_monitors g c :
  timer_inv g ->
  let g' := run_call c g in
  crashed g' = false ->
  timer_running g' = bool_decide (monitors g' <> []) /\
  timer_inv g' /\
  (0 <= monitor_timer g ->
   monitor_timer g' = monitor_timer g /\
   (Z.to_nat (monitor_timer g') < length (timers g'))%nat) /\
  (forall has_free, c = call_add_gui_monitor has_free -> crashed g = false ->
                    0 <= monitor_timer g' /\ timer_running g' = true) /\
  (monitor_timer initial_gui = -1 /\ timer_running initial_gui = false) /\
  (forall cs, crashed (run_calls cs initial_gui) = false ->
              timer_inv (run_calls cs initial_gui)).
Proof.
  intros Hinv g' _.
  destruct (timer_kept_run_call c g Hinv) as [Hinv' Hid]. fold g' in Hinv', Hid.
  split_and!; try done.
  - apply Hinv'.
  - intros Hpos. split; [by apply Hid|].
    destruct Hinv' as (_ & Halloc & _). apply Halloc. rewrite Hid; done.
  - intros has_free -> Hok. subst g'. cbn [run_call]. rewrite Hok.
    destruct (add_gui_monitor_fields has_free g) as (_ & _ & _ & Hms & Hid' & _).
    cbv zeta in *. cbn [run_call] in Hinv'. rewrite Hok in Hinv'.
    destruct Hinv' as (_ & _ & Hrun). split.
    + rewrite Hid'. destruct (Z.ltb_spec (monitor_timer g) 0); lia.
    + rewrite Hrun. apply bool_decide_eq_true. rewrite Hms. by destruct (monitors g).
  - intros cs _. apply timer_inv_run_calls.
Qed.

(** One monitor added and removed: the timer 0 is allocated and stopped;
    adding a monitor again restarts the same timer. *)
Lemma monitor_timer_restarts_witness :
  let g := run_calls [call_add_gui_monitor true; call_remove_gui_monitor 0%nat] initial_gui in
  let g' := run_call (call_add_gui_monitor false) g in
  timer_inv g /\ crashed g' = false /\
  (monitor_timer g = 0 /\ timer_running g = false /\ monitors g = []) /\
  (monitor_timer g' = 0 /\ timer_running g' = true /\ monitors g' = [1%nat]).
Proof.
  intros g g'.
  assert (Hinv : timer_inv g).
  { split_and!; [reflexivity|intros _; vm_compute; lia|reflexivity]. }
  assert (Hok : crashed g' = false) by reflexivity.
  split; [exact Hinv|]. split; [exact Hok|]. split; [by vm_compute|].
  destruct (monitor_timer_follows_monitors g (call_add_gui_monitor false) Hinv Hok)
    as (_ & _ & Hid & Hadd & _).
  destruct (Hid ltac:(by vm_compute)) as [Hsame _].
  destruct (Hadd false eq_refl eq_refl) as [_ Hrun].
  split_and!; [exact Hsame|exact Hrun|reflexivity].
Defined.

(** *** The protocol of a monitor *)

Lemma protocol_run_app P l1 l2 :
  protocol_run P (l1 ++ l2) = protocol_run (protocol_run P l1) l2.
Proof. apply foldl_app. Qed.

Lemma protocol_run_None l : protocol_run None l = None.
Proof. induction l; [done|]. exact IHl. Qed.

Lemma protocol_run_cons P e l :
  protocol_run (Some P) (e :: l) = protocol_run (protocol_step P e) l.
Proof. reflexivity. Qed.

Lemma protocol_run_Some_app P l1 l2 P' :
  protocol_run (Some P) (l1 ++ l2) = Some P' ->
  exists P1, protocol_run (Some P) l1 = Some P1 /\ protocol_run (Some P1) l2 = Some P'.
Proof.
  rewrite protocol_run_app. destruct (protocol_run (Some P) l1) as [P1|] eqn:H1; [eauto|].
  by rewrite protocol_run_None.
Qed.

(** The phase of a monitor only changes at its own events. *)
Lemma protocol_step_other P e P' m :
  protocol_step P e = Some P' ->
  (forall f, e <> ev_added m f) -> e <> ev_remove_requested m ->
  e <> ev_proc_called m -> e <> ev_proc_returned m ->
  (forall f, e <> ev_deleted m f) ->
  phases P' !! m = phases P !! m.
Proof.
  intros Hstep Ha Hr Hc Hret Hd.
  protocol_cases Hstep; cbn;
    rewrite lookup_insert_ne; try done; intros ->; try done;
    destruct_and?; simplify_eq; solve [by eapply Ha | by eapply Hd].
Qed.

Lemma removal_phase_step P e P' m :
  removal_phase (phases P !! m) -> protocol_step P e = Some P' ->
  e <> ev_proc_called m /\ removal_phase (phases P' !! m).
Proof.
  intros Hph Hstep. protocol_cases Hstep; (split; [intros ?; simplify_eq|]);
    phase_after_step.
  all: try (match goal with H : phases _ !! _ = _ |- _ => rewrite H in Hph end; done).
Qed.

(** No call of the callback after the removal was requested. *)
Lemma no_call_in_removal_phase m l : forall P P',
  removal_phase (phases P !! m) -> protocol_run (Some P) l = Some P' ->
  (ev_proc_called m ∉ l) /\ removal_phase (phases P' !! m).
Proof.
  induction l as [|e l IH]; intros P P' Hph Hrun.
  - cbn in Hrun. simplify_eq. split; [apply not_elem_of_nil|done].
  - rewrite protocol_run_cons in Hrun.
    destruct (protocol_step P e) as [P1|] eqn:Hstep; [|by rewrite protocol_run_None in Hrun].
    destruct (removal_phase_step P e P1 m Hph Hstep) as [Hne Hph1].
    destruct (IH P1 P' Hph1 Hrun) as [Hnin Hph'].
    split; [|done]. intros [Heq|Hin]%elem_of_cons; [by apply Hne|done].
Qed.

Lemma removal_requested_step P m P' :
  protocol_step P (ev_remove_requested m) = Some P' -> removal_phase (phases P' !! m).
Proof. intros Hstep. protocol_cases Hstep; phase_after_step. Qed.

Lemma callback_phase_step P e P' m :
  callback_phase (phases P !! m) -> protocol_step P e = Some P' ->
  e <> ev_proc_called m /\ (e <> ev_proc_returned m -> callback_phase (phases P' !! m)).
Proof.
  intros Hph Hstep. protocol_cases Hstep; (split; [intros ?; simplify_eq|intros Hret]);
    phase_after_step.
  all: try (match goal with H : phases _ !! _ = _ |- _ => rewrite H in Hph end; done).
Qed.

(** While the monitor is inside its callback, the callback is not entered
    again before it returns. *)
Lemma no_call_in_callback_phase m l : forall P P',
  callback_phase (phases P !! m) -> protocol_run (Some P) l = Some P' ->
  ev_proc_returned m ∉ l ->
  (ev_proc_called m ∉ l) /\ callback_phase (phases P' !! m).
Proof.
  induction l as [|e l IH]; intros P P' Hph Hrun Hret.
  - cbn in Hrun. simplify_eq. split; [apply not_elem_of_nil|done].
  - rewrite protocol_run_cons in Hrun.
    destruct (protocol_step P e) as [P1|] eqn:Hstep; [|by rewrite protocol_run_None in Hrun].
    destruct (callback_phase_step P e P1 m Hph Hstep) as [Hne Hph1].
    apply not_elem_of_cons in Hret as [Hne' Hret].
    destruct (IH P1 P' (Hph1 (fun Heq => Hne' (eq_sym Heq))) Hrun Hret) as [Hnin Hph'].
    split; [|done]. intros [Heq|Hin]%elem_of_cons; [by apply Hne|done].
Qed.

Lemma proc_called_step P m P' :
  protocol_step P (ev_proc_called m) = Some P' -> callback_phase (phases P' !! m).
Proof. intros Hstep. protocol_cases Hstep; phase_after_step. Qed.

(** When a destruction is expected, it is the next event. *)
Lemma expecting_next P m l P' :
  expecting P = Some m -> protocol_run (Some P) l = Some P' ->
  (l = [] /\ P' = P) \/
  (exists f l', l = ev_deleted m f :: l' /\ phases P !! m = Some (Finalizing f)).
Proof.
  intros Hexp Hrun. destruct l as [|e l]; [left; cbn in Hrun; by simplify_eq|right].
  rewrite protocol_run_cons in Hrun.
  destruct (protocol_step P e) as [P1|] eqn:Hstep; [|by rewrite protocol_run_None in Hrun].
  protocol_cases Hstep. eauto.
Qed.

Lemma remove_requested_cases P m P' :
  protocol_step P (ev_remove_requested m) = Some P' ->
  (exists f, phases P !! m = Some (Active f) /\ expecting P' = Some m /\
             phases P' !! m = Some (Finalizing f)) \/
  (exists f, phases P !! m = Some (Running f) /\ expecting P' = None /\
             phases P' !! m = Some (PendingDelete f)).
Proof.
  intros Hstep. protocol_cases Hstep; [left|right]; eexists; split_and!; try done;
    cbn; by rewrite lookup_insert_eq.
Qed.

(** A monitor whose removal is pending is destroyed right after its
    callback returns, and not before. *)
Lemma pending_delete_run m f l : forall P P',
  phases P !! m = Some (PendingDelete f) -> expecting P <> Some m ->
  protocol_run (Some P) l = Some P' ->
  ((ev_proc_returned m ∉ l) /\ Forall (fun e => destroys m e = false) l /\
   phases P' !! m = Some (PendingDelete f)) \/
  (exists l1 l2, l = l1 ++ ev_proc_returned m :: l2 /\
                 (ev_proc_returned m ∉ l1) /\ Forall (fun e => destroys m e = false) l1 /\
                 ((l2 = [] /\ expecting P' = Some m) \/
                  exists l3, l2 = ev_deleted m f :: l3)).
Proof.
  induction l as [|e l IH]; intros P P' Hph Hexp Hrun.
  - left. cbn in Hrun. simplify_eq. split_and!; [apply not_elem_of_nil|constructor|done].
  - rewrite protocol_run_cons in Hrun.
    destruct (protocol_step P e) as [P1|] eqn:Hstep; [|by rewrite protocol_run_None in Hrun].
    destruct (decide (e = ev_proc_returned m)) as [->|Hne].
    + right. exists [], l. split_and!; [done|apply not_elem_of_nil|constructor|].
      protocol_cases Hstep.
      destruct (expecting_next (expect m (Finalizing f) P) m l P' eq_refl Hrun)
        as [[-> ->]|(f' & l' & -> & Hfin)]; [left; done|right].
      cbn in Hfin. rewrite lookup_insert_eq in Hfin. simplify_eq. eauto.
    + assert (Hkeep : phases P1 !! m = Some (PendingDelete f) /\ expecting P1 <> Some m /\
                      destroys m e = false).
      { protocol_cases Hstep; cbn [destroys]; try case_bool_decide; phase_after_step;
          split_and!; try done; congruence. }
      destruct Hkeep as (Hph1 & Hexp1 & Hdes).
      destruct (IH P1 P' Hph1 Hexp1 Hrun)
        as [(Hnin & Hall & Hph')|(l1 & l2 & -> & Hnin & Hall & Hrest)].
      * left. split_and!; [|by constructor|done].
        apply not_elem_of_cons. split; [congruence|done].
      * right. exists (e :: l1), l2. split_and!; [done| |by constructor|done].
        apply not_elem_of_cons. split; [congruence|done].
Qed.

Lemma destroyed_count_step P e P' m :
  protocol_step P e = Some P' ->
  (destroyed_count (phases P' !! m) =
   destroyed_count (phases P !! m) + (if destroys m e then 1 else 0))%nat.
Proof.
  intros Hstep. protocol_cases Hstep; cbn [destroys];
    try case_bool_decide; phase_after_step;
    try (match goal with H : phases _ !! _ = _ |- _ => rewrite H end; done).
Qed.

Lemma destroyed_count_run m l : forall P P',
  protocol_run (Some P) l = Some P' ->
  (destroyed_count (phases P' !! m) =
   destroyed_count (phases P !! m) + length (filter (fun e => destroys m e = true) l))%nat.
Proof.
  induction l as [|e l IH]; intros P P' Hrun.
  - cbn in Hrun. simplify_eq. cbn. lia.
  - rewrite protocol_run_cons in Hrun.
    destruct (protocol_step P e) as [P1|] eqn:Hstep; [|by rewrite protocol_run_None in Hrun].
    rewrite (IH P1 P' Hrun), (destroyed_count_step P e P1 m Hstep), filter_cons.
    destruct (destroys m e); case_decide; cbn; try done; lia.
Qed.

Lemma flags_registered_step P e P' tr :
  flags_registered P tr -> protocol_step P e = Some P' ->
  flags_registered P' (tr ++ [e]) /\
  (forall m f, e = ev_deleted m f -> ev_added m f ∈ tr).
Proof.
  intros Hflags Hstep. split.
  - intros m f Hf. apply elem_of_app.
    protocol_cases Hstep; phase_after_step; simplify_eq;
      try (right; by apply list_elem_of_singleton);
      left; apply Hflags; try done;
      match goal with H : phases _ !! _ = _ |- _ => by rewrite H end.
  - intros m f ->. protocol_cases Hstep. apply Hflags.
    match goal with H : phases _ !! _ = _ |- _ => by rewrite H end.
Qed.

Lemma flags_registered_run l : forall P P' tr,
  flags_registered P tr -> protocol_run (Some P) l = Some P' ->
  flags_registered P' (tr ++ l) /\
  (forall m f, ev_deleted m f ∈ l -> ev_added m f ∈ tr ++ l).
Proof.
  induction l as [|e l IH]; intros P P' tr Hflags Hrun.
  - cbn in Hrun. simplify_eq. rewrite app_nil_r. split; [done|].
    intros m f Hin. by apply elem_of_nil in Hin.
  - rewrite protocol_run_cons in Hrun.
    destruct (protocol_step P e) as [P1|] eqn:Hstep; [|by rewrite protocol_run_None in Hrun].
    destruct (flags_registered_step P e P1 tr Hflags Hstep) as [Hflags1 Hdel].
    destruct (IH P1 P' (tr ++ [e]) Hflags1 Hrun) as [Hflags' Hdel'].
    rewrite <- app_assoc in Hflags', Hdel'. split; [done|].
    intros m f [Heq|Hin]%elem_of_cons; [|by apply Hdel'].
    apply elem_of_app. left. by apply Hdel.
Qed.

(** Being inside the callback, read off the events, is the phase. *)
Lemma in_callback_snoc m tr e :
  in_callback m (tr ++ [e]) =
  if bool_decide (e = ev_proc_called m) then true
  else if bool_decide (e = ev_proc_returned m) then false
  else in_callback m tr.
Proof. unfold in_callback. by rewrite foldl_snoc. Qed.

Lemma in_callback_phase m tr : forall P,
  protocol_run (Some initial_protocol) tr = Some P ->
  in_callback m tr = true <-> callback_phase (phases P !! m).
Proof.
  induction tr as [|e tr IH] using rev_ind; intros P Hrun.
  - cbn in Hrun. simplify_eq. cbn. rewrite lookup_empty. done.
  - apply protocol_run_Some_app in Hrun as (P1 & Hrun1 & Hstep).
    cbn in Hstep. rewrite in_callback_snoc.
    specialize (IH P1 Hrun1).
    repeat case_bool_decide; subst.
    + split; [intros _|done]. by eapply proc_called_step.
    + split; [done|]. protocol_cases Hstep; phase_after_step.
    + rewrite IH. protocol_cases Hstep; phase_after_step;
        try (match goal with H : phases _ !! _ = _ |- _ => rewrite H end; done).
Qed.

(** *** The scheduler follows the protocol *)

Lemma monitors_kept_refl g : monitors_inv g -> monitors_kept g g.
Proof. intros Hinv. split; [done|]. split; [done|]. done. Qed.

Lemma monitors_kept_trans g1 g2 g3 :
  monitors_kept g1 g2 -> monitors_kept g2 g3 -> monitors_kept g1 g3.
Proof.
  intros (Hinv2 & Hl2 & He2) (Hinv3 & Hl3 & He3). split_and!; [done|auto|].
  intros Hok. destruct (He3 Hok) as [Hok2 Heq3]. destruct (He2 Hok2) as [Hok1 Heq2].
  split; [done|]. intros m. by rewrite Heq3.
Qed.

Lemma monitors_inv_same g g' :
  objects g' = objects g -> next_object g' = next_object g ->
  monitors g' = monitors g -> log g' = log g ->
  monitors_inv g -> monitors_inv g'.
Proof.
  intros Ho Hn Hm Hl. unfold monitors_inv, state_phase. by rewrite Ho, Hn, Hm, Hl.
Qed.

Lemma monitors_kept_same g g' :
  objects g' = objects g -> next_object g' = next_object g ->
  monitors g' = monitors g -> log g' = log g ->
  (crashed g' = false -> crashed g = false) ->
  monitors_inv g -> monitors_kept g g'.
Proof.
  intros Ho Hn Hm Hl Hc Hinv. split_and!.
  - by eapply monitors_inv_same.
  - intros m. unfold is_locked. by rewrite Ho.
  - intros Hok. split; [by apply Hc|]. intros m. unfold is_locked. by rewrite Ho.
Qed.

Lemma protocol_run_extend tr evs P P' :
  protocol_run (Some initial_protocol) tr = Some P ->
  protocol_run (Some P) evs = Some P' ->
  protocol_run (Some initial_protocol) (tr ++ evs) = Some P'.
Proof. intros H1 H2. by rewrite protocol_run_app, H1. Qed.

Lemma monitors_inv_fresh g :
  monitors_inv g ->
  objects g !! next_object g = None /\ (next_object g ∉ monitors g) /\
  state_phase g (next_object g) = None.
Proof.
  intros (_ & _ & Hlisted & Hobjs).
  assert (Hnone : objects g !! next_object g = None).
  { destruct (objects g !! next_object g) as [mon|] eqn:Hobj; [|done].
    apply Hobjs in Hobj as [? _]. lia. }
  split_and!; [done| |].
  - intros (mon & Hobj & _)%Hlisted. congruence.
  - unfold state_phase. rewrite Hnone. by rewrite decide_False by lia.
Qed.

Lemma monitors_kept_add has_free g :
  monitors_inv g -> monitors_kept g (snd (add_gui_monitor has_free g)).
Proof.
  intros Hinv. destruct (monitors_inv_fresh g Hinv) as (Hnone & Hnin & Hphase).
  destruct Hinv as ((P & Hrun & Hexp & Hphases) & Hnodup & Hlisted & Hobjs).
  destruct (add_gui_monitor_fields has_free g)
    as (_ & Hobj' & Hnext' & Hms' & _ & _ & Hlog' & Hcrash').
  cbv zeta in *. set (g' := snd (add_gui_monitor has_free g)) in *.
  set (m := next_object g) in *.
  split_and!; [split_and!|..].
  - exists (set_phase m (Active has_free) P). split_and!; [|done|].
    + rewrite Hlog'. eapply protocol_run_extend; [done|]. cbn.
      unfold protocol_step. by rewrite Hexp, Hphases, Hphase.
    + intros m'. unfold state_phase. rewrite Hobj', Hnext'. cbn.
      destruct (decide (m = m')) as [<-|Hne].
      * by rewrite !lookup_insert_eq.
      * rewrite !lookup_insert_ne by done. rewrite Hphases. unfold state_phase.
        destruct (objects g !! m'); [done|].
        fold m. repeat case_decide; try done; lia.
  - rewrite Hms'. apply NoDup_app. split_and!; [done| |apply NoDup_singleton].
    intros x Hx ->%list_elem_of_singleton. done.
  - intros m'. rewrite Hms', Hobj', elem_of_app, list_elem_of_singleton, Hlisted.
    destruct (decide (m = m')) as [<-|Hne].
    + rewrite lookup_insert_eq. split; [eauto|]. by right.
    + rewrite lookup_insert_ne by done. split; [intros [?|?]; [done|congruence]|by left].
  - intros m' mon. rewrite Hobj', Hnext'.
    destruct (decide (m = m')) as [<-|Hne].
    + rewrite lookup_insert_eq. intros [= <-]. cbn. split; [lia|done].
    + rewrite lookup_insert_ne by done. intros [? ?]%Hobjs. split; [lia|done].
  - intros m'. unfold is_locked. rewrite Hobj'.
    destruct (decide (m = m')) as [<-|Hne].
    + by rewrite Hnone.
    + by rewrite lookup_insert_ne.
  - intros Hok. split; [unfold crashed in *; by rewrite <- Hcrash'|].
    intros m'. unfold is_locked. rewrite Hobj'.
    destruct (decide (m = m')) as [<-|Hne].
    + by rewrite lookup_insert_eq, Hnone.
    + by rewrite lookup_insert_ne.
Qed.

Lemma elem_of_delete_NoDup (l : list MonitorPtr) i m x :
  NoDup l -> l !! i = Some m -> x ∈ delete i l <-> x ∈ l /\ x <> m.
Proof.
  intros Hnd Hi. rewrite !list_elem_of_lookup. split.
  - intros [j Hj].
    destruct (decide (j < i)%nat) as [Hlt|Hge].
    + rewrite list_lookup_delete_lt in Hj by done. split; [eauto|].
      intros ->. assert (j = i) by (eapply NoDup_lookup; eauto). lia.
    + rewrite list_lookup_delete_ge in Hj by lia. split; [eauto|].
      intros ->. assert (S j = i) by (eapply NoDup_lookup; eauto). lia.
  - intros [[j Hj] Hne].
    destruct (decide (j < i)%nat) as [Hlt|Hge].
    + exists j. by rewrite list_lookup_delete_lt.
    + destruct (decide (j = i)) as [->|Hji]; [congruence|].
      exists (pred j). rewrite list_lookup_delete_ge by lia.
      replace (S (pred j)) with j by lia. done.
Qed.

Lemma monitors_kept_remove m g :
  monitors_inv g -> monitors_kept g (remove_gui_monitor m g).
Proof.
  intros Hinv.
  destruct (list_find (fun y => y = m) (monitors g)) as [[it x]|] eqn:Hfind.
  2:{ rewrite remove_gui_monitor_crash by done. by apply monitors_kept_same. }
  destruct (remove_gui_monitor_fields m g it x Hfind)
    as (Hobj' & Hnext' & Hms' & _ & _ & Hlog' & Hcrash').
  cbv zeta in *. set (g' := remove_gui_monitor m g) in *.
  apply list_find_Some in Hfind as (Hit & -> & _).
  destruct Hinv as ((P & Hrun & Hexp & Hphases) & Hnodup & Hlisted & Hobjs).
  assert (Hin : m ∈ monitors g) by (by eapply list_elem_of_lookup_2).
  destruct (proj1 (Hlisted m) Hin) as (mon & Hmon & Hdel).
  assert (Hph : phases P !! m = Some (if lock mon then Running (free mon)
                                      else Active (free mon))).
  { rewrite Hphases. unfold state_phase. rewrite Hmon, Hdel. done. }
  assert (Hlk : is_locked m g = lock mon) by (unfold is_locked; by rewrite Hmon).
  rewrite Hlk, Hmon in *.
  assert (Hnodup' : NoDup (monitors g')).
  { rewrite Hms'. eapply sublist_NoDup; [done|apply sublist_delete]. }
  destruct (lock mon) eqn:Hlock.
  - (* inside its callback: marked deleted *)
    split_and!; [split_and!|..]; [|done|..].
    + exists (set_phase m (PendingDelete (free mon)) P). split_and!; [|done|].
      * rewrite Hlog'. eapply protocol_run_extend; [done|]. cbn.
        unfold protocol_step. by rewrite Hexp, Hph.
      * intros m'. unfold state_phase. rewrite Hobj', Hnext'. cbn.
        destruct (decide (m = m')) as [<-|Hne].
        -- rewrite lookup_insert_eq, lookup_alter_eq, Hmon. cbn. by rewrite Hlock.
        -- rewrite lookup_insert_ne, lookup_alter_ne by done. apply Hphases.
    + intros m'. rewrite Hms', (elem_of_delete_NoDup _ _ m) by done.
      rewrite Hlisted, Hobj'.
      destruct (decide (m = m')) as [<-|Hne].
      * rewrite lookup_alter_eq, Hmon. cbn. split; [by intros [_ ?]|].
        intros (? & [= <-] & ?). done.
      * rewrite lookup_alter_ne by done. split; [by intros [? _]|by split].
    + intros m' mon'. rewrite Hobj', Hnext'.
      destruct (decide (m = m')) as [<-|Hne].
      * rewrite lookup_alter_eq, Hmon. cbn. intros [= <-]. cbn.
        split; [by eapply Hobjs|done].
      * rewrite lookup_alter_ne by done. apply Hobjs.
    + intros m'. unfold is_locked. rewrite Hobj'.
      destruct (decide (m = m')) as [<-|Hne].
      * rewrite lookup_alter_eq, Hmon. done.
      * by rewrite lookup_alter_ne.
    + intros Hok. split; [unfold crashed in *; by rewrite <- Hcrash'|].
      intros m'. unfold is_locked. rewrite Hobj'.
      destruct (decide (m = m')) as [<-|Hne].
      * rewrite lookup_alter_eq, Hmon. done.
      * by rewrite lookup_alter_ne.
  - (* not inside its callback: destroyed at once *)
    split_and!; [split_and!|..]; [|done|..].
    + exists {| phases := <[m := Destroyed]> (phases P); expecting := None |}.
      split_and!; [|done|].
      * rewrite Hlog'. eapply protocol_run_extend; [done|]. cbn.
        unfold protocol_step at 2. rewrite Hexp, Hph. cbn.
        unfold protocol_step. cbn. rewrite lookup_insert_eq.
        rewrite bool_decide_eq_true_2 by done. by rewrite insert_insert_eq.
      * intros m'. unfold state_phase. rewrite Hobj', Hnext'. cbn.
        destruct (decide (m = m')) as [<-|Hne].
        -- rewrite lookup_insert_eq, lookup_delete_eq.
           rewrite decide_True; [done|]. by eapply Hobjs.
        -- rewrite lookup_insert_ne, lookup_delete_ne by done. apply Hphases.
    + intros m'. rewrite Hms', (elem_of_delete_NoDup _ _ m) by done.
      rewrite Hlisted, Hobj'.
      destruct (decide (m = m')) as [<-|Hne].
      * rewrite lookup_delete_eq. split; [by intros [_ ?]|]. by intros (? & ? & ?).
      * rewrite lookup_delete_ne by done. split; [by intros [? _]|by split].
    + intros m' mon'. rewrite Hobj', Hnext'.
      destruct (decide (m = m')) as [<-|Hne].
      * by rewrite lookup_delete_eq.
      * rewrite lookup_delete_ne by done. apply Hobjs.
    + intros m'. unfold is_locked. rewrite Hobj'.
      destruct (decide (m = m')) as [<-|Hne].
      * by rewrite Hmon, Hlock.
      * by rewrite lookup_delete_ne.
    + intros Hok. split; [unfold crashed in *; by rewrite <- Hcrash'|].
      intros m'. unfold is_locked. rewrite Hobj'.
      destruct (decide (m = m')) as [<-|Hne].
      * by rewrite lookup_delete_eq, Hmon, Hlock.
      * by rewrite lookup_delete_ne.
Qed.

(** Entering the callback of a listed, unlocked monitor. *)
Lemma monitors_inv_lock m g :
  monitors_inv g -> m ∈ monitors g -> is_locked m g = false ->
  let g1 := log_event (ev_proc_called m) (set_lock m true g) in
  monitors_inv g1 /\ is_locked m g1 = true /\
  (forall m', m' <> m -> is_locked m' g1 = is_locked m' g).
Proof.
  intros ((P & Hrun & Hexp & Hphases) & Hnodup & Hlisted & Hobjs) Hin Hlk g1.
  destruct (proj1 (Hlisted m) Hin) as (mon & Hmon & Hdel).
  unfold is_locked in Hlk. rewrite Hmon in Hlk.
  assert (Hobj1 : objects g1 =
                  alter (fun mon => {| free := free mon; lock := true; deleted := deleted mon |})
                    m (objects g)) by done.
  split_and!; [split_and!|..]; [|done|..].
  - exists (set_phase m (Running (free mon)) P). split_and!; [|done|].
    + change (log g1) with (log g ++ [ev_proc_called m]).
      eapply protocol_run_extend; [done|]. cbn. unfold protocol_step.
      rewrite Hexp, Hphases. unfold state_phase. by rewrite Hmon, Hlk.
    + intros m'. unfold state_phase. rewrite Hobj1. cbn.
      destruct (decide (m = m')) as [<-|Hne].
      * rewrite lookup_insert_eq, lookup_alter_eq, Hmon. cbn. by rewrite Hdel.
      * rewrite lookup_insert_ne, lookup_alter_ne by done. apply Hphases.
  - intros m'. change (monitors g1) with (monitors g). rewrite Hlisted, Hobj1.
    destruct (decide (m = m')) as [<-|Hne].
    + rewrite lookup_alter_eq, Hmon. cbn. split; [eauto|]. eauto.
    + by rewrite lookup_alter_ne.
  - intros m' mon'. rewrite Hobj1. change (next_object g1) with (next_object g).
    destruct (decide (m = m')) as [<-|Hne].
    + rewrite lookup_alter_eq, Hmon. cbn. intros [= <-]. cbn.
      split; [by eapply Hobjs|done].
    + rewrite lookup_alter_ne by done. apply Hobjs.
  - unfold is_locked. by rewrite Hobj1, lookup_alter_eq, Hmon.
  - intros m' Hne. unfold is_locked. by rewrite Hobj1, lookup_alter_ne.
Qed.

(** Returning from the callback of a locked monitor, and destroying the
    monitor if its removal was requested in the meantime. *)
Lemma monitors_inv_unlock m g :
  monitors_inv g -> is_locked m g = true ->
  let g3 := log_event (ev_proc_returned m) (set_lock m false g) in
  let g4 := if is_deleted m g3 then delete_monitor m g3 else g3 in
  monitors_inv g4 /\ is_locked m g4 = false /\
  (forall m', m' <> m -> is_locked m' g4 = is_locked m' g) /\
  crash g4 = crash g.
Proof.
  intros ((P & Hrun & Hexp & Hphases) & Hnodup & Hlisted & Hobjs) Hlk g3 g4.
  unfold is_locked in Hlk.
  destruct (objects g !! m) as [mon|] eqn:Hmon; [|done].
  assert (Hobj3 : objects g3 =
                  alter (fun mon => {| free := free mon; lock := false; deleted := deleted mon |})
                    m (objects g)) by done.
  assert (Hdel3 : is_deleted m g3 = deleted mon).
  { unfold is_deleted. by rewrite Hobj3, lookup_alter_eq, Hmon. }
  subst g4. rewrite Hdel3. destruct (deleted mon) eqn:Hdel.
  - (* removal was requested during the callback *)
    assert (Hdm : delete_monitor m g3 =
                  log_event (ev_deleted m (free mon))
                    (set_objects (delete m (objects g3)) g3)).
    { unfold delete_monitor. by rewrite Hobj3, lookup_alter_eq, Hmon. }
    rewrite Hdm. clear Hdm.
    set (g4 := log_event _ _).
    assert (Hobj4 : objects g4 = delete m (objects g)).
    { subst g4. cbn [objects log_event set_objects]. rewrite Hobj3. apply map_eq. intros k.
      destruct (decide (m = k)) as [<-|Hne].
      - by rewrite !lookup_delete_eq.
      - by rewrite !lookup_delete_ne, lookup_alter_ne. }
    assert (Hlog4 : log g4 = log g ++ [ev_proc_returned m; ev_deleted m (free mon)]).
    { subst g4. cbn. by rewrite <- app_assoc. }
    split_and!; [split_and!|..]; [|done|..|done].
    + exists {| phases := <[m := Destroyed]> (phases P); expecting := None |}.
      split_and!; [|done|].
      * rewrite Hlog4. eapply protocol_run_extend; [done|]. cbn.
        unfold protocol_step at 2. rewrite Hexp, Hphases. unfold state_phase.
        rewrite Hmon, Hlk, Hdel. cbn.
        unfold protocol_step. cbn. rewrite lookup_insert_eq.
        rewrite bool_decide_eq_true_2 by done. by rewrite insert_insert_eq.
      * intros m'. unfold state_phase. rewrite Hobj4.
        change (next_object g4) with (next_object g). cbn.
        destruct (decide (m = m')) as [<-|Hne].
        -- rewrite lookup_insert_eq, lookup_delete_eq.
           rewrite decide_True; [done|]. by eapply Hobjs.
        -- rewrite lookup_insert_ne, lookup_delete_ne by done. apply Hphases.
    + intros m'. change (monitors g4) with (monitors g). rewrite Hlisted, Hobj4.
      destruct (decide (m = m')) as [<-|Hne].
      * rewrite lookup_delete_eq, Hmon. split; [|by intros (? & ? & ?)].
        intros (? & [= <-] & ?). congruence.
      * by rewrite lookup_delete_ne.
    + intros m' mon'. rewrite Hobj4. change (next_object g4) with (next_object g).
      destruct (decide (m = m')) as [<-|Hne].
      * by rewrite lookup_delete_eq.
      * rewrite lookup_delete_ne by done. apply Hobjs.
    + unfold is_locked. by rewrite Hobj4, lookup_delete_eq.
    + intros m' Hne. unfold is_locked. by rewrite Hobj4, lookup_delete_ne.
  - (* the monitor stays registered *)
    split_and!; [split_and!|..]; [|done|..|done].
    + exists (set_phase m (Active (free mon)) P). split_and!; [|done|].
      * change (log g3) with (log g ++ [ev_proc_returned m]).
        eapply protocol_run_extend; [done|]. cbn. unfold protocol_step.
        rewrite Hexp, Hphases. unfold state_phase. by rewrite Hmon, Hlk, Hdel.
      * intros m'. unfold state_phase. rewrite Hobj3. cbn.
        destruct (decide (m = m')) as [<-|Hne].
        -- rewrite lookup_insert_eq, lookup_alter_eq, Hmon. done.
        -- rewrite lookup_insert_ne, lookup_alter_ne by done. apply Hphases.
    + intros m'. change (monitors g3) with (monitors g). rewrite Hlisted, Hobj3.
      destruct (decide (m = m')) as [<-|Hne].
      * rewrite lookup_alter_eq, Hmon. cbn. split; [eauto|]. eauto.
      * by rewrite lookup_alter_ne.
    + intros m' mon'. rewrite Hobj3. change (next_object g3) with (next_object g).
      destruct (decide (m = m')) as [<-|Hne].
      * rewrite lookup_alter_eq, Hmon. cbn. intros [= <-]. cbn.
        split; [by eapply Hobjs|congruence].
      * rewrite lookup_alter_ne by done. apply Hobjs.
    + unfold is_locked. by rewrite Hobj3, lookup_alter_eq, Hmon.
    + intros m' Hne. unfold is_locked. by rewrite Hobj3, lookup_alter_ne.
Qed.

Lemma monitors_kept_poll_monitor proc m g :
  (forall g0, monitors_inv g0 -> monitors_kept g0 (proc g0)) ->
  monitors_inv g -> m ∈ monitors g -> monitors_kept g (poll_monitor proc m g).
Proof.
  intros Hproc Hinv Hin. unfold poll_monitor.
  destruct (is_locked m g) eqn:Hlk; cbn [negb]; [by apply monitors_kept_refl|].
  destruct (monitors_inv_lock m g Hinv Hin Hlk) as (Hinv1 & Hlk1 & Hother1).
  cbv zeta in *. set (g1 := log_event (ev_proc_called m) (set_lock m true g)) in *.
  destruct (Hproc g1 Hinv1) as (Hinv2 & Hkeep2 & Hsame2).
  set (g2 := proc g1) in *.
  assert (Hlocked : forall m', is_locked m' g = true -> is_locked m' g2 = true).
  { intros m' Hm'. apply Hkeep2. rewrite Hother1; [done|]. intros ->. congruence. }
  destruct (crashed g2) eqn:Hcrash2.
  - split_and!; [done|done|]. intros Hok. congruence.
  - destruct (Hsame2 eq_refl) as [Hok1 Heq2].
    destruct (monitors_inv_unlock m g2 Hinv2 (Hkeep2 m Hlk1))
      as (Hinv4 & Hlk4 & Hother4 & Hcrash4).
    cbv zeta in *. set (g3 := log_event (ev_proc_returned m) (set_lock m false g2)) in *.
    set (g4 := if is_deleted m g3 then delete_monitor m g3 else g3) in *.
    assert (Heq : forall m', is_locked m' g4 = is_locked m' g).
    { intros m'. destruct (decide (m' = m)) as [->|Hne]; [congruence|].
      rewrite Hother4, Heq2, Hother1; done. }
    split_and!; [done| |].
    + intros m' Hm'. by rewrite Heq.
    + intros _. split; [done|]. exact Heq.
Qed.

Lemma poll_monitor_idle_fields m g :
  let g' := poll_monitor (fun g => g) m g in
  monitors g' = monitors g /\ crash g' = crash g.
Proof.
  unfold poll_monitor. destruct (is_locked m g); cbn [negb]; [done|].
  set (g1 := log_event (ev_proc_called m) (set_lock m true g)).
  assert (crash g1 = crash g) as Hc1 by done.
  destruct (crashed g1); [done|].
  set (g3 := log_event (ev_proc_returned m) (set_lock m false g1)).
  destruct (is_deleted m g3); [|done].
  destruct (delete_monitor_view m g3) as (Hm & _ & _ & Hc). by rewrite Hm, Hc.
Qed.

Lemma monitors_kept_poll_remaining l g :
  monitors_inv g -> l ⊆ monitors g -> monitors_kept g (poll_remaining l g).
Proof.
  revert g. induction l as [|m l IH]; intros g Hinv Hsub; cbn [poll_remaining].
  - by apply monitors_kept_refl.
  - assert (H1 : monitors_kept g (poll_monitor (fun g => g) m g)).
    { apply monitors_kept_poll_monitor; [|done|].
      - intros. by apply monitors_kept_refl.
      - apply Hsub. by apply elem_of_cons; left. }
    eapply monitors_kept_trans; [exact H1|]. apply IH; [apply H1|].
    destruct (poll_monitor_idle_fields m g) as [Hms _]. cbv zeta in Hms. rewrite Hms.
    intros x Hx. apply Hsub. by apply elem_of_cons; right.
Qed.

Lemma suffix_from_subseteq m (l : list MonitorPtr) : suffix_from m l ⊆ l.
Proof.
  induction l as [|x l IH]; cbn; [done|]. case_decide; [done|].
  intros y Hy. apply elem_of_cons. right. by apply IH.
Qed.

Lemma monitors_kept_run_calls cs g :
  Forall (fun c => forall g0, monitors_inv g0 -> monitors_kept g0 (run_call c g0)) cs ->
  monitors_inv g -> monitors_kept g (run_calls cs g).
Proof.
  intros Hcs. revert g. induction Hcs as [|c cs Hc Hcs IH]; intros g Hinv.
  - by apply monitors_kept_refl.
  - rewrite run_calls_cons. eapply monitors_kept_trans; [by apply Hc|].
    apply IH, Hc, Hinv.
Qed.

Lemma monitors_kept_timer_loop procs it g :
  Forall (Forall (fun c => forall g0, monitors_inv g0 -> monitors_kept g0 (run_call c g0)))
    procs ->
  monitors_inv g -> monitors_kept g (timer_loop run_call procs it g).
Proof.
  intros Hprocs. revert it g.
  induction Hprocs as [|proc procs Hproc Hprocs IH]; intros [m|] g Hinv;
    rewrite ?timer_loop_end, ?timer_loop_nil, ?timer_loop_cons;
    try (by apply monitors_kept_refl).
  - destruct (crashed g) eqn:Hcrash; [by apply monitors_kept_refl|].
    case_bool_decide.
    + apply monitors_kept_poll_remaining; [done|apply suffix_from_subseteq].
    + apply monitors_kept_same; try done.
  - destruct (crashed g) eqn:Hcrash; [by apply monitors_kept_refl|].
    case_bool_decide; [|apply monitors_kept_same; try done].
    assert (H1 : monitors_kept g (poll_monitor (run_calls proc) m g)).
    { apply monitors_kept_poll_monitor; [|done..]. intros g0.
      by apply monitors_kept_run_calls. }
    eapply monitors_kept_trans; [exact H1|]. apply IH, H1.
Qed.

Lemma monitors_kept_stop_if_empty g :
  monitors_inv g -> monitors_kept g (stop_timer_if_empty g).
Proof.
  intros Hinv. unfold stop_timer_if_empty.
  destruct (crashed g); [by apply monitors_kept_refl|].
  case_bool_decide; [|by apply monitors_kept_refl].
  unfold jmanager_stop_timer. destruct (monitor_timer g <? 0); [by apply monitors_kept_refl|].
  by apply monitors_kept_same.
Qed.

(** Every call keeps the invariant of the scheduler and the locks. *)
Lemma monitors_kept_run_call c :
  forall g, monitors_inv g -> monitors_kept g (run_call c g).
Proof.
  induction c as [has_free|m|procs IH] using Call_nested_ind; intros g Hinv.
  - cbn. destruct (crashed g); [by apply monitors_kept_refl|]. by apply monitors_kept_add.
  - cbn. destruct (crashed g); [by apply monitors_kept_refl|]. by apply monitors_kept_remove.
  - rewrite run_call_timer_message.
    destruct (crashed g); [by apply monitors_kept_refl|].
    destruct (monitor_timer g <? 0); [by apply monitors_kept_refl|].
    assert (H1 : monitors_kept g (timer_loop run_call procs (head (monitors g)) g)).
    { by apply monitors_kept_timer_loop. }
    eapply monitors_kept_trans; [exact H1|]. apply monitors_kept_stop_if_empty, H1.
Qed.

Lemma monitors_inv_initial : monitors_inv initial_gui.
Proof.
  split_and!.
  - exists initial_protocol. split_and!; [done..|]. intros m.
    unfold state_phase. cbn. rewrite !lookup_empty. by rewrite decide_False by lia.
  - constructor.
  - intros m. cbn. rewrite lookup_empty. split; [by intros ?%elem_of_nil|].
    by intros (? & ? & _).
  - intros m mon. cbn. by rewrite lookup_empty.
Qed.

(** After any sequence of calls the invariant holds, and when the run has
    not crashed no monitor is locked. *)
Lemma monitors_inv_run_calls cs :
  let g := run_calls cs initial_gui in
  monitors_inv g /\ (crashed g = false -> forall m, is_locked m g = false).
Proof.
  cbv zeta.
  assert (Hkept : monitors_kept initial_gui (run_calls cs initial_gui)).
  { apply monitors_kept_run_calls; [|apply monitors_inv_initial].
    apply Forall_forall. intros c _. apply monitors_kept_run_call. }
  destruct Hkept as (Hinv & _ & Hsame). split; [done|].
  intros Hok m. destruct (Hsame Hok) as [_ Heq]. rewrite Heq.
  unfold is_locked. cbn. by rewrite lookup_empty.
Qed.

(** *** Callbacks that do nothing *)

Lemma successor_elem_of m m' (l : list MonitorPtr) : successor m l = Some m' -> m' ∈ l.
Proof.
  induction l as [|x l IH]; cbn; [done|]. case_decide.
  - destruct l as [|y l]; cbn; [done|]. intros [= ->].
    apply elem_of_cons. right. by apply elem_of_cons; left.
  - intros Hs. apply elem_of_cons. right. by apply IH.
Qed.

Lemma suffix_from_successor m (l : list MonitorPtr) :
  NoDup l -> m ∈ l ->
  suffix_from m l =
  m :: match successor m l with Some m' => suffix_from m' l | None => [] end.
Proof.
  induction l as [|x l IH]; intros Hnd Hin; [by apply elem_of_nil in Hin|].
  apply NoDup_cons in Hnd as [Hx Hnd]. cbn [suffix_from successor].
  destruct (decide (x = m)) as [->|Hne].
  - destruct l as [|y l]; [done|]. cbn [head suffix_from].
    rewrite decide_False; [by rewrite decide_True|].
    intros ->. apply Hx. by apply elem_of_cons; left.
  - apply elem_of_cons in Hin as [->|Hin]; [done|].
    rewrite (IH Hnd Hin). f_equal.
    destruct (successor m l) as [m'|] eqn:Hs; [|done].
    cbn [suffix_from]. rewrite decide_False; [done|].
    intros ->. apply Hx. by eapply successor_elem_of.
Qed.

(** The loop treats the iterations for which no behaviour is given as
    iterations whose callback does nothing. *)
Lemma timer_loop_idle_callback procs : forall it g,
  monitors_inv g ->
  timer_loop run_call (procs ++ [[]]) it g = timer_loop run_call procs it g.
Proof.
  induction procs as [|proc procs IH]; intros [m|] g Hinv;
    rewrite ?timer_loop_end; try done.
  - cbn [app]. rewrite timer_loop_cons, timer_loop_nil.
    destruct (crashed g) eqn:Hcrash; [done|]. case_bool_decide as Hin; [|done].
    destruct Hinv as (_ & Hnodup & _).
    rewrite (suffix_from_successor m (monitors g) Hnodup Hin). cbn [poll_remaining].
    change (run_calls []) with (fun g : Gui => g).
    destruct (poll_monitor_idle_fields m g) as [Hms Hc]. cbv zeta in Hms, Hc.
    destruct (successor m (monitors g)) as [m'|] eqn:Hs; [|by rewrite timer_loop_end].
    rewrite timer_loop_nil. unfold crashed in *. rewrite Hc, Hcrash, Hms.
    by rewrite bool_decide_eq_true_2 by (by eapply successor_elem_of).
  - cbn [app]. rewrite !timer_loop_cons.
    destruct (crashed g); [done|]. case_bool_decide as Hin; [|done].
    apply IH. apply monitors_kept_poll_monitor; [|done..].
    intros g0. apply monitors_kept_run_calls.
    apply Forall_forall. intros c _. apply monitors_kept_run_call.
Qed.

(** The protocol that the [lock] and [deleted] flags implement.  In every
    run of the scheduler (any sequence of calls from outside, with
    callbacks that themselves call [add_gui_monitor] and
    [remove_gui_monitor] and run event loops that deliver the timer
    message), and for every monitor [m], the events observed satisfy:
    - after [remove_gui_monitor(m)] was requested the callback of [m] is
      never entered;
    - the callback of [m] is never entered while it is running;
    - when the removal is requested outside the callback of [m], the
      monitor is destroyed (its [free] callback called, if it was
      registered with one) as the very next event; when it is requested
      while [m] is inside its callback, [m] is not destroyed before that
      callback returns and is destroyed as the very next event after the
      return;
    - [m] is destroyed at most once, and exactly once, reporting the flag
      it was registered with, when its removal was requested and the run
      has come to its end without crashing.
    A run that steps onto an erased list node, or fails the [assert] of
    [remove_gui_monitor], stops there; the first three properties and
    "at most once" hold for its events as well. *)
Theorem monitor_removal_protocol cs m :
  let g := run_calls cs initial_gui in
  let tr := log g in
  (forall l1 l2, tr = l1 ++ ev_remove_requested m :: l2 -> ev_proc_called m ∉ l2) /\
  (forall l1 l2 l3, tr = l1 ++ ev_proc_called m :: l2 ++ ev_proc_called m :: l3 ->
                    ev_proc_returned m ∈ l2) /\
  (forall l1 l2, tr = l1 ++ ev_remove_requested m :: l2 ->
     exists f, ev_added m f ∈ l1 /\
       if in_callback m l1 then
         ((ev_proc_returned m ∉ l2) /\ Forall (fun e => destroys m e = false) l2 /\
          crashed g = true) \/
         (exists l3 l4, l2 = l3 ++ ev_proc_returned m :: ev_deleted m f :: l4 /\
                        (ev_proc_returned m ∉ l3) /\
                        Forall (fun e => destroys m e = false) l3)
       else exists l3, l2 = ev_deleted m f :: l3) /\
  (length (filter (fun e => destroys m e = true) tr) <= 1)%nat /\
  (crashed g = false -> ev_remove_requested m ∈ tr ->
   exists f, ev_added m f ∈ tr /\
             filter (fun e => destroys m e = true) tr = [ev_deleted m f]).
Proof.
  intros g tr.
  destruct (monitors_inv_run_calls cs) as [Hinv Hunlocked]. fold g in Hinv, Hunlocked.
  destruct Hinv as ((P & Hrun & Hexp & Hphases) & _). fold tr in Hrun.
  assert (Hflags0 : flags_registered initial_protocol []).
  { intros m' f. cbn. by rewrite lookup_empty. }
  assert (Hcount : destroyed_count (phases P !! m) =
                   length (filter (fun e => destroys m e = true) tr)).
  { rewrite (destroyed_count_run m tr initial_protocol P Hrun). cbn.
    by rewrite lookup_empty. }
  assert (Hremoved : forall l1 l2, tr = l1 ++ ev_remove_requested m :: l2 ->
            exists P1 P2, protocol_run (Some initial_protocol) l1 = Some P1 /\
                          protocol_step P1 (ev_remove_requested m) = Some P2 /\
                          protocol_run (Some P2) l2 = Some P).
  { intros l1 l2 Htr. rewrite Htr in Hrun.
    apply protocol_run_Some_app in Hrun as (P1 & Hrun1 & Hrun2).
    rewrite protocol_run_cons in Hrun2.
    destruct (protocol_step P1 (ev_remove_requested m)) as [P2|] eqn:Hstep;
      [|by rewrite protocol_run_None in Hrun2].
    eauto. }
  assert (Hfinal : crashed g = false -> removal_phase (phases P !! m) ->
                   phases P !! m = Some Destroyed).
  { intros Hok Hph. rewrite Hphases in *. unfold state_phase in *.
    specialize (Hunlocked Hok m). unfold is_locked in Hunlocked.
    destruct (objects g !! m) as [mon|]; [|by case_decide].
    rewrite Hunlocked in Hph. done. }
  split_and!.
  - intros l1 l2 Htr. destruct (Hremoved l1 l2 Htr) as (P1 & P2 & _ & Hstep & Hrun2).
    eapply no_call_in_removal_phase; [|exact Hrun2]. by eapply removal_requested_step.
  - intros l1 l2 l3 Htr. rewrite Htr in Hrun.
    apply protocol_run_Some_app in Hrun as (P1 & _ & Hrun2).
    rewrite protocol_run_cons in Hrun2.
    destruct (protocol_step P1 (ev_proc_called m)) as [P2|] eqn:Hstep;
      [|by rewrite protocol_run_None in Hrun2].
    apply protocol_run_Some_app in Hrun2 as (P3 & Hrun3 & Hrun4).
    rewrite protocol_run_cons in Hrun4.
    destruct (protocol_step P3 (ev_proc_called m)) as [P4|] eqn:Hstep';
      [|by rewrite protocol_run_None in Hrun4].
    destruct (decide (ev_proc_returned m ∈ l2)) as [|Hnin]; [done|exfalso].
    destruct (no_call_in_callback_phase m l2 P2 P3) as [_ Hph3];
      [by eapply proc_called_step|done..|].
    by destruct (callback_phase_step P3 _ P4 m Hph3 Hstep') as [? _].
  - intros l1 l2 Htr. destruct (Hremoved l1 l2 Htr) as (P1 & P2 & Hrun1 & Hstep & Hrun2).
    destruct (flags_registered_run l1 initial_protocol P1 [] Hflags0 Hrun1) as [Hflags1 _].
    cbn in Hflags1.
    pose proof (in_callback_phase m l1 P1 Hrun1) as Hcb.
    destruct (remove_requested_cases P1 m P2 Hstep)
      as [(f & Hph1 & Hexp2 & Hph2)|(f & Hph1 & Hexp2 & Hph2)];
      exists f; (split; [apply Hflags1; by rewrite Hph1|]).
    + destruct (in_callback m l1).
      { rewrite Hph1 in Hcb. cbn in Hcb. destruct Hcb as [Hcb _]. by specialize (Hcb eq_refl). }
      destruct (expecting_next P2 m l2 P Hexp2 Hrun2) as [[-> ->]|(f' & l' & -> & Hfin)];
        [congruence|]. rewrite Hph2 in Hfin. simplify_eq. eauto.
    + destruct (in_callback m l1) eqn:Hin.
      2:{ rewrite Hph1 in Hcb. cbn in Hcb. destruct Hcb as [_ Hcb]. by specialize (Hcb I). }
      destruct (pending_delete_run m f l2 P2 P Hph2) as
        [(Hnin & Hall & Hph)|(l3 & l4 & -> & Hnin & Hall & Hrest)]; [congruence|done|..].
      * left. split_and!; [done..|].
        destruct (crashed g) eqn:Hcrash; [done|].
        rewrite Hfinal in Hph; [done|done|]. by rewrite Hph.
      * right. destruct Hrest as [[-> Hexp']|[l5 ->]]; [congruence|]. eauto.
  - rewrite <- Hcount. unfold destroyed_count. repeat case_match; lia.
  - intros Hok (l1 & l2 & Htr)%list_elem_of_split.
    destruct (Hremoved l1 l2 Htr) as (P1 & P2 & _ & Hstep & Hrun2).
    destruct (no_call_in_removal_phase m l2 P2 P) as [_ Hph];
      [by eapply removal_requested_step|done|].
    rewrite (Hfinal Hok Hph) in Hcount. cbn in Hcount.
    destruct (filter (fun e => destroys m e = true) tr) as [|e [|e' l]] eqn:Hfilter;
      cbn in Hcount; try lia.
    assert (He : e ∈ filter (fun e => destroys m e = true) tr).
    { rewrite Hfilter. by apply list_elem_of_singleton. }
    apply list_elem_of_filter in He as [Hdes He].
    destruct e as [| | | |m' f]; try done. cbn in Hdes.
    apply bool_decide_eq_true in Hdes as ->.
    exists f. split; [|done].
    destruct (flags_registered_run tr initial_protocol P [] Hflags0 Hrun) as [_ Hdel].
    by apply Hdel.
Qed.

(** Two monitors; at the timer message the first one removes itself from
    inside its callback: it is destroyed once, right after the callback
    returns, and the second monitor is polled as usual. *)
Lemma monitor_self_removal_witness :
  let g := run_calls [call_add_gui_monitor true; call_add_gui_monitor false;
                      call_timer_message [[call_remove_gui_monitor 0%nat]]] initial_gui in
  log g = [ev_added 0%nat true; ev_added 1%nat false;
           ev_proc_called 0%nat; ev_remove_requested 0%nat; ev_proc_returned 0%nat;
           ev_deleted 0%nat true;
           ev_proc_called 1%nat; ev_proc_returned 1%nat] /\
  crashed g = false /\
  (ev_proc_called 0%nat ∉ [ev_proc_returned 0%nat; ev_deleted 0%nat true;
                            ev_proc_called 1%nat; ev_proc_returned 1%nat]) /\
  exists f, filter (fun e => destroys 0%nat e = true) (log g) = [ev_deleted 0%nat f].
Proof.
  intros g. split; [reflexivity|]. split; [reflexivity|].
  pose proof (monitor_removal_protocol
                [call_add_gui_monitor true; call_add_gui_monitor false;
                 call_timer_message [[call_remove_gui_monitor 0%nat]]] 0%nat)
    as (Hnever & _ & _ & _ & Honce).
  split.
  - apply (Hnever [ev_added 0%nat true; ev_added 1%nat false; ev_proc_called 0%nat]
                  [ev_proc_returned 0%nat; ev_deleted 0%nat true;
                   ev_proc_called 1%nat; ev_proc_returned 1%nat]).
    reflexivity.
  - destruct (Honce eq_refl) as (f & _ & Hfilter).
    + apply list_elem_of_In. vm_compute. tauto.
    + exists f. exact Hfilter.
Defined.

(** C2, at the input where the code breaks it.  The monitors [0] and [1]
    are registered in this order and the timer message arrives; the
    callback of [0] calls [remove_gui_monitor] on [1].  Monitor [1] is not
    inside its callback, so it is destroyed at once, and [erase] frees its
    list node: the node that [next] refers to.  When the callback of [0]
    has returned the loop does [it = next] and goes on from the invalidated
    iterator.  That is undefined behaviour (a run that still finds the
    freed node and the freed [Monitor] as they were calls the callback of
    [1] again, after its removal and its teardown); the model stops the run
    there. *)
Lemma callback_removing_next_monitor_invalidates_iterator :
  let g := run_calls [call_add_gui_monitor true; call_add_gui_monitor true;
                      call_timer_message [[call_remove_gui_monitor 1%nat]]] initial_gui in
  crash g = Some invalid_iterator /\
  log g = [ev_added 0%nat true; ev_added 1%nat true;
           ev_proc_called 0%nat; ev_remove_requested 1%nat; ev_deleted 1%nat true;
           ev_proc_returned 0%nat] /\
  monitors g = [0%nat] /\
  objects g !! 1%nat = None.
Proof. vm_compute. split_and!; reflexivity. Qed.

(** The same defect is reached when every removal is a removal of the
    running monitor by its own callback: the callback of [0] runs an event
    loop in which the timer message arrives again; there [0] is locked and
    skipped, and [1] is polled and removes itself.  Its destruction is
    deferred to the return of its callback, as it should, but its node is
    the one that [next] refers to in the loop of the first message. *)
Lemma self_removal_in_nested_loop_invalidates_iterator :
  let g := run_calls [call_add_gui_monitor true; call_add_gui_monitor true;
                      call_timer_message
                        [[call_timer_message [[]; [call_remove_gui_monitor 1%nat]]]]]
             initial_gui in
  crash g = Some invalid_iterator /\
  log g = [ev_added 0%nat true; ev_added 1%nat true;
           ev_proc_called 0%nat;
           ev_proc_called 1%nat; ev_remove_requested 1%nat; ev_proc_returned 1%nat;
           ev_deleted 1%nat true;
           ev_proc_returned 0%nat].
Proof. vm_compute. split; reflexivity. Qed.

(** * The rest of the module *)

(** ** Keyboard shortcuts: lookups *)

Section shortcut_lookup_facts.
Context `{Collaborators}.

(** A binding leaves the shortcuts in place and adds at most one, at the
    back, for the target it names. *)
Lemma shortcuts_run_bind t op :
  shortcuts (run_bind t op) = shortcuts t /\ bound_target op ∈ target <$> shortcuts t \/
  shortcuts (run_bind t op) =
    shortcuts t ++ [ {| accel := length (accels t); target := bound_target op |} ].
Proof.
  destruct op as [k n p|k tool]; cbn [run_bind bound_target].
  - rewrite shortcuts_add_command.
    destruct (get_keyboard_shortcut_for_command n p t) as [[i s]|] eqn:Hfind; [left|by right].
    split; [done|]. unfold get_keyboard_shortcut_for_command in Hfind.
    destruct (get_command_by_name n) as [c|]; [|done].
    apply list_find_Some in Hfind as (Hi & Hs & _).
    apply is_shortcut_for_command_spec in Hs. rewrite <- Hs.
    apply list_elem_of_fmap. exists s. split; [done|]. by eapply list_elem_of_lookup_2.
  - rewrite shortcuts_add_tool.
    destruct (get_keyboard_shortcut_for_tool tool t) as [[i s]|] eqn:Hfind; [left|by right].
    split; [done|]. apply list_find_Some in Hfind as (Hi & Hs & _).
    apply is_shortcut_for_tool_spec in Hs. rewrite <- Hs.
    apply list_elem_of_fmap. exists s. split; [done|]. by eapply list_elem_of_lookup_2.
Qed.

(** The targets of the table are the targets that were bound. *)
Lemma targets_run_binds ops tg :
  tg ∈ target <$> shortcuts (run_binds ops empty_table) <-> tg ∈ bound_target <$> ops.
Proof.
  induction ops as [|op ops IH] using rev_ind.
  - cbn. split; intros Hin; by apply elem_of_nil in Hin.
  - rewrite run_binds_snoc, fmap_app, elem_of_app. cbn [fmap list_fmap].
    rewrite list_elem_of_singleton.
    destruct (shortcuts_run_bind (run_binds ops empty_table) op) as [[-> Hin]| ->].
    + rewrite IH. split; [by left|]. intros [?| ->]; [done|]. by apply IH.
    + rewrite fmap_app, elem_of_app, IH. cbn. by rewrite list_elem_of_singleton.
Qed.

Lemma get_accel_to_change_tool_is_Some tool t :
  is_Some (get_accel_to_change_tool tool t) <->
  Shortcut_ChangeTool tool ∈ target <$> shortcuts t.
Proof.
  unfold get_accel_to_change_tool, get_keyboard_shortcut_for_tool.
  destruct (list_find _ (shortcuts t)) as [[i s]|] eqn:Hfind.
  - split; [intros _|by eauto].
    apply list_find_Some in Hfind as (Hi & Hs & _).
    apply is_shortcut_for_tool_spec in Hs. rewrite <- Hs.
    apply list_elem_of_fmap. exists s. split; [done|]. by eapply list_elem_of_lookup_2.
  - split; [by intros [? ?]|]. intros (s & Hs & Hin)%list_elem_of_fmap.
    apply list_find_None in Hfind. rewrite Forall_forall in Hfind.
    destruct (Hfind s Hin). by apply is_shortcut_for_tool_spec.
Qed.

Lemma get_accel_to_execute_command_is_Some n p t :
  is_Some (get_accel_to_execute_command n p t) <->
  exists c, get_command_by_name n = Some c /\
            Shortcut_ExecuteCommand (Some c) (default ∅ p) ∈ target <$> shortcuts t.
Proof.
  unfold get_accel_to_execute_command, get_keyboard_shortcut_for_command.
  destruct (get_command_by_name n) as [c|]; [|split; [by intros [? ?]|by intros (? & ? & _)]].
  destruct (list_find _ (shortcuts t)) as [[i s]|] eqn:Hfind.
  - split; [intros _|by eauto]. exists c. split; [done|].
    apply list_find_Some in Hfind as (Hi & Hs & _).
    apply is_shortcut_for_command_spec in Hs. rewrite <- Hs.
    apply list_elem_of_fmap. exists s. split; [done|]. by eapply list_elem_of_lookup_2.
  - split; [by intros [? ?]|]. intros (c' & [= <-] & (s & Hs & Hin)%list_elem_of_fmap).
    apply list_find_None in Hfind. rewrite Forall_forall in Hfind.
    destruct (Hfind s Hin). by apply is_shortcut_for_command_spec.
Qed.

End shortcut_lookup_facts.

Section shortcut_lookup_properties.
Context `{Collaborators}.

(** After any sequence of bindings, [get_accel_to_change_tool] finds an
    accelerator exactly for the tools that were bound, and
    [get_accel_to_execute_command] exactly for the names that the registry
    knows and whose command was bound with the same parameters (absent
    parameters being the empty set); in particular both return NULL on the
    table before any binding. *)
Theorem lookup_succeeds_exactly_for_bound_targets ops n p tool :
  let t := run_binds ops empty_table in
  (is_Some (get_accel_to_change_tool tool t) <-> exists k, bind_tool k tool ∈ ops) /\
  (is_Some (get_accel_to_execute_command n p t) <->
   exists c k n' p', get_command_by_name n = Some c /\ bind_command k n' p' ∈ ops /\
                     get_command_by_name n' = Some c /\ default ∅ p' = default ∅ p) /\
  get_accel_to_change_tool tool empty_table = None /\
  get_accel_to_execute_command n p empty_table = None.
Proof.
  intros t. split_and!.
  - rewrite get_accel_to_change_tool_is_Some. unfold t. rewrite targets_run_binds.
    rewrite list_elem_of_fmap. split.
    + intros ([k' n' p'|k tool'] & Heq & Hin); [done|]. cbn in Heq. simplify_eq. eauto.
    + intros (k & Hin). by exists (bind_tool k tool).
  - rewrite get_accel_to_execute_command_is_Some. unfold t. split.
    + intros (c & Hc & Hin). rewrite targets_run_binds, list_elem_of_fmap in Hin.
      destruct Hin as ([k' n' p'|k tool'] & Heq & Hin); [|done]. cbn in Heq.
      simplify_eq. by exists c, k', n', p'.
    + intros (c & k & n' & p' & Hc & Hin & Hc' & Hp). exists c. split; [done|].
      rewrite targets_run_binds, list_elem_of_fmap. exists (bind_command k n' p').
      split; [|done]. cbn. by rewrite Hc', Hp.
  - reflexivity.
  - unfold get_accel_to_execute_command, get_keyboard_shortcut_for_command. cbn.
    by destruct (get_command_by_name n).
Qed.

(** Binding a tool and looking it up: for every tool, every chord string
    of at most 253 bytes and every table built by bindings whose chord
    strings have at most 253 bytes, [add_keyboard_shortcut_to_change_tool]
    stays within the buffer of [Shortcut::add_shortcut],
    [get_accel_to_change_tool] returns the accelerator that it returned, an
    event presses that accelerator exactly when it pressed it before or
    presses the chord, and the tool's own shortcut is pressed exactly when
    the accelerator is. *)
Theorem bind_tool_then_find_returns_its_accel ops k tool msg :
  chords_fit ops -> chord_fits k ->
  let t := run_binds ops empty_table in
  let r := add_keyboard_shortcut_to_change_tool k tool t in
  buf_overrun (snd r) = false /\
  get_accel_to_change_tool tool (snd r) = Some (fst r) /\
  accel_pressed (snd r) (fst r) msg = accel_pressed t (fst r) msg || chord_pressed k msg /\
  tool_pressed (snd r) msg tool = accel_pressed (snd r) (fst r) msg.
Proof.
  intros Hops Hk t r.
  destruct (lookup_after_add_tool k tool t) as (i & s & Hfind & Hacc). fold r in Hfind, Hacc.
  split_and!.
  - pose proof (buf_overrun_run_bind t (bind_tool k tool)) as Hbuf.
    cbn [run_bind op_chord] in Hbuf. subst r. rewrite Hbuf.
    subst t. rewrite (chords_fit_run_binds ops Hops). by apply chord_fits_ltb.
  - unfold get_accel_to_change_tool. by rewrite Hfind, Hacc.
  - apply accel_pressed_after_add_tool, accels_allocated_run_binds.
  - unfold tool_pressed. rewrite Hfind. unfold is_key_pressed, accel_pressed. by rewrite Hacc.
Qed.

End shortcut_lookup_properties.

(** A tool bound to "B" after a command: pressing B presses the
    accelerator of the tool. *)
Lemma bind_tool_then_find_witness :
  let ops := [bind_command "Ctrl+N" "new_file" None] in
  let t := @run_binds sample_collaborators ops empty_table in
  let r := @add_keyboard_shortcut_to_change_tool sample_collaborators "B" 10%nat t in
  chords_fit ops /\ chord_fits "B" /\
  buf_overrun (snd r) = false /\
  get_accel_to_change_tool 10%nat (snd r) = Some (fst r).
Proof.
  intros ops t r.
  assert (Hops : chords_fit ops).
  { constructor; [unfold chord_fits; cbn; lia|constructor]. }
  assert (Hk : chord_fits "B") by (unfold chord_fits; cbn; lia).
  split; [exact Hops|]. split; [exact Hk|].
  destruct (@bind_tool_then_find_returns_its_accel sample_collaborators
              ops "B" 10%nat key_N Hops Hk) as (Hbuf & Hfind & _).
  exact (conj Hbuf Hfind).
Defined.

Section shortcut_ownership_facts.
Context `{Collaborators}.

Lemma accels_owned_run_bind t op : accels_owned t -> accels_owned (run_bind t op).
Proof.
  unfold accels_owned. intros Hown.
  destruct op as [k n p|k tool]; cbn [run_bind].
  - rewrite shortcuts_add_command, length_accels_add_command.
    destruct (get_keyboard_shortcut_for_command n p t); [done|].
    rewrite fmap_app, Hown, seq_S. reflexivity.
  - rewrite shortcuts_add_tool, length_accels_add_tool.
    destruct (get_keyboard_shortcut_for_tool tool t); [done|].
    rewrite fmap_app, Hown, seq_S. reflexivity.
Qed.

Lemma accels_owned_run_binds ops t : accels_owned t -> accels_owned (run_binds ops t).
Proof.
  revert t. induction ops as [|op ops IH]; intros t Hown; [done|].
  cbn. apply IH. by apply accels_owned_run_bind.
Qed.

Lemma accels_owned_lookup t i s :
  accels_owned t -> shortcuts t !! i = Some s -> accel s = i /\ (i < length (accels t))%nat.
Proof.
  intros Hown Hi.
  assert (Hs : (accel <$> shortcuts t) !! i = Some (accel s)).
  { by rewrite list_lookup_fmap, Hi. }
  rewrite Hown in Hs. apply lookup_seq in Hs as [-> ?]. done.
Qed.

Lemma accels_owned_allocated t : accels_owned t -> accels_allocated t.
Proof.
  intros Hown. apply Forall_lookup. intros i s Hi.
  by destruct (accels_owned_lookup t i s Hown Hi) as [-> ?].
Qed.

(** A binding keeps the shortcut that a lookup finds. *)
Lemma list_find_run_bind (P : Shortcut -> Prop) `{!forall s, Decision (P s)} t op i s :
  list_find P (shortcuts t) = Some (i, s) ->
  list_find P (shortcuts (run_bind t op)) = Some (i, s).
Proof.
  intros Hfind. destruct (shortcuts_run_bind t op) as [[-> _]| ->]; [done|].
  by apply list_find_app_l.
Qed.

(** A binding keeps what every accelerator matches. *)
Lemma accel_pressed_run_bind_mono t op a msg :
  accel_pressed t a msg = true -> accel_pressed (run_bind t op) a msg = true.
Proof.
  intros Hpressed.
  assert (Hnew : forall s k,
    accel_pressed
      (add_shortcut s k {| accels := accels t ++ [[]]; shortcuts := shortcuts t ++ [s];
                           buf_overrun := buf_overrun t |})
      a msg = true).
  { intros s k. apply accel_pressed_add_shortcut_mono.
    unfold accel_pressed in *. cbn [accels].
    destruct (accels t !! a) as [keys|] eqn:Ha; [|done].
    by rewrite (lookup_app_l_Some _ _ _ _ Ha). }
  destruct op as [k n p|k tool]; cbn [run_bind].
  - unfold add_keyboard_shortcut_to_execute_command.
    destruct (get_keyboard_shortcut_for_command n p t) as [[i s]|]; cbn [snd].
    + by apply accel_pressed_add_shortcut_mono.
    + apply Hnew.
  - unfold add_keyboard_shortcut_to_change_tool.
    destruct (get_keyboard_shortcut_for_tool tool t) as [[i s]|]; cbn [snd].
    + by apply accel_pressed_add_shortcut_mono.
    + apply Hnew.
Qed.

End shortcut_ownership_facts.

Section shortcut_key_lookup_facts.
Context `{Collaborators}.

(** Binding a command changes no accelerator but the one it returns. *)
Lemma accels_after_add_command_other k n p t a :
  (a < length (accels t))%nat ->
  a <> fst (add_keyboard_shortcut_to_execute_command k n p t) ->
  accels (snd (add_keyboard_shortcut_to_execute_command k n p t)) !! a = accels t !! a.
Proof.
  unfold add_keyboard_shortcut_to_execute_command.
  destruct (get_keyboard_shortcut_for_command n p t) as [[i s]|];
    cbn [fst snd jaccel_new add_shortcut jaccel_add_keys_from_string accels accel];
    intros Hlt Hne.
  - by rewrite list_lookup_alter_ne.
  - rewrite list_lookup_alter_ne by done. by apply lookup_app_l.
Qed.

(** The shortcut of the command after the binding: its position, and the
    positions of the shortcuts that were there before. *)
Lemma shortcut_after_add_command k n c p t :
  accels_owned t -> get_command_by_name n = Some c ->
  let r := add_keyboard_shortcut_to_execute_command k n p t in
  exists s, shortcuts (snd r) !! fst r = Some s /\ accel s = fst r /\
            target s = Shortcut_ExecuteCommand (Some c) (default ∅ p) /\
            forall j y, shortcuts (snd r) !! j = Some y -> j <> fst r ->
                        shortcuts t !! j = Some y.
Proof.
  intros Hown Hc r. subst r.
  pose proof (shortcuts_add_command k n p t) as Hshortcuts.
  unfold add_keyboard_shortcut_to_execute_command, jaccel_new in *.
  destruct (get_keyboard_shortcut_for_command n p t) as [[i s]|] eqn:Hfind;
    cbn [fst snd accel] in *.
  - exists s. rewrite Hshortcuts.
    pose proof (get_keyboard_shortcut_for_command_elem _ _ _ _ _ Hfind) as Hi.
    destruct (accels_owned_lookup t i s Hown Hi) as [Hacc _].
    unfold get_keyboard_shortcut_for_command in Hfind. rewrite Hc in Hfind.
    apply list_find_Some in Hfind as (_ & Hs & _).
    apply is_shortcut_for_command_spec in Hs.
    rewrite Hacc. split_and!; done.
  - rewrite Hshortcuts, Hc.
    assert (Hlen : length (shortcuts t) = length (accels t)).
    { unfold accels_owned in Hown.
      by rewrite <- (length_fmap accel), Hown, length_seq. }
    eexists. split_and!.
    + rewrite lookup_app_r by lia. rewrite Hlen, Nat.sub_diag. reflexivity.
    + reflexivity.
    + reflexivity.
    + intros j y Hj Hne. apply lookup_app_Some in Hj as [Hj|[Hge Hj]]; [done|].
      apply list_lookup_singleton_Some in Hj as [Hj _]. lia.
Qed.

End shortcut_key_lookup_facts.

Section shortcut_ownership_properties.
Context `{Collaborators}.

(** Bindings are never lost: whatever is bound later, a lookup that found
    an accelerator for a command or a tool goes on returning the same
    accelerator, and an event that an accelerator matched still matches
    it. *)
Theorem later_bindings_keep_accels ops : forall t n p tool a msg,
  let t' := run_binds ops t in
  (get_accel_to_execute_command n p t = Some a ->
   get_accel_to_execute_command n p t' = Some a) /\
  (get_accel_to_change_tool tool t = Some a ->
   get_accel_to_change_tool tool t' = Some a) /\
  (accel_pressed t a msg = true -> accel_pressed t' a msg = true).
Proof.
  induction ops as [|op ops IH]; intros t n p tool a msg; [done|].
  cbn. destruct (IH (run_bind t op) n p tool a msg) as (IHc & IHt & IHp).
  split_and!.
  - intros Hfind. apply IHc.
    unfold get_accel_to_execute_command, get_keyboard_shortcut_for_command in *.
    destruct (get_command_by_name n) as [c|]; [|done].
    destruct (list_find _ (shortcuts t)) as [[i s]|] eqn:Hi; [|done].
    by rewrite (list_find_run_bind _ t op i s Hi).
  - intros Hfind. apply IHt.
    unfold get_accel_to_change_tool, get_keyboard_shortcut_for_tool in *.
    destruct (list_find _ (shortcuts t)) as [[i s]|] eqn:Hi; [|done].
    by rewrite (list_find_run_bind _ t op i s Hi).
  - intros Hpressed. by apply IHp, accel_pressed_run_bind_mono.
Qed.

(** Shutdown frees every accelerator once: in a table built by bindings
    the shortcuts own the accelerators of the store one each, in order, so
    the loop of [exit_module_gui] passes every accelerator that the module
    allocated to [jaccel_free] exactly once. *)
Theorem exit_frees_every_accel_once ops :
  let t := run_binds ops empty_table in
  exit_module_gui_shortcuts t = seq 0 (length (accels t)) /\
  NoDup (exit_module_gui_shortcuts t) /\
  (forall a, a ∈ exit_module_gui_shortcuts t <-> (a < length (accels t))%nat) /\
  length (shortcuts t) = length (accels t).
Proof.
  intros t.
  assert (Hown : accels_owned t) by by apply accels_owned_run_binds.
  unfold exit_module_gui_shortcuts. rewrite Hown. split_and!.
  - done.
  - apply NoDup_seq.
  - intros a. rewrite elem_of_seq. lia.
  - unfold accels_owned in Hown. by rewrite <- (length_fmap accel), Hown, length_seq.
Qed.

End shortcut_ownership_properties.

Section key_message_properties.
Context `{Collaborators}.

(** [get_command_from_key_message] and the key handler agree: whenever the
    handler executes a command for an event, [get_command_from_key_message]
    returns that command for the event.  A command that it returns is the
    command of a shortcut that the event presses, the first such shortcut
    of type [Shortcut_ExecuteCommand]; and when the event presses no
    shortcut at all it returns NULL and the handler does nothing. *)
Theorem get_command_from_key_message_agrees_with_handler
    t current_tool children top_window msg :
  (forall c p,
     manager_msg_proc_keypressed t current_tool children top_window msg =
       Returned (Some (execute_command c p)) true ->
     get_command_from_key_message t msg = Some c) /\
  (forall c, get_command_from_key_message t msg = Some c ->
     exists i s p,
       shortcuts t !! i = Some s /\ target s = Shortcut_ExecuteCommand (Some c) p /\
       is_key_pressed t s msg = true /\
       forall j s', shortcuts t !! j = Some s' -> (j < i)%nat ->
                    is_pressed_command_shortcut t msg s' = false) /\
  (Forall (fun s => is_key_pressed t s msg = false) (shortcuts t) ->
   get_command_from_key_message t msg = None /\
   manager_msg_proc_keypressed t current_tool children top_window msg =
     Returned None false).
Proof.
  split_and!.
  - intros c p Hexec. unfold manager_msg_proc_keypressed in Hexec.
    destruct (list_find (fun s => is_key_pressed t s msg = true) (shortcuts t))
      as [[i s]|] eqn:Hfind; [|done].
    apply list_find_Some in Hfind as (Hi & Hs & Hbefore).
    destruct (target s) as [[c'|] p'|tool] eqn:Htg.
    + assert (c' = c) as ->.
      { destruct (String.eqb _ _); [by simplify_eq|].
        destruct (scan_children _ _); by simplify_eq. }
      unfold get_command_from_key_message.
      erewrite (proj2 (list_find_Some _ _ i s)); [by rewrite Htg|].
      split_and!; [done|unfold is_pressed_command_shortcut; by rewrite Htg|].
      intros j y Hj Hlt. unfold is_pressed_command_shortcut.
      specialize (Hbefore j y Hj Hlt). destruct (target y); [done|]. done.
    + done.
    + by destruct (collect_group _ _ _).
  - intros c Hc. unfold get_command_from_key_message in Hc.
    destruct (list_find _ (shortcuts t)) as [[i s]|] eqn:Hfind; [|done].
    apply list_find_Some in Hfind as (Hi & Hs & Hbefore).
    unfold is_pressed_command_shortcut in Hs.
    destruct (target s) as [c' p|tool] eqn:Htg; [|done]. subst c'.
    exists i, s, p. split_and!; try done.
    intros j s' Hj Hlt. specialize (Hbefore j s' Hj Hlt).
    by destruct (is_pressed_command_shortcut t msg s').
  - intros Hnone. split.
    + unfold get_command_from_key_message.
      rewrite (proj2 (list_find_None _ (shortcuts t))); [done|].
      eapply Forall_impl; [exact Hnone|]. intros s Hs. cbn.
      unfold is_pressed_command_shortcut. rewrite Hs. by destruct (target s).
    + unfold manager_msg_proc_keypressed.
      rewrite (proj2 (list_find_None _ (shortcuts t))); [done|].
      eapply Forall_impl; [exact Hnone|]. intros s Hs. cbn. by rewrite Hs.
Qed.

(** Binding a command, then pressing its chord: on a table built by
    bindings whose chord strings have at most 253 bytes, if the only
    shortcuts of commands that the event already presses are shortcuts of
    the command being bound, then [add_keyboard_shortcut_to_execute_command]
    with a name that the registry knows and a chord string of at most 253
    bytes stays within the buffer of [Shortcut::add_shortcut], and after it
    every event that presses the chord is resolved to that command by
    [get_command_from_key_message]. *)
Theorem bound_command_is_found_from_key_message ops k n c p msg :
  let t := run_binds ops empty_table in
  chords_fit ops -> chord_fits k ->
  get_command_by_name n = Some c ->
  chord_pressed k msg = true ->
  Forall (fun s => is_pressed_command_shortcut t msg s = true ->
                   exists q, target s = Shortcut_ExecuteCommand (Some c) q) (shortcuts t) ->
  buf_overrun (snd (add_keyboard_shortcut_to_execute_command k n p t)) = false /\
  get_command_from_key_message
    (snd (add_keyboard_shortcut_to_execute_command k n p t)) msg = Some c.
Proof.
  intros t Hops Hk Hc Hchord Hothers.
  split.
  { pose proof (buf_overrun_run_bind t (bind_command k n p)) as Hbuf.
    cbn [run_bind op_chord] in Hbuf. rewrite Hbuf.
    subst t. rewrite (chords_fit_run_binds ops Hops). by apply chord_fits_ltb. }
  assert (Hown : accels_owned t) by by apply accels_owned_run_binds.
  set (r := add_keyboard_shortcut_to_execute_command k n p t).
  destruct (shortcut_after_add_command k n c p t Hown Hc) as (s & Hs & Hacc & Htg & Hold).
  fold r in Hs, Hacc, Hold.
  assert (Hpressed : is_pressed_command_shortcut (snd r) msg s = true).
  { unfold is_pressed_command_shortcut. rewrite Htg.
    pose proof (accel_pressed_after_add_command k n p t msg
                  (accels_owned_allocated t Hown)) as Hp.
    cbv zeta in Hp. fold r in Hp. unfold is_key_pressed. rewrite Hacc.
    unfold accel_pressed in Hp at 1. rewrite Hp, Hchord. apply orb_true_r. }
  unfold get_command_from_key_message.
  destruct (list_find_elem_of
              (fun s => is_pressed_command_shortcut (snd r) msg s = true)
              (shortcuts (snd r)) s (list_elem_of_lookup_2 _ _ _ Hs) Hpressed)
    as [[j y] Hfind].
  rewrite Hfind. apply list_find_Some in Hfind as (Hj & Hy & _).
  destruct (decide (j = fst r)) as [->|Hne].
  - rewrite Hs in Hj. simplify_eq. by rewrite Htg.
  - specialize (Hold j y Hj Hne).
    destruct (accels_owned_lookup t j y Hown Hold) as [Haccy Hlt].
    assert (Hsame : is_pressed_command_shortcut t msg y = true).
    { unfold is_pressed_command_shortcut, is_key_pressed in *.
      destruct (target y); [|done].
      rewrite Haccy in *. unfold r in Hy.
      by rewrite accels_after_add_command_other in Hy. }
    rewrite Forall_forall in Hothers.
    destruct (Hothers y (list_elem_of_lookup_2 _ _ _ Hold) Hsame) as [q Hq].
    by rewrite Hq.
Qed.

End key_message_properties.

(** The tool of "N" is bound first; then "N" is bound to a command. *)
Lemma bound_command_is_found_witness :
  @get_command_from_key_message
    (snd (@add_keyboard_shortcut_to_execute_command sample_collaborators "N" "new_file" None
            (@run_binds sample_collaborators [bind_tool "N" 10%nat] empty_table)))
    key_N = Some cmd_new_file.
Proof.
  refine (proj2 (@bound_command_is_found_from_key_message sample_collaborators
                   [bind_tool "N" 10%nat] "N" "new_file" cmd_new_file None key_N
                   _ _ _ _ _)).
  - constructor; [unfold chord_fits; cbn; lia|constructor].
  - unfold chord_fits. cbn. lia.
  - reflexivity.
  - reflexivity.
  - repeat constructor. cbn. intros Hf. discriminate Hf.
Defined.

(** ** Monitors: shutdown and the order of polling *)

(** The flag that a monitor was registered with stays with it until it is
    destroyed, and its destruction reports it. *)
Lemma flag_kept_step P e P' m f :
  phase_flag (phases P !! m) = Some f -> protocol_step P e = Some P' ->
  phase_flag (phases P' !! m) = Some f \/
  (phases P' !! m = Some Destroyed /\ e = ev_deleted m f).
Proof.
  intros Hph Hstep. protocol_cases Hstep; phase_after_step.
  all: try (match goal with H : phases _ !! _ = _ |- _ => rewrite H in Hph end;
            cbn in Hph; simplify_eq; auto).
  all: auto.
Qed.

Lemma destroyed_step P e P' m :
  phases P !! m = Some Destroyed -> protocol_step P e = Some P' ->
  phases P' !! m = Some Destroyed.
Proof.
  intros Hph Hstep. protocol_cases Hstep; phase_after_step.
Qed.

Lemma destroyed_run m l : forall P P',
  phases P !! m = Some Destroyed -> protocol_run (Some P) l = Some P' ->
  phases P' !! m = Some Destroyed.
Proof.
  induction l as [|e l IH]; intros P P' Hph Hrun.
  - cbn in Hrun. by simplify_eq.
  - rewrite protocol_run_cons in Hrun.
    destruct (protocol_step P e) as [P1|] eqn:Hstep; [|by rewrite protocol_run_None in Hrun].
    eapply IH; [|done]. by eapply destroyed_step.
Qed.

Lemma flag_kept_run m f l : forall P P',
  phase_flag (phases P !! m) = Some f -> protocol_run (Some P) l = Some P' ->
  phase_flag (phases P' !! m) = Some f \/
  (phases P' !! m = Some Destroyed /\ ev_deleted m f ∈ l).
Proof.
  induction l as [|e l IH]; intros P P' Hph Hrun.
  - cbn in Hrun. simplify_eq. by left.
  - rewrite protocol_run_cons in Hrun.
    destruct (protocol_step P e) as [P1|] eqn:Hstep; [|by rewrite protocol_run_None in Hrun].
    destruct (flag_kept_step P e P1 m f Hph Hstep) as [Hph1|[Hph1 ->]].
    + destruct (IH P1 P' Hph1 Hrun) as [?|[? ?]]; [by left|right].
      split; [done|]. by apply elem_of_cons; right.
    + right. split; [by eapply destroyed_run|]. by apply elem_of_cons; left.
Qed.

Lemma added_flag_run m f l : forall P P',
  protocol_run (Some P) l = Some P' -> ev_added m f ∈ l ->
  phase_flag (phases P' !! m) = Some f \/
  (phases P' !! m = Some Destroyed /\ ev_deleted m f ∈ l).
Proof.
  induction l as [|e l IH]; intros P P' Hrun Hin; [by apply elem_of_nil in Hin|].
  rewrite protocol_run_cons in Hrun.
  destruct (protocol_step P e) as [P1|] eqn:Hstep; [|by rewrite protocol_run_None in Hrun].
  apply elem_of_cons in Hin as [<-|Hin].
  - assert (Hph1 : phase_flag (phases P1 !! m) = Some f).
    { protocol_cases Hstep; phase_after_step. }
    destruct (flag_kept_run m f l P1 P' Hph1 Hrun) as [?|[? ?]]; [by left|right].
    split; [done|]. by apply elem_of_cons; right.
  - destruct (IH P1 P' Hrun Hin) as [?|[? ?]]; [by left|right].
    split; [done|]. by apply elem_of_cons; right.
Qed.

Lemma exit_events_ext o o' l :
  (forall m, m ∈ l -> o !! m = o' !! m) -> exit_events o l = exit_events o' l.
Proof.
  induction l as [|x l IH]; intros Hext; [done|].
  unfold exit_events in *. cbn. rewrite (Hext x) by (by apply elem_of_cons; left).
  rewrite IH; [done|]. intros m Hm. apply Hext. by apply elem_of_cons; right.
Qed.

Lemma exit_events_not_elem o l m :
  m ∉ l -> filter (fun e => destroys m e = true) (exit_events o l) = [].
Proof.
  induction l as [|x l IH]; intros Hnin; [done|].
  apply not_elem_of_cons in Hnin as [Hne Hnin].
  unfold exit_events in *. cbn. destruct (o !! x) as [mon|]; cbn; [|by apply IH].
  rewrite decide_False by (rewrite bool_decide_eq_true; congruence).
  by apply IH.
Qed.

Lemma exit_events_elem o l m mon :
  NoDup l -> m ∈ l -> o !! m = Some mon ->
  filter (fun e => destroys m e = true) (exit_events o l) = [ev_deleted m (free mon)].
Proof.
  induction l as [|x l IH]; intros Hnodup Hin Hm; [by apply elem_of_nil in Hin|].
  apply NoDup_cons in Hnodup as [Hx Hnodup].
  unfold exit_events in *. cbn.
  destruct (decide (x = m)) as [->|Hne].
  - rewrite Hm. cbn. rewrite decide_True by (by rewrite bool_decide_eq_true).
    f_equal. by apply (exit_events_not_elem o l m).
  - apply elem_of_cons in Hin as [?|Hin]; [congruence|].
    destruct (o !! x) as [monx|]; cbn; [|by apply IH].
    rewrite decide_False by (rewrite bool_decide_eq_true; congruence).
    by apply IH.
Qed.

(** The loop of [exit_module_gui] over a list without repetition. *)
Lemma exit_loop_fields l : forall g,
  NoDup l ->
  let g' := foldl (fun g monitor => delete_monitor monitor g) g l in
  log g' = log g ++ exit_events (objects g) l /\
  (forall m, objects g' !! m = if decide (m ∈ l) then None else objects g !! m) /\
  crash g' = crash g.
Proof.
  induction l as [|x l IH]; intros g Hnodup g'.
  - subst g'. cbn. rewrite app_nil_r. split_and!; [done| |done].
    intros m. by rewrite decide_False by apply not_elem_of_nil.
  - apply NoDup_cons in Hnodup as [Hx Hnodup].
    destruct (IH (delete_monitor x g) Hnodup) as (Hlog & Hobj & Hcrash).
    subst g'. cbn [foldl]. rewrite Hlog, Hcrash.
    assert (Hother : forall m, m <> x ->
              objects (delete_monitor x g) !! m = objects g !! m).
    { intros m Hne. unfold delete_monitor. destruct (objects g !! x); [|done].
      cbn. by rewrite lookup_delete_ne. }
    assert (Hself : objects (delete_monitor x g) !! x = None).
    { unfold delete_monitor. destruct (objects g !! x) eqn:Hgx; [|done].
      cbn. by rewrite lookup_delete_eq. }
    split_and!.
    + rewrite (exit_events_ext (objects (delete_monitor x g)) (objects g) l).
      * unfold exit_events at 2. cbn [omap list_omap]. fold (exit_events (objects g) l).
        unfold delete_monitor. destruct (objects g !! x) as [mon|]; cbn; [|done].
        by rewrite <- app_assoc.
      * intros m Hm. apply Hother. congruence.
    + intros m. rewrite Hobj. destruct (decide (m = x)) as [->|Hne].
      * rewrite (decide_True (P := x ∈ x :: l)) by (by apply elem_of_cons; left).
        by destruct (decide (x ∈ l)).
      * rewrite Hother by done.
        destruct (decide (m ∈ l)) as [Hin|Hnin].
        -- by rewrite decide_True by (by apply elem_of_cons; right).
        -- rewrite decide_False; [done|]. by intros [?|?]%elem_of_cons.
    + by destruct (delete_monitor_view x g) as (_ & _ & _ & ->).
Qed.

Lemma singleton_of_length {A} (l : list A) x : length l = 1%nat -> x ∈ l -> l = [x].
Proof.
  destruct l as [|y [|z l]]; intros Hlen Hin; try done.
  by apply list_elem_of_singleton in Hin as ->.
Qed.

(** Shutdown destroys every monitor exactly once.  After any run of the
    scheduler that has not crashed (calls to [add_gui_monitor] and
    [remove_gui_monitor] and timer messages, with arbitrary callbacks),
    [exit_module_gui] leaves no [Monitor] object alive, and every monitor
    that was ever registered has been destroyed exactly once, earlier or
    by the loop of [exit_module_gui], its [free] callback called if and
    only if it was registered with one. *)
Theorem exit_destroys_every_monitor_once cs m f :
  let g := run_calls cs initial_gui in
  let g' := exit_module_gui_monitors g in
  crashed g = false ->
  ev_added m f ∈ log g ->
  filter (fun e => destroys m e = true) (log g') = [ev_deleted m f] /\
  log g' = log g ++ exit_events (objects g) (monitors g) /\
  objects g' = ∅ /\ monitors g' = [].
Proof.
  intros g g' Hok Hadded.
  destruct (monitors_inv_run_calls cs) as [Hinv Hunlocked]. fold g in Hinv, Hunlocked.
  specialize (Hunlocked Hok).
  destruct Hinv as ((P & Hrun & Hexp & Hphases) & Hnodup & Hlist & Hobj).
  destruct (exit_loop_fields (monitors g) g Hnodup) as (Hlog & Hobjects & Hcrash).
  assert (Hlive : forall m' mon, objects g !! m' = Some mon ->
                    lock mon = false /\ deleted mon = false /\ m' ∈ monitors g).
  { intros m' mon Hm'. specialize (Hunlocked m'). unfold is_locked in Hunlocked.
    rewrite Hm' in Hunlocked. destruct (Hobj m' mon Hm') as [_ Hdel].
    assert (deleted mon = false) by (destruct (deleted mon); [by rewrite Hdel in Hunlocked|done]).
    split_and!; [done..|]. apply Hlist. eauto. }
  assert (Hlog' : log g' = log g ++ exit_events (objects g) (monitors g)).
  { subst g'. unfold exit_module_gui_monitors. by rewrite Hok. }
  pose proof (destroyed_count_run m (log g) initial_protocol P Hrun) as Hcount.
  cbn in Hcount. rewrite lookup_empty in Hcount. cbn in Hcount.
  split_and!.
  - rewrite Hlog', filter_app.
    destruct (added_flag_run m f (log g) initial_protocol P Hrun Hadded)
      as [Hflag|[Hdestroyed Hdel]].
    + rewrite Hphases in Hflag, Hcount. unfold state_phase in Hflag, Hcount.
      destruct (objects g !! m) as [mon|] eqn:Hm; [|by case_decide].
      destruct (Hlive m mon Hm) as (Hl & Hd & Hin). rewrite Hl in Hflag, Hcount.
      cbn in Hflag, Hcount. simplify_eq.
      rewrite (exit_events_elem _ _ m mon Hnodup Hin Hm).
      symmetry in Hcount. apply nil_length_inv in Hcount. by rewrite Hcount.
    + rewrite Hdestroyed in Hcount. cbn in Hcount.
      assert (Hgone : objects g !! m = None).
      { rewrite Hphases in Hdestroyed. unfold state_phase in Hdestroyed.
        destruct (objects g !! m) as [mon|]; [|done]. by repeat case_match. }
      rewrite exit_events_not_elem.
      * rewrite app_nil_r. apply singleton_of_length; [done|].
        apply list_elem_of_filter. split; [|done]. cbn. by rewrite bool_decide_eq_true.
      * intros (mon & Hm & _)%Hlist. congruence.
  - done.
  - subst g'. unfold exit_module_gui_monitors. rewrite Hok. cbn.
    apply map_eq. intros m'. rewrite lookup_empty, Hobjects.
    destruct (decide (m' ∈ monitors g)) as [|Hnin]; [done|].
    destruct (objects g !! m') as [mon|] eqn:Hm'; [|done].
    by destruct (Hlive m' mon Hm') as (_ & _ & ?).
  - subst g'. unfold exit_module_gui_monitors. by rewrite Hok.
Qed.

(** Three monitors; the first is removed before shutdown. *)
Lemma exit_destroys_every_monitor_witness :
  let g := run_calls [call_add_gui_monitor true; call_add_gui_monitor false;
                      call_remove_gui_monitor 0%nat; call_add_gui_monitor true;
                      call_timer_message []] initial_gui in
  log (exit_module_gui_monitors g) =
    log g ++ [ev_deleted 1%nat false; ev_deleted 2%nat true] /\
  filter (fun e => destroys 0%nat e = true) (log (exit_module_gui_monitors g)) =
    [ev_deleted 0%nat true].
Proof.
  intros g. split; [reflexivity|].
  apply (exit_destroys_every_monitor_once
           [call_add_gui_monitor true; call_add_gui_monitor false;
            call_remove_gui_monitor 0%nat; call_add_gui_monitor true;
            call_timer_message []] 0%nat true).
  - reflexivity.
  - apply list_elem_of_In. vm_compute. tauto.
Defined.

(** One iteration of the timer loop for a monitor that is neither locked
    nor marked deleted, with a callback that leaves the scheduler alone. *)
Lemma poll_monitor_idle m g mon :
  crashed g = false ->
  objects g !! m = Some mon -> lock mon = false -> deleted mon = false ->
  let g' := poll_monitor (fun g => g) m g in
  objects g' = objects g /\ monitors g' = monitors g /\
  log g' = log g ++ [ev_proc_called m; ev_proc_returned m] /\
  crash g' = crash g /\ monitor_timer g' = monitor_timer g /\ timers g' = timers g.
Proof.
  intros Hok Hm Hlock Hdel g'. subst g'. unfold poll_monitor, is_locked. rewrite Hm, Hlock.
  cbn [negb]. unfold crashed in *. cbn [crash log_event set_lock set_objects].
  destruct (crash g) eqn:Hcrash; [done|].
  unfold is_deleted. cbn [objects log_event set_lock set_objects].
  rewrite alter_alter_eq, lookup_alter_eq, Hm. cbn. rewrite Hdel.
  cbn. rewrite <- app_assoc, ?alter_alter_eq. split_and!; try done.
  apply alter_id. intros mon' Hm'. rewrite Hm in Hm'. simplify_eq.
  destruct mon' as [fr lk dl]. cbn in *. by subst.
Qed.

Lemma poll_remaining_idle l : forall g,
  crashed g = false ->
  (forall m, m ∈ l -> exists mon, objects g !! m = Some mon /\
                                  lock mon = false /\ deleted mon = false) ->
  let g' := poll_remaining l g in
  objects g' = objects g /\ monitors g' = monitors g /\
  log g' = log g ++ flat_map (fun m => [ev_proc_called m; ev_proc_returned m]) l /\
  crash g' = crash g /\ monitor_timer g' = monitor_timer g /\ timers g' = timers g.
Proof.
  induction l as [|m l IH]; intros g Hok Hl g'.
  - subst g'. cbn. by rewrite app_nil_r.
  - destruct (Hl m) as (mon & Hm & Hlock & Hdel); [by apply elem_of_cons; left|].
    destruct (poll_monitor_idle m g mon Hok Hm Hlock Hdel)
      as (Hobj & Hmon & Hlog & Hcrash & Htimer & Htimers).
    destruct (IH (poll_monitor (fun g => g) m g)) as (Hobj' & Hmon' & Hlog' & Hcrash' & Ht' & Hts').
    { unfold crashed in *. by rewrite Hcrash. }
    { intros m' Hm'. rewrite Hobj. apply Hl. by apply elem_of_cons; right. }
    subst g'. cbn [poll_remaining flat_map].
    rewrite Hobj', Hmon', Hlog', Hcrash', Ht', Hts', Hobj, Hmon, Hlog, Hcrash, Htimer, Htimers.
    by rewrite <- app_assoc.
Qed.

Lemma timer_loop_all_idle procs : forall it g,
  monitors_inv g -> Forall (fun proc => proc = []) procs ->
  timer_loop run_call procs it g = timer_loop run_call [] it g.
Proof.
  induction procs as [|proc procs IH] using rev_ind; intros it g Hinv Hidle; [done|].
  apply Forall_app in Hidle as [Hidle Hproc]. apply Forall_singleton in Hproc as ->.
  rewrite timer_loop_idle_callback by done. by apply IH.
Qed.

Lemma suffix_from_head (l : list MonitorPtr) :
  match head l with Some m => suffix_from m l | None => [] end = l.
Proof. destruct l as [|m l]; [done|]. cbn. by rewrite decide_True. Qed.

(** A timer message whose callbacks leave the scheduler alone polls every
    registered monitor exactly once, in the order of registration.  After
    any run that has not crashed, such a message enters and leaves the
    callback of each monitor of the list, one after the other in the order
    of the list, destroys nothing and keeps the list. *)
Theorem idle_timer_message_polls_each_monitor_once cs procs :
  let g := run_calls cs initial_gui in
  let g' := run_call (call_timer_message procs) g in
  crashed g = false ->
  Forall (fun proc => proc = []) procs ->
  log g' = log g ++ flat_map (fun m => [ev_proc_called m; ev_proc_returned m]) (monitors g) /\
  monitors g' = monitors g /\ objects g' = objects g /\ crashed g' = false.
Proof.
  intros g g' Hok Hidle.
  destruct (monitors_inv_run_calls cs) as [Hinv Hunlocked]. fold g in Hinv, Hunlocked.
  specialize (Hunlocked Hok).
  pose proof (timer_inv_run_calls cs) as (Hnone & _). fold g in Hnone.
  subst g'. rewrite run_call_timer_message, Hok.
  destruct (Z.ltb_spec (monitor_timer g) 0) as [Hneg|Hpos].
  - rewrite (Hnone Hneg). cbn. by rewrite app_nil_r.
  - rewrite (timer_loop_all_idle procs _ g Hinv Hidle).
    assert (Hloop : timer_loop run_call [] (head (monitors g)) g =
                    poll_remaining (monitors g) g).
    { pose proof (suffix_from_head (monitors g)) as Hsuffix.
      destruct (monitors g) as [|m l] eqn:Hl; [done|]. cbn [head] in *.
      rewrite timer_loop_nil, Hok, Hl, bool_decide_eq_true_2 by (by apply elem_of_cons; left).
      by rewrite Hsuffix. }
    rewrite Hloop.
    destruct (poll_remaining_idle (monitors g) g Hok)
      as (Hobj & Hmon & Hlog & Hcrash & Htimer & Htimers).
    { intros m Hm. destruct Hinv as (_ & _ & Hlist & _).
      apply Hlist in Hm as (mon & Hm & Hdel). exists mon. split_and!; [done| |done].
      specialize (Hunlocked m). unfold is_locked in Hunlocked. by rewrite Hm in Hunlocked. }
    unfold stop_timer_if_empty, crashed in *. rewrite Hcrash, Hmon.
    destruct (crash g); [done|].
    case_bool_decide; unfold jmanager_stop_timer; try case_match; cbn;
      by rewrite ?Hobj, ?Hmon, ?Hlog, ?Hcrash.
Qed.

(** Two monitors and a timer message. *)
Lemma idle_timer_message_witness :
  let g := run_calls [call_add_gui_monitor true; call_add_gui_monitor false] initial_gui in
  log (run_call (call_timer_message [[]; []]) g) =
    log g ++ [ev_proc_called 0%nat; ev_proc_returned 0%nat;
              ev_proc_called 1%nat; ev_proc_returned 1%nat].
Proof.
  intros g.
  apply (idle_timer_message_polls_each_monitor_once
           [call_add_gui_monitor true; call_add_gui_monitor false] [[]; []]).
  - reflexivity.
  - by repeat constructor.
Defined.

(** ** Idle flags over several iterations *)

Lemma flag_set_REBUILD_after env flags :
  flag_set (fst (gui_feedback env flags)) REBUILD_RECENT_LIST =
  flag_set flags REBUILD_RECENT_LIST && negb (recent_list_rebuilt env).
Proof. rewrite !flag_set_REBUILD, gui_feedback_flags by done. reflexivity. Qed.

Lemma gui_feedback_loop_clear envs : forall flags,
  flag_set flags REBUILD_RECENT_LIST = false ->
  let r := gui_feedback_loop envs flags in
  (fun steps => filter (fun s => is_rebuild_attempt s = true) steps) <$> snd r =
    replicate (length envs) [] /\
  flag_set (fst r) REBUILD_RECENT_LIST = false.
Proof.
  induction envs as [|env envs IH]; intros flags Hclear; [done|].
  cbn [gui_feedback_loop]. cbv zeta. cbn [fst snd fmap list_fmap length replicate].
  destruct (gui_feedback_steps env flags) as (_ & Hattempt & _).
  rewrite Hclear in Hattempt. rewrite Hattempt.
  destruct (IH (fst (gui_feedback env flags))) as [Hrest Hflag].
  { by rewrite flag_set_REBUILD_after, Hclear. }
  cbv zeta in Hrest, Hflag. by rewrite Hrest.
Qed.

(** A scheduled rebuild of the recent-list menu is retried until it
    succeeds.  After [schedule_rebuild_recent_list], every iteration of the
    event loop calls [app_realloc_recent_list] once as long as the call
    reports failure; the first iteration in which it succeeds is the last
    to call it, and the flag is clear from then on. *)
Theorem rebuild_is_retried_until_it_succeeds failing env_ok rest flags :
  Forall (fun env => recent_list_rebuilt env = false) failing ->
  recent_list_rebuilt env_ok = true ->
  let r := gui_feedback_loop (failing ++ env_ok :: rest)
             (schedule_rebuild_recent_list flags) in
  (fun steps => filter (fun s => is_rebuild_attempt s = true) steps) <$> snd r =
    replicate (length failing) [app_realloc_recent_list false] ++
    [app_realloc_recent_list true] :: replicate (length rest) [] /\
  flag_set (fst r) REBUILD_RECENT_LIST = false.
Proof.
  intros Hfailing Hok.
  assert (Hset : flag_set (schedule_rebuild_recent_list flags) REBUILD_RECENT_LIST = true).
  { rewrite flag_set_REBUILD. unfold schedule_rebuild_recent_list.
    rewrite Z.lor_spec. apply orb_true_r. }
  generalize dependent (schedule_rebuild_recent_list flags). clear flags.
  induction Hfailing as [|env failing Henv _ IH]; intros flags Hset.
  - cbn [app gui_feedback_loop length replicate]. cbv zeta.
    cbn [fst snd fmap list_fmap].
    destruct (gui_feedback_steps env_ok flags) as (_ & Hattempt & _).
    rewrite Hset, Hok in Hattempt. rewrite Hattempt.
    destruct (gui_feedback_loop_clear rest (fst (gui_feedback env_ok flags))) as [Hrest Hflag].
    { rewrite flag_set_REBUILD_after, Hok. apply andb_false_r. }
    cbv zeta in Hrest, Hflag. by rewrite Hrest.
  - cbn [app gui_feedback_loop length replicate]. cbv zeta.
    cbn [fst snd fmap list_fmap].
    destruct (gui_feedback_steps env flags) as (_ & Hattempt & _).
    rewrite Hset, Henv in Hattempt. rewrite Hattempt.
    destruct (IH (fst (gui_feedback env flags))) as [Hrest Hflag].
    { by rewrite flag_set_REBUILD_after, Hset, Henv. }
    cbv zeta in Hrest, Hflag. by rewrite Hrest.
Qed.

(** Two iterations that fail to rebuild the menu, one that succeeds, and
    one more. *)
Lemma rebuild_is_retried_witness :
  let env_ok := {| recent_list_rebuilt := true; current_sprite := None; mode_gui := true;
                   palette_changed := false; double_buffering := false;
                   dirty_region := false; same_screen_size := true |} in
  (fun steps => filter (fun s => is_rebuild_attempt s = true) steps) <$>
    snd (gui_feedback_loop [sample_env; sample_env; env_ok; sample_env]
           (schedule_rebuild_recent_list 0)) =
  [[app_realloc_recent_list false]; [app_realloc_recent_list false];
   [app_realloc_recent_list true]; []].
Proof.
  intros env_ok.
  apply (rebuild_is_retried_until_it_succeeds [sample_env; sample_env] env_ok [sample_env] 0).
  - by repeat constructor.
  - reflexivity.
Defined.

(** ** Looking up several widgets *)

Section get_widgets_properties.
Context `{WidgetHost}.

(** [get_widgets] is [find_widget] for each name in turn.  It returns
    exactly when every name is found, and then every variable holds the
    widget of its name (the variables being distinct); it throws
    [widget_not_found] for the first name that is missing, exactly when
    there is one, leaving NULL in the variable of that name; and in every
    case a variable that is not among the arguments is left as it was. *)
Theorem get_widgets_finds_all_or_throws_first_missing window args : forall vars,
  let r := get_widgets window args vars in
  let pairs := named_slots args in
  (snd r = Return tt <->
   Forall (fun p => exists w, find_widget window p.1 = Return w) pairs) /\
  (forall e, snd r = Throw e <->
     exists before name slot after,
       pairs = before ++ (name, slot) :: after /\
       Forall (fun p => exists w, find_widget window p.1 = Return w) before /\
       find_widget window name = Throw e) /\
  (snd r = Return tt -> NoDup pairs.*2 ->
   forall name slot, (name, slot) ∈ pairs ->
     exists w, find_widget window name = Return w /\ fst r !! slot = Some (Some w)) /\
  (forall name, snd r = Throw (widget_not_found name) ->
     exists slot, (name, slot) ∈ pairs /\ fst r !! slot = Some None) /\
  (forall slot, slot ∉ pairs.*2 -> fst r !! slot = vars !! slot).
Proof.
  induction args as [|[name [slot|]] args IH]; intros vars.
  - cbn. split_and!; try done.
    + intros e. split; [done|]. by intros ([|? ?] & ? & ? & ? & ? & _).
    + intros _ _ name slot Hin. by apply elem_of_nil in Hin.
  - cbn [get_widgets named_slots]. cbv zeta.
    specialize (IH (<[slot := jwidget_find_name window name]> vars)).
    cbv zeta in IH. destruct IH as (IHret & IHthrow & IHvars & IHnull & IHframe).
    assert (Hfw : find_widget window name =
                  match jwidget_find_name window name with
                  | Some w => Return w
                  | None => Throw (widget_not_found name)
                  end) by (unfold find_widget; by destruct (jwidget_find_name window name)).
    destruct (jwidget_find_name window name) as [w|] eqn:Hfind.
    + split_and!.
      * rewrite IHret, Forall_cons. cbn -[find_widget]. rewrite Hfw.
        split; [by eauto|by intros [_ ?]].
      * intros e. rewrite IHthrow. split.
        -- intros (before & name' & slot' & after & -> & Hbefore & Hthrow).
           exists ((name, slot) :: before), name', slot', after. split_and!; [done| |done].
           apply Forall_cons. split; [|done]. cbn -[find_widget]. rewrite Hfw. eauto.
        -- intros ([|p before] & name' & slot' & after & Heq & Hbefore & Hthrow);
             cbn in Heq; simplify_eq.
           ++ by rewrite Hfw in Hthrow.
           ++ apply Forall_cons in Hbefore as [_ Hbefore]. by exists before, name', slot', after.
      * intros Hret Hnodup name' slot' Hin. cbn in Hnodup.
        apply NoDup_cons in Hnodup as [Hslot Hnodup].
        apply elem_of_cons in Hin as [Heq|Hin].
        -- simplify_eq. exists w. split; [done|].
           by rewrite IHframe, lookup_insert_eq.
        -- by apply IHvars.
      * intros name' Hthrow. destruct (IHnull name' Hthrow) as (slot' & Hin & Hnull).
        exists slot'. split; [by apply elem_of_cons; right|done].
      * intros slot' Hnin. cbn in Hnin. apply not_elem_of_cons in Hnin as [Hne Hnin].
        by rewrite IHframe, lookup_insert_ne.
    + cbn [fst snd]. split_and!.
      * split; [done|]. intros [[w Hw] _]%Forall_cons. cbn -[find_widget] in Hw.
        by rewrite Hfw in Hw.
      * intros e. split.
        -- intros [= <-]. exists [], name, slot, (named_slots args).
           split_and!; done.
        -- intros ([|p before] & name' & slot' & after & Heq & Hbefore & Hthrow);
             cbn in Heq; simplify_eq.
           ++ rewrite Hfw in Hthrow. by simplify_eq.
           ++ apply Forall_cons in Hbefore as [[w Hw] _]. cbn -[find_widget] in Hw.
              by rewrite Hfw in Hw.
      * done.
      * intros name' [= <-]. exists slot. split; [by apply elem_of_cons; left|].
        by rewrite lookup_insert_eq.
      * intros slot' Hnin. cbn in Hnin. apply not_elem_of_cons in Hnin as [Hne Hnin].
        by rewrite lookup_insert_ne.
  - cbn. split_and!; try done.
    + intros e. split; [done|]. by intros ([|? ?] & ? & ? & ? & ? & _).
    + intros _ _ name' slot Hin. by apply elem_of_nil in Hin.
Qed.

End get_widgets_properties.

(** ** The graphics mode *)

Lemma head_filter_app {A} (P : A -> Prop) `{!forall x, Decision (P x)} (l1 l2 : list A) :
  head (filter P (l1 ++ l2)) =
  match head (filter P l1) with
  | Some x => Some x
  | None => head (filter P l2)
  end.
Proof. rewrite filter_app. by destruct (filter P l1). Qed.

Lemma head_filter_fmap {A B} (f : A -> B) (P : B -> Prop) `{!forall x, Decision (P x)}
    (l : list A) :
  head (filter P (f <$> l)) = (fun p => f p.2) <$> list_find (fun x => P (f x)) l.
Proof.
  induction l as [|x l IH]; [done|]. cbn [fmap list_fmap list_find].
  rewrite filter_cons. destruct (decide (P (f x))); [done|].
  rewrite IH. by destruct (list_find _ l) as [[i y]|].
Qed.

Section gfx_mode_facts.
Context `{GfxHost}.

(** One iteration of the loop. *)
Lemma set_gfx_mode_loop_step fuel a w h min s d :
  set_gfx_mode_loop (S fuel) a w h min s d =
  match head (filter (fun m => accepted a m = true) (requests_at w h min s d)) with
  | Some m => init_gfx_done a (req_depth m) (req_w m) (req_h m) (req_scaling m)
  | None =>
      if d =? 8 then init_error graphics_mode
      else match next_depth d try_depths with
           | Some d' => set_gfx_mode_loop fuel a w h min s d'
           | None => init_depths_overrun
           end
  end.
Proof.
  cbn [set_gfx_mode_loop]. unfold requests_at. rewrite filter_cons.
  destruct (decide (accepted a (MkModeRequest d w h s) = true)) as [Hfirst|Hfirst];
    unfold accepted in Hfirst; cbn [req_depth req_w req_h] in Hfirst.
  - by rewrite Hfirst.
  - apply not_true_is_false in Hfirst. rewrite Hfirst, head_filter_fmap.
    unfold accepted. cbn [req_depth req_w req_h].
    by destruct (list_find _ (drop min try_resolutions)) as [[i r]|].
Qed.

Lemma set_gfx_mode_loop_plan a w h min s : forall ds pre fuel d,
  try_depths = pre ++ d :: ds -> (length (d :: ds) <= fuel)%nat ->
  set_gfx_mode_loop fuel a w h min s d =
  match head (filter (fun m => accepted a m = true)
                ((d :: ds) ≫= requests_at w h min s)) with
  | Some m => init_gfx_done a (req_depth m) (req_w m) (req_h m) (req_scaling m)
  | None => init_error graphics_mode
  end.
Proof.
  induction ds as [|d' ds IH]; intros pre fuel d Heq Hfuel.
  - destruct fuel as [|fuel]; [cbn in Hfuel; lia|].
    rewrite set_gfx_mode_loop_step. cbn [mbind list_bind]. rewrite app_nil_r.
    destruct (head _); [done|].
    unfold try_depths in Heq.
    destruct pre as [|? [|? [|? [|? [|? pre]]]]]; cbn in Heq; simplify_eq; try done;
      match goal with H : _ = ?l ++ _ |- _ => by destruct l end.
  - destruct fuel as [|fuel]; [cbn in Hfuel; lia|].
    rewrite set_gfx_mode_loop_step.
    change ((d :: d' :: ds) ≫= requests_at w h min s)
      with (requests_at w h min s d ++ ((d' :: ds) ≫= requests_at w h min s)).
    rewrite head_filter_app. destruct (head _); [done|].
    rewrite <- (IH (pre ++ [d]) fuel d'); [|by rewrite <- app_assoc|cbn in *; lia].
    unfold try_depths in Heq.
    destruct pre as [|? [|? [|? [|? [|? pre]]]]]; cbn in Heq; simplify_eq; try done;
      match goal with H : _ = ?l ++ _ |- _ => by destruct l end.
Qed.

(** More iterations than the table has depths change nothing. *)
Lemma set_gfx_mode_loop_fuel a w h min s : forall fuel d ds pre,
  try_depths = pre ++ d :: ds -> (length (d :: ds) <= fuel)%nat ->
  set_gfx_mode_loop fuel a w h min s d =
  set_gfx_mode_loop (length (d :: ds)) a w h min s d.
Proof.
  intros fuel d ds pre Heq Hfuel.
  rewrite (set_gfx_mode_loop_plan a w h min s ds pre fuel d Heq Hfuel).
  by rewrite (set_gfx_mode_loop_plan a w h min s ds pre _ d Heq).
Qed.

Lemma elem_of_try_depths bpp :
  bpp ∈ try_depths ->
  exists pre ds, try_depths = pre ++ bpp :: ds /\ depths_from bpp try_depths = bpp :: ds.
Proof.
  unfold try_depths. rewrite !elem_of_cons, elem_of_nil.
  intros [->|[->|[->|[->|[->|[]]]]]].
  - by exists [], [24; 16; 15; 8].
  - by exists [32], [16; 15; 8].
  - by exists [32; 24], [15; 8].
  - by exists [32; 24; 16], [8].
  - by exists [32; 24; 16; 15], [].
Qed.

Lemma not_elem_of_try_depths bpp :
  bpp ∉ try_depths -> next_depth bpp try_depths = None /\ bpp <> 8.
Proof.
  unfold try_depths. rewrite !not_elem_of_cons. intros (? & ? & ? & ? & ? & _).
  split; [|done]. cbn. by rewrite !(proj2 (Z.eqb_neq _ _)).
Qed.

End gfx_mode_facts.

Section gfx_mode_properties.
Context `{GfxHost}.

(** The negotiation of the graphics mode.  The loop of [init_module_gui]
    ends within as many iterations as [try_depths] has elements.  Started
    from a colour depth of the table, it sets the first mode that the
    driver accepts among those of the plan (for each depth from the
    starting one down to 8: the size wanted, then the listed sizes from
    [min_possible_dsk_res] on), and it fails with "Error setting graphics
    mode" exactly when the driver accepts none of them.  Started from a
    depth that is not in the table, it only tries that depth, and when no
    mode is accepted there it reads [try_depths] past its end instead of
    failing. *)
Theorem gfx_mode_negotiation a w h min s bpp fuel :
  (length try_depths <= fuel)%nat ->
  let r := set_gfx_mode_loop fuel a w h min s bpp in
  r <> init_unfinished /\
  (bpp ∈ try_depths ->
   r = match head (filter (fun m => accepted a m = true) (mode_plan w h min s bpp)) with
       | Some m => init_gfx_done a (req_depth m) (req_w m) (req_h m) (req_scaling m)
       | None => init_error graphics_mode
       end) /\
  (bpp ∉ try_depths ->
   r = match head (filter (fun m => accepted a m = true) (requests_at w h min s bpp)) with
       | Some m => init_gfx_done a (req_depth m) (req_w m) (req_h m) (req_scaling m)
       | None => init_depths_overrun
       end).
Proof.
  intros Hfuel r.
  assert (Hin : bpp ∈ try_depths ->
    r = match head (filter (fun m => accepted a m = true) (mode_plan w h min s bpp)) with
        | Some m => init_gfx_done a (req_depth m) (req_w m) (req_h m) (req_scaling m)
        | None => init_error graphics_mode
        end).
  { intros (pre & ds & Heq & Hfrom)%elem_of_try_depths. unfold mode_plan. rewrite Hfrom.
    apply (set_gfx_mode_loop_plan a w h min s ds pre fuel bpp Heq).
    assert (Hlen : length try_depths = length (pre ++ bpp :: ds)) by by rewrite Heq.
    rewrite length_app in Hlen. lia. }
  assert (Hout : bpp ∉ try_depths ->
    r = match head (filter (fun m => accepted a m = true) (requests_at w h min s bpp)) with
        | Some m => init_gfx_done a (req_depth m) (req_w m) (req_h m) (req_scaling m)
        | None => init_depths_overrun
        end).
  { intros [Hnext Hne]%not_elem_of_try_depths. subst r.
    destruct fuel as [|fuel]; [cbn in Hfuel; lia|].
    rewrite set_gfx_mode_loop_step, Hnext. by rewrite (proj2 (Z.eqb_neq _ _) Hne). }
  split_and!; [|done..].
  destruct (decide (bpp ∈ try_depths)) as [Hd|Hd].
  - rewrite (Hin Hd). clear. by destruct (head _).
  - rewrite (Hout Hd). clear. by destruct (head _).
Qed.

End gfx_mode_properties.

(** Starting from 32 bits at 1024 by 768, the loop ends at 16 bits. *)
Lemma gfx_mode_negotiation_witness :
  @set_gfx_mode_loop sample_gfx_host 5 false 1024 768 0 1 32 =
  init_gfx_done false 16 640 480 1.
Proof.
  destruct (@gfx_mode_negotiation sample_gfx_host false 1024 768 0%nat 1 32 5%nat)
    as (_ & Hin & _); [cbn; lia|].
  rewrite Hin; [reflexivity|]. apply list_elem_of_In. cbn. tauto.
Defined.

Section init_module_gui_properties.
Context `{GfxHost}.

Lemma next_depth_elem_of bpp d : forall depths,
  next_depth bpp depths = Some d -> d ∈ depths.
Proof.
  induction depths as [|x depths IH]; [done|]. cbn.
  destruct (bpp =? x).
  - destruct depths as [|y depths]; [done|]. intros [= ->].
    apply elem_of_cons; right. by apply elem_of_cons; left.
  - intros Hd. apply elem_of_cons; right. by apply IH.
Qed.

(** A mode that the loop sets was accepted by the driver; its size is the
    size wanted or a listed one, which then decides the scaling. *)
Lemma set_gfx_mode_loop_done a w h min s0 fuel : forall bpp a' d w' h' s',
  set_gfx_mode_loop fuel a w h min s0 bpp = init_gfx_done a' d w' h' s' ->
  a' = a /\ set_gfx_mode d a w' h' = true /\
  (d = bpp \/ d ∈ try_depths) /\
  ((w' = w /\ h' = h /\ s' = s0) \/
   exists r, r ∈ try_resolutions /\ w' = width r /\ h' = height r /\ s' = scale r).
Proof.
  induction fuel as [|fuel IH]; intros bpp a' d w' h' s' Hdone; [done|].
  cbn [set_gfx_mode_loop] in Hdone.
  destruct (set_gfx_mode bpp a w h) eqn:Hfirst.
  { simplify_eq. split_and!; auto. }
  destruct (list_find _ (drop min try_resolutions)) as [[i r]|] eqn:Hfind.
  { simplify_eq. apply list_find_Some in Hfind as (Hi & Hr & _).
    split_and!; auto. right. exists r. split_and!; try done.
    rewrite lookup_drop in Hi. by eapply list_elem_of_lookup_2. }
  destruct (bpp =? 8); [done|].
  destruct (next_depth bpp try_depths) as [bpp'|] eqn:Hnext; [|done].
  destruct (IH bpp' a' d w' h' s' Hdone) as (Ha & Hacc & Hd & Hsize).
  split_and!; try done. right. destruct Hd as [->|Hd]; [|done].
  by eapply next_depth_elem_of.
Qed.

Lemma MID_bounds x y z : x <= z -> x <= MID x y z <= z.
Proof. unfold MID. lia. Qed.

(** What holds when [init_module_gui] reaches [gfx_done]. *)
Lemma init_module_gui_done_inv cfg a d w h s :
  1 <= DEF_SCALE <= 4 ->
  init_module_gui cfg = init_gfx_done a d w h s ->
  0 <= install_mouse /\ 0 <= install_keyboard /\
  a = get_config_bool cfg "GfxMode" "FullScreen" false /\
  set_gfx_mode d a w h = true /\
  (d = default_depth (get_config_int cfg "GfxMode" "Depth" 0) \/ d ∈ try_depths) /\
  1 <= s <= 4.
Proof.
  intros Hscale. unfold init_module_gui, load_gui_config.
  destruct (Z.ltb_spec install_mouse 0) as [|Hmouse]; [done|].
  destruct (Z.ltb_spec install_keyboard 0) as [|Hkeyboard]; [done|].
  destruct (default_resolution _ _ _ _) as [[[[w0 h0] fullscreen] s0] min] eqn:Hdefault.
  intros Hdone.
  apply set_gfx_mode_loop_done in Hdone as (-> & Hacc & Hd & Hsize).
  assert (Hlisted : forall r, r ∈ try_resolutions -> 1 <= scale r <= 4).
  { intros r. unfold try_resolutions. rewrite !elem_of_cons, elem_of_nil.
    intros [->|[->|[->|[->|[->|[]]]]]]; cbn; lia. }
  assert (Hs0 : 1 <= s0 <= 4).
  { unfold default_resolution in Hdefault.
    destruct (_ || _).
    - destruct get_desktop_resolution as [[dsk_w dsk_h]|].
      + destruct (list_find _ try_resolutions) as [[c r]|] eqn:Hfind.
        * simplify_eq. apply list_find_Some in Hfind as (Hc & _).
          apply Hlisted. by eapply list_elem_of_lookup_2.
        * simplify_eq. by apply MID_bounds.
      + simplify_eq. lia.
    - simplify_eq. by apply MID_bounds. }
  assert (1 <= s <= 4).
  { destruct Hsize as [(_ & _ & ->)|(r & Hr & _ & _ & ->)]; [done|by apply Hlisted]. }
  split_and!; try done; lia.
Qed.

(** The outcome of [init_module_gui].  It fails on the mouse handler and
    on the keyboard handler as [install_mouse] and [install_keyboard] tell.
    When it reaches [gfx_done], the driver accepted the mode that is set;
    the driver is the full-screen one exactly when the configuration asks
    for full screen, whatever default resolution was chosen; the colour
    depth is the one wanted or one of [try_depths]; and [screen_scaling]
    lies between 1 and 4, so that [gui_setup_screen] never divides by
    zero. *)
Theorem init_module_gui_outcome cfg a d w h s :
  1 <= DEF_SCALE <= 4 ->
  init_module_gui cfg = init_gfx_done a d w h s ->
  0 <= install_mouse /\ 0 <= install_keyboard /\
  a = get_config_bool cfg "GfxMode" "FullScreen" false /\
  set_gfx_mode d a w h = true /\
  (d = default_depth (get_config_int cfg "GfxMode" "Depth" 0) \/ d ∈ try_depths) /\
  1 <= s <= 4.
Proof. apply init_module_gui_done_inv. Qed.

End init_module_gui_properties.

(** Without configuration the host above starts in 16 bits at 640 by
    480. *)
Lemma init_module_gui_outcome_witness :
  @init_module_gui sample_gfx_host empty_config = init_gfx_done false 16 640 480 1 /\
  @set_gfx_mode sample_gfx_host 16 false 640 480 = true.
Proof.
  split; [reflexivity|].
  destruct (@init_module_gui_outcome sample_gfx_host empty_config false 16 640 480 1)
    as (_ & _ & _ & Hacc & _); [cbn; lia|reflexivity|exact Hacc].
Defined.

Section gfx_config_properties.
Context `{GfxHost}.

Lemma default_depth_nonzero bpp : default_depth bpp <> 0.
Proof.
  unfold default_depth. destruct (Z.eqb_spec bpp 0); [|done].
  by destruct (Z.eqb_spec desktop_color_depth 0).
Qed.

(** [load_gui_config] after [save_gui_config]. *)
Lemma load_gui_config_save_gui_config scr s cfg cfg' :
  load_gui_config (save_gui_config scr s cfg) =
    (SCREEN_W scr, SCREEN_H scr, screen_color_depth scr, negb (windowed scr), MID 1 s 4) /\
  (MID 1 s 4 = s <-> 1 <= s <= 4) /\
  1 <= (load_gui_config cfg').2 <= 4.
Proof.
  split_and!.
  - unfold load_gui_config, save_gui_config, get_config_int, get_config_bool,
      set_config_int, set_config_bool. cbn [config_ints config_bools].
    repeat first [rewrite lookup_insert_eq | rewrite lookup_insert_ne by done].
    reflexivity.
  - unfold MID. lia.
  - cbn. unfold MID. lia.
  - cbn. unfold MID. lia.
Qed.

(** What [save_gui_config] writes, [load_gui_config] reads back; the
    scaling is read back clamped between 1 and 4, so unchanged when it was
    in that range.  Whatever the configuration file holds, the scaling
    loaded lies between 1 and 4. *)
Theorem save_then_load_gui_config scr s cfg cfg' :
  load_gui_config (save_gui_config scr s cfg) =
    (SCREEN_W scr, SCREEN_H scr, screen_color_depth scr, negb (windowed scr), MID 1 s 4) /\
  (MID 1 s 4 = s <-> 1 <= s <= 4) /\
  1 <= (load_gui_config cfg').2 <= 4.
Proof. apply load_gui_config_save_gui_config. Qed.

(** Starting again with the configuration saved.  When [init_module_gui]
    has set a mode of non-zero size and the configuration is saved with
    that mode as the mode of the screen, the next [init_module_gui] asks
    for that mode first and sets it at once, with the same scaling. *)
Theorem init_module_gui_after_save cfg a d w h s :
  1 <= DEF_SCALE <= 4 ->
  init_module_gui cfg = init_gfx_done a d w h s ->
  w <> 0 -> h <> 0 ->
  let scr := {| SCREEN_W := w; SCREEN_H := h; screen_color_depth := d;
                windowed := negb a |} in
  init_module_gui (save_gui_config scr s cfg) = init_gfx_done a d w h s.
Proof.
  intros Hscale Hdone Hw Hh scr.
  destruct (init_module_gui_done_inv cfg a d w h s Hscale Hdone)
    as (Hmouse & Hkeyboard & _ & Hacc & Hd & Hs).
  assert (Hd0 : d <> 0).
  { destruct Hd as [->|Hd]; [apply default_depth_nonzero|].
    unfold try_depths in Hd. rewrite !elem_of_cons, elem_of_nil in Hd. lia. }
  unfold init_module_gui.
  destruct (load_gui_config_save_gui_config scr s cfg cfg) as (-> & Hmid & _).
  rewrite (proj2 Hmid Hs).
  rewrite (proj2 (Z.ltb_ge _ _) Hmouse), (proj2 (Z.ltb_ge _ _) Hkeyboard).
  unfold default_resolution, default_depth. subst scr. cbn [SCREEN_W SCREEN_H screen_color_depth windowed].
  rewrite (proj2 (Z.eqb_neq _ _) Hw), (proj2 (Z.eqb_neq _ _) Hh), (proj2 (Z.eqb_neq _ _) Hd0).
  cbn [orb]. rewrite negb_involutive. cbn [length try_depths set_gfx_mode_loop].
  by rewrite Hacc.
Qed.

End gfx_config_properties.

Lemma init_module_gui_after_save_witness :
  @init_module_gui sample_gfx_host
    (save_gui_config (MkScreen 640 480 16 true) 1 empty_config) =
  init_gfx_done false 16 640 480 1.
Proof.
  apply (@init_module_gui_after_save sample_gfx_host empty_config false 16 640 480 1).
  - cbn; lia.
  - reflexivity.
  - done.
  - done.
Defined.

Section default_resolution_properties.
Context `{GfxHost}.

(** The default resolution is the largest listed one that fits.  When no
    size is configured and the desktop is at least 336 by 232, the size
    chosen is a listed resolution that leaves 16 by 32 pixels of the
    desktop free, and no listed resolution that does so is wider or
    higher; [min_possible_dsk_res] is its position in the table.  The block
    also stores FALSE in the variable [fullscreen]; the driver asked for
    was chosen from the configuration before the block and is not changed
    by that store (see [init_module_gui_outcome]). *)
Theorem default_resolution_is_largest_fit w h fullscreen s dsk_w dsk_h :
  get_desktop_resolution = Some (dsk_w, dsk_h) ->
  w = 0 \/ h = 0 ->
  336 <= dsk_w -> 232 <= dsk_h ->
  exists c r,
    default_resolution w h fullscreen s = (width r, height r, false, scale r, c) /\
    try_resolutions !! c = Some r /\
    width r + 16 <= dsk_w /\ height r + 32 <= dsk_h /\
    forall r', r' ∈ try_resolutions ->
      width r' + 16 <= dsk_w -> height r' + 32 <= dsk_h ->
      width r' <= width r /\ height r' <= height r.
Proof.
  intros Hdesktop Hunset Hdw Hdh. unfold default_resolution. rewrite Hdesktop.
  assert ((w =? 0) || (h =? 0) = true) as ->.
  { destruct Hunset as [->| ->]; [done|apply orb_true_r]. }
  assert (Hfits : forall r, fits_desktop (dsk_w - 16) (dsk_h - 32) r = true <->
                            width r + 16 <= dsk_w /\ height r + 32 <= dsk_h).
  { intros r. unfold fits_desktop. rewrite andb_true_iff, !Z.leb_le. lia. }
  destruct (list_find_elem_of
              (fun r => fits_desktop (dsk_w - 16) (dsk_h - 32) r = true)
              try_resolutions (MkResolution 320 200 1)) as [[c r] Hfind].
  { unfold try_resolutions. rewrite !elem_of_cons. tauto. }
  { apply Hfits. cbn. lia. }
  rewrite Hfind. apply list_find_Some in Hfind as (Hc & Hr & Hbefore).
  apply Hfits in Hr as [Hrw Hrh].
  exists c, r. split_and!; try done.
  intros r' Hin Hw' Hh'.
  assert (Hfirst : forall j, try_resolutions !! j = Some r' -> (c <= j)%nat).
  { intros j Hj. destruct (decide (c <= j)%nat); [done|].
    destruct (Hbefore j r' Hj); [lia|]. by apply Hfits. }
  apply list_elem_of_lookup_1 in Hin as [j Hj]. specialize (Hfirst j Hj).
  unfold try_resolutions in Hc, Hj.
  destruct c as [|[|[|[|[|c]]]]]; cbn in Hc; simplify_eq;
    destruct j as [|[|[|[|[|j]]]]]; cbn in Hj; simplify_eq; cbn; lia.
Qed.

End default_resolution_properties.

(** The host above has a desktop of 1280 by 1024: the default is 1024 by
    768. *)
Lemma default_resolution_witness :
  @default_resolution sample_gfx_host 0 0 false 1 = (1024, 768, false, 1, 0%nat).
Proof.
  destruct (@default_resolution_is_largest_fit sample_gfx_host 0 0 false 1 1280 1024)
    as (c & r & Heq & _); [reflexivity|by left|lia|lia|].
  reflexivity.
Defined.

(** ** Window positions *)

Lemma int_result_Some z : INT_MIN <= z <= INT_MAX -> int_result z = Some z.
Proof.
  intros Hz. unfold int_result.
  by rewrite (proj2 (Z.leb_le _ _) (proj1 Hz)), (proj2 (Z.leb_le _ _) (proj2 Hz)).
Qed.

(** A window position loaded from the configuration is on the screen.  For
    a window that fits the screen, when the coordinates of the window and
    of the rectangle that the configuration holds and the size of the
    screen are below 2^30 in absolute value, no addition or subtraction
    overflows and the rectangle given to the window lies within the screen
    and is at least as large as the window was; a configured rectangle that
    already lies within the screen and is at least that large is used as it
    is; and without a configured rectangle the window keeps its size. *)
Theorem load_window_pos_on_screen W H orig configured :
  0 <= jrect_w orig <= W -> 0 <= jrect_h orig <= H ->
  W < 2 ^ 30 -> H < 2 ^ 30 ->
  small_rect orig -> from_option small_rect True configured ->
  exists r,
    load_window_pos W H orig configured = Some r /\
    (0 <= x1 r /\ x2 r <= W /\ 0 <= y1 r /\ y2 r <= H) /\
    (jrect_w orig <= jrect_w r /\ jrect_h orig <= jrect_h r) /\
    (forall c, configured = Some c ->
       0 <= x1 c -> x2 c <= W -> 0 <= y1 c -> y2 c <= H ->
       jrect_w orig <= jrect_w c -> jrect_h orig <= jrect_h c -> r = c) /\
    (configured = None -> jrect_w r = jrect_w orig /\ jrect_h r = jrect_h orig).
Proof.
  intros Hw Hh HW HH Horig Hconf.
  assert (Hpos : small_rect (default orig configured)).
  { by destruct configured. }
  set (pos := default orig configured) in *.
  assert (Hdef : forall c, configured = Some c -> pos = c).
  { intros c ->. done. }
  assert (Hnone : configured = None -> pos = orig).
  { intros ->. done. }
  unfold load_window_pos. fold pos.
  clearbody pos. clear Hconf.
  destruct orig as [ox1 oy1 ox2 oy2], pos as [px1 py1 px2 py2].
  unfold small_rect, small_coord, jrect_moveto, jrect_w, jrect_h, MID in *.
  cbn [x1 y1 x2 y2] in *.
  repeat (rewrite int_result_Some by (unfold INT_MIN, INT_MAX; lia);
          cbn [mbind option_bind option_ret mret x1 y1 x2 y2]).
  eexists. split; [reflexivity|]. cbn [x1 y1 x2 y2].
  split_and!; try lia.
  - intros [cx1 cy1 cx2 cy2] Hc. specialize (Hdef _ Hc). simplify_eq.
    cbn [x1 y1 x2 y2]. intros. f_equal; lia.
  - intros Hn. specialize (Hnone Hn). simplify_eq. lia.
Qed.

(** A dialog of 200 by 100 whose saved position lies off a screen of 640
    by 480. *)
Lemma load_window_pos_witness :
  load_window_pos 640 480 (MkJRect 0 0 200 100) (Some (MkJRect 600 (-20) 900 80)) =
  Some (MkJRect 340 0 640 100).
Proof.
  destruct (load_window_pos_on_screen 640 480 (MkJRect 0 0 200 100)
              (Some (MkJRect 600 (-20) 900 80))) as (r & Hr & _).
  - unfold jrect_w. cbn [x1 x2]. lia.
  - unfold jrect_h. cbn [y1 y2]. lia.
  - lia.
  - lia.
  - unfold small_rect, small_coord. cbn [x1 y1 x2 y2]. lia.
  - unfold small_rect, small_coord. cbn [from_option x1 y1 x2 y2]. lia.
  - reflexivity.
Defined.

(** A configured rectangle whose width does not fit an [int]: the
    subtraction of [jrect_w] overflows. *)
Lemma load_window_pos_overflows :
  load_window_pos 640 480 (MkJRect 0 0 200 100)
    (Some (MkJRect INT_MIN 0 INT_MAX 100)) = None.
Proof. reflexivity. Qed.

(** ** The name of a new layer *)

Lemma Layer_nested_ind (P : Layer -> Prop) :
  (forall name, P (image_layer name)) ->
  (forall name layers, Forall P layers -> P (set_of_layers name layers)) ->
  forall layer, P layer.
Proof.
  intros Himage Hset. fix IH 1. intros [name|name layers]; [apply Himage|].
  apply Hset. induction layers as [|l layers IHlayers]; constructor; [apply IH|done].
Qed.

Lemma to_int_range z : INT_MIN <= to_int z <= INT_MAX.
Proof.
  unfold to_int, INT_MIN, INT_MAX.
  pose proof (Z.mod_pos_bound (z - -2147483648) (2 ^ 32)). lia.
Qed.

Lemma to_int_id z : INT_MIN <= z <= INT_MAX -> to_int z = z.
Proof.
  unfold to_int, INT_MIN, INT_MAX. intros Hz.
  rewrite Z.mod_small by lia. lia.
Qed.

Lemma digit_value_pretty_N_char d :
  (d < 10)%N -> digit_value (pretty_N_char d) = Some (Z.of_N d).
Proof.
  intros Hd.
  assert (d = 0 \/ d = 1 \/ d = 2 \/ d = 3 \/ d = 4 \/ d = 5 \/ d = 6 \/ d = 7 \/
          d = 8 \/ d = 9)%N as Hcases by lia.
  repeat destruct Hcases as [->|Hcases]; try reflexivity. by subst.
Qed.

Lemma isspace_pretty_N_char d : isspace (pretty_N_char d) = false.
Proof. unfold pretty_N_char. by repeat case_match. Qed.

(** Reading back the digits that [pretty_N_go] writes. *)
Lemma read_digits_pretty_N_go x : forall s,
  exists k, forall acc,
    read_digits (pretty_N_go x s) acc = read_digits s (acc * 10 ^ k + Z.of_N x) /\ 0 <= k.
Proof.
  induction (N.lt_wf_0 x) as [x _ IH]; intros s.
  assert (x = 0 \/ 0 < x)%N as [->|Hpos] by lia.
  - exists 0. intros acc. rewrite pretty_N_go_0. split; [f_equal; lia|done].
  - rewrite pretty_N_go_step by done.
    destruct (IH (x `div` 10)%N (N.div_lt x 10 Hpos eq_refl)
                 (String (pretty_N_char (x `mod` 10)) s)) as [k Hk].
    exists (k + 1). intros acc. destruct (Hk acc) as [-> Hk0]. split; [|lia].
    cbn [read_digits]. rewrite digit_value_pretty_N_char by (by apply N.mod_lt).
    f_equal. rewrite Z.pow_add_r by lia. rewrite N2Z.inj_div, N2Z.inj_mod.
    change (Z.of_N 10) with 10. pose proof (Z.div_mod (Z.of_N x) 10). lia.
Qed.

(** What [pretty_N_go] writes in front starts with a digit. *)
Lemma pretty_N_go_head x : forall s,
  (0 < x)%N -> exists d s', (d < 10)%N /\ pretty_N_go x s = String (pretty_N_char d) s'.
Proof.
  induction (N.lt_wf_0 x) as [x _ IH]; intros s Hpos.
  rewrite pretty_N_go_step by done.
  destruct (N.eq_0_gt_0_cases (x `div` 10)) as [->|Hdiv].
  - rewrite pretty_N_go_0. exists (x `mod` 10)%N, s. split; [by apply N.mod_lt|done].
  - apply IH; [by apply N.div_lt|done].
Qed.

Lemma read_digits_pretty_N (x : N) : read_digits (pretty x) 0 = Z.of_N x.
Proof.
  unfold pretty, pretty_N. case_decide as Hx; [by subst|].
  destruct (read_digits_pretty_N_go x "") as [k Hk]. destruct (Hk 0) as [-> _].
  cbn. lia.
Qed.

Lemma pretty_N_head (x : N) :
  exists d s', (d < 10)%N /\ pretty x = String (pretty_N_char d) s'.
Proof.
  unfold pretty, pretty_N. case_decide as Hx.
  - by exists 0%N, "".
  - apply pretty_N_go_head. lia.
Qed.

Lemma strtol_unsigned LONG_MAX c s :
  isspace c = false -> c <> "-"%char -> c <> "+"%char ->
  strtol LONG_MAX (String c s) = Z.min LONG_MAX (read_digits (String c s) 0).
Proof.
  intros Hspace Hminus Hplus. unfold strtol. cbn [skip_spaces]. rewrite Hspace.
  by destruct c as [[] [] [] [] [] [] [] []].
Qed.

Lemma strtol_minus LONG_MAX s :
  strtol LONG_MAX (String "-" s) = Z.max (- LONG_MAX - 1) (- read_digits s 0).
Proof. reflexivity. Qed.

(** [strtol] reads back what "%d" writes. *)
Lemma strtol_pretty LONG_MAX (k : Z) :
  - LONG_MAX - 1 <= k <= LONG_MAX -> strtol LONG_MAX (pretty k) = k.
Proof.
  intros Hk. unfold pretty, pretty_Z.
  assert (Hpos : forall p : positive,
            Z.min LONG_MAX (read_digits (pretty p) 0) = Z.min LONG_MAX (Z.pos p) /\
            strtol LONG_MAX (pretty p) = Z.min LONG_MAX (Z.pos p)).
  { intros p. unfold pretty, pretty_positive.
    pose proof (read_digits_pretty_N (N.pos p)) as Hread.
    destruct (pretty_N_head (N.pos p)) as (d & s' & Hd & Heq).
    split; [by rewrite Hread|].
    rewrite Heq in *. rewrite strtol_unsigned, Hread; [done|..].
    - apply isspace_pretty_N_char.
    - unfold pretty_N_char. by repeat case_match.
    - unfold pretty_N_char. by repeat case_match. }
  destruct k as [|p|p].
  - rewrite strtol_unsigned by done. change (read_digits "0" 0) with 0. lia.
  - destruct (Hpos p) as [_ ->]. lia.
  - change ("-" +:+ pretty p) with (String "-" (pretty p)). rewrite strtol_minus.
    unfold pretty at 1, pretty_positive. rewrite read_digits_pretty_N. lia.
Qed.

Lemma layer_num_range LONG_MAX layer : INT_MIN <= layer_num LONG_MAX layer <= INT_MAX.
Proof.
  unfold layer_num. destruct (String.prefix _ _); [apply to_int_range|].
  unfold INT_MIN, INT_MAX. lia.
Qed.

Lemma foldl_max_bounds (f : Layer -> Z) (lo hi : Z) layers : forall m0,
  let m := foldl (fun max l => Z.max (f l) max) m0 layers in
  m0 <= m /\ Forall (fun l => f l <= m) layers /\
  (lo <= m0 <= hi -> Forall (fun l => lo <= f l <= hi) layers -> lo <= m <= hi).
Proof.
  induction layers as [|l layers IH]; intros m0 m.
  - subst m. cbn. split_and!; [lia|done|done].
  - subst m. cbn [foldl]. destruct (IH (Z.max (f l) m0)) as (Hge & Hall & Hrange).
    cbv zeta in *. split_and!.
    + lia.
    + constructor; [lia|done].
    + intros Hm0 [Hl Hls]%Forall_cons. apply Hrange; [lia|done].
Qed.

(** [get_max_layer_num] is an [int], at least the number of every layer
    of the tree. *)
Lemma get_max_layer_num_bounds LONG_MAX layer :
  (forall l, l ∈ layers_of layer ->
             layer_num LONG_MAX l <= get_max_layer_num LONG_MAX layer) /\
  INT_MIN <= get_max_layer_num LONG_MAX layer <= INT_MAX.
Proof.
  induction layer as [name|name layers IH] using Layer_nested_ind.
  - cbn. split; [|apply layer_num_range].
    intros l Hl. apply list_elem_of_singleton in Hl as ->. cbn. lia.
  - cbn [get_max_layer_num layers_of].
    destruct (foldl_max_bounds (get_max_layer_num LONG_MAX) INT_MIN INT_MAX layers
                (layer_num LONG_MAX (set_of_layers name layers)))
      as (Hge & Hall & Hrange).
    cbv zeta in *. split.
    + intros l [->|Hl]%elem_of_cons; [done|].
      apply list_elem_of_bind in Hl as (child & Hl & Hchild).
      rewrite Forall_forall in IH, Hall.
      destruct (IH child Hchild) as [Hle _]. specialize (Hle l Hl).
      specialize (Hall child Hchild). lia.
    + apply Hrange; [apply layer_num_range|].
      eapply Forall_impl; [exact IH|]. by intros child [_ ?].
Qed.

Lemma prefix_Layer x : String.prefix "Layer " ("Layer " +:+ x) = true.
Proof. by destruct x. Qed.

(** The number of a layer named by [get_unique_layer_name]. *)
Lemma layer_num_new_name LONG_MAX layer (k : Z) :
  INT_MAX <= LONG_MAX -> INT_MIN <= k <= INT_MAX ->
  layer_name layer = "Layer " +:+ pretty k -> layer_num LONG_MAX layer = k.
Proof.
  intros Hlong Hk Hname. unfold layer_num. rewrite Hname.
  rewrite prefix_Layer.
  change (skip_chars 6 ("Layer " +:+ pretty k)) with (pretty k).
  rewrite strtol_pretty by (unfold INT_MIN, INT_MAX in *; lia).
  by apply to_int_id.
Qed.

(** The name given by [get_unique_layer_name] is new.  For every tree of
    layers, on a platform whose [long] is at least as wide as [int], the
    name that [get_unique_layer_name] returns is not the name of any layer
    of the tree; the function returns NULL only for a NULL sprite, and the
    addition overflows only when the largest layer number is [INT_MAX]. *)
Theorem get_unique_layer_name_is_new LONG_MAX root :
  INT_MAX <= LONG_MAX ->
  match get_unique_layer_name LONG_MAX (Some root) with
  | new_name name =>
      name = "Layer " +:+ pretty (get_max_layer_num LONG_MAX root + 1) /\
      forall l, l ∈ layers_of root -> layer_name l <> name
  | overflow_name => get_max_layer_num LONG_MAX root = INT_MAX
  | null_name => False
  end.
Proof.
  intros Hlong. unfold get_unique_layer_name.
  destruct (get_max_layer_num_bounds LONG_MAX root) as [Hle Hrange].
  destruct (Z.eqb_spec (get_max_layer_num LONG_MAX root) INT_MAX) as [Hmax|Hmax]; [done|].
  split; [done|]. intros l Hl Hname.
  specialize (Hle l Hl).
  rewrite (layer_num_new_name LONG_MAX l (get_max_layer_num LONG_MAX root + 1)) in Hle;
    [lia|done| |done].
  unfold INT_MIN, INT_MAX in *. lia.
Qed.

(** With a [long] of 32 bits the new layer of the sprite above is called
    "Layer 13"; a layer called "Layer 2147483647" makes the addition
    overflow. *)
Lemma get_unique_layer_name_witness :
  get_unique_layer_name INT_MAX (Some sample_layers) = new_name "Layer 13" /\
  (forall l, l ∈ layers_of sample_layers -> layer_name l <> "Layer 13") /\
  get_unique_layer_name INT_MAX (Some (image_layer "Layer 2147483647")) = overflow_name.
Proof.
  pose proof (get_unique_layer_name_is_new INT_MAX sample_layers (Z.le_refl _)) as Hnew.
  assert (Heq : get_unique_layer_name INT_MAX (Some sample_layers) = new_name "Layer 13")
    by (vm_compute; reflexivity).
  rewrite Heq in Hnew. destruct Hnew as [_ Hnew].
  split_and!; [done|done|vm_compute; reflexivity].
Defined.

(** ** The key handler on a complete configuration *)

Section key_handler_safety.
Context `{Collaborators}.

(** The key handler is safe on a complete configuration.  When the
    bindings made include one for every tool of [tools_list], and every
    command name bound is known to the registry, the handler never
    dereferences a NULL pointer, whatever key is pressed: it returns,
    having selected a tool, executed a command, or done nothing. *)
Theorem key_handler_is_safe_on_complete_configuration
    ops current_tool children top_window msg :
  (forall tool, tool ∈ tools_list -> exists k, bind_tool k tool ∈ ops) ->
  (forall k n p, bind_command k n p ∈ ops -> is_Some (get_command_by_name n)) ->
  manager_msg_proc_keypressed (run_binds ops empty_table)
    current_tool children top_window msg <> NullDereference.
Proof.
  intros Htools Hcommands. set (t := run_binds ops empty_table).
  assert (Hbound : forall tool, tool ∈ tools_list ->
            is_Some (get_keyboard_shortcut_for_tool tool t)).
  { intros tool Hin.
    assert (Haccel : is_Some (get_accel_to_change_tool tool t)).
    { apply get_accel_to_change_tool_is_Some. unfold t. rewrite targets_run_binds.
      destruct (Htools tool Hin) as [k Hk].
      apply list_elem_of_fmap. by exists (bind_tool k tool). }
    unfold get_accel_to_change_tool in Haccel.
    destruct (get_keyboard_shortcut_for_tool tool t) as [[i s]|]; [eauto|].
    by destruct Haccel. }
  unfold manager_msg_proc_keypressed.
  destruct (list_find _ (shortcuts t)) as [[i shortcut]|] eqn:Hfind; [|done].
  apply list_find_Some in Hfind as (Hi & _ & _).
  destruct (target shortcut) as [[command|] params|tool] eqn:Htarget.
  - by repeat case_match.
  - assert (Hin : target shortcut ∈ target <$> shortcuts t).
    { apply list_elem_of_fmap_2. by eapply list_elem_of_lookup_2. }
    unfold t in Hin. rewrite targets_run_binds, list_elem_of_fmap in Hin.
    destruct Hin as ([k n p|k tool] & Heq & Hop); rewrite Htarget in Heq; cbn in Heq;
      [|done].
    destruct (Hcommands k n p Hop) as [c Hc]. rewrite Hc in Heq. done.
  - by rewrite (collect_group_Some t msg tools_list Hbound).
Qed.

End key_handler_safety.

(** Both tools of the sample configuration are bound to "N". *)
Lemma key_handler_is_safe_witness :
  @manager_msg_proc_keypressed sample_collaborators
    (@run_binds sample_collaborators
       [bind_tool "N" 10%nat; bind_command "Ctrl+N" "new_file" None; bind_tool "N" 20%nat]
       empty_table) 20%nat [desktop_window] (Some 1%nat) key_N <> NullDereference.
Proof.
  apply (@key_handler_is_safe_on_complete_configuration sample_collaborators).
  - intros tool Hin. exists "N". cbn in Hin.
    rewrite !elem_of_cons in Hin. rewrite !elem_of_cons.
    destruct Hin as [->|[->|Hin]]; [by left|by right; right; left|].
    by apply elem_of_nil in Hin.
  - intros k n p Hin. rewrite !elem_of_cons in Hin.
    destruct Hin as [?|[Heq|[?|Hin]]]; try done; [|by apply elem_of_nil in Hin].
    simplify_eq. by eexists.
Defined.

(** ** Bitmaps and fonts *)

Lemma alive_after_app calls1 : forall bitmaps fonts calls2,
  alive_after bitmaps fonts (calls1 ++ calls2) =
  alive_after bitmaps fonts calls1 ≫= fun '(b, f) => alive_after b f calls2.
Proof.
  induction calls1 as [|c calls1 IH]; intros bitmaps fonts calls2; [done|].
  destruct c as [id w h|[|id]|id path|f size|[|id]|f]; cbn [app alive_after];
    try done; try apply IH; by case_match.
Qed.

Section display_facts.
Context `{WidgetHost} `{FontHost}.

Lemma display_inv_initial scr cfg : display_inv (initial_display scr cfg).
Proof.
  exists ∅. cbn. split_and!; [done..|]. intros id Hid.
  rewrite union_empty_l_L in Hid. by apply elem_of_empty in Hid.
Qed.

Lemma display_inv_set_screen_scaling scaling d :
  display_inv d -> display_inv (set_screen_scaling scaling d).
Proof. intros (bitmaps & Hcalls & Hscreen & Hfresh). by exists bitmaps. Qed.

(** [reload_default_font] keeps the invariant and leaves a font in the
    theme. *)
Lemma display_inv_reload_default_font d :
  display_inv d ->
  display_inv (reload_default_font d) /\
  is_Some (default_font (reload_default_font d)) /\
  ji_screen (reload_default_font d) = ji_screen d /\
  ji_screen_created (reload_default_font d) = ji_screen_created d /\
  display_double_buffering (reload_default_font d) = display_double_buffering d /\
  screen_scaling (reload_default_font d) = screen_scaling d.
Proof.
  intros (bitmaps & Hcalls & Hscreen & Hfresh).
  unfold reload_default_font.
  set (destroyed := match default_font d with
                    | Some f => if decide (f = allegro_font) then [] else [destroy_font f]
                    | None => []
                    end).
  assert (Hdestroyed : alive_after bitmaps (theme_fonts d) destroyed = Some (bitmaps, ∅)).
  { subst destroyed. unfold theme_fonts.
    destruct (default_font d) as [[|id]|]; [done| |done].
    rewrite decide_False by done. cbn.
    rewrite bool_decide_eq_true_2 by (by apply elem_of_singleton).
    by rewrite difference_diag_L. }
  assert (Hbitmaps : forall id, id ∈ bitmaps -> (id < created d)%nat).
  { intros id Hid. apply Hfresh. apply elem_of_union. by left. }
  destruct (list_find _ (font_dirs d)) as [[i path]|] eqn:Hfind.
  - split_and!; try done; try (by eexists).
    exists bitmaps. cbn [display_calls default_font theme_fonts ji_screen_created
                         ji_screen created].
    split_and!; [|done|].
    + rewrite alive_after_app, Hcalls. cbn [mbind option_bind].
      rewrite alive_after_app, Hdestroyed. cbn [mbind option_bind app alive_after].
      rewrite union_empty_l_L.
      destruct (default false (ji_font_load path)); cbn [app alive_after font_usable];
        by rewrite ?bool_decide_eq_true_2 by (by apply elem_of_singleton).
    + intros id [Hid|Hid]%elem_of_union.
      * specialize (Hbitmaps id Hid). lia.
      * apply elem_of_singleton in Hid as ->. lia.
  - split_and!; try done; try (by eexists).
    exists bitmaps. cbn [display_calls default_font theme_fonts ji_screen_created
                         ji_screen created].
    split_and!; [|done|].
    + rewrite alive_after_app, Hcalls. cbn [mbind option_bind].
      by rewrite alive_after_app, Hdestroyed.
    + intros id [Hid|Hid]%elem_of_union; [by apply Hbitmaps|].
      by apply elem_of_empty in Hid.
Qed.

End display_facts.

Section display_properties.
Context `{WidgetHost} `{FontHost}.

Lemma display_inv_gui_setup_screen scr d :
  display_inv d -> ji_screen_created d = display_double_buffering d ->
  let d' := gui_setup_screen scr d in
  display_inv d' /\ is_Some (default_font d') /\
  ji_screen_created d' = display_double_buffering d' /\
  display_double_buffering d' = (screen_scaling d >? 1).
Proof.
  intros (bitmaps & Hcalls & Hscreen & Hfresh) Hflag d'. subst d'.
  unfold gui_setup_screen.
  set (d1 := if screen_scaling d >? 1 then _ else _).
  assert (Hd1 : display_inv d1 /\ ji_screen_created d1 = display_double_buffering d1 /\
                display_double_buffering d1 = (screen_scaling d >? 1)).
  { subst d1. destruct (screen_scaling d >? 1) eqn:Hscaling; [|split; [|done]].
    - split; [|done].
      destruct (ji_screen_created d) eqn:Hcreated.
      + destruct Hscreen as (old & Hold & Hin).
        exists ((bitmaps ∪ {[created d]}) ∖ {[old]}).
        cbn [display_calls theme_fonts default_font ji_screen_created ji_screen created].
        assert (Hlt : (old < created d)%nat).
        { apply Hfresh, elem_of_union. by left. }
        split_and!.
        * rewrite alive_after_app, Hcalls, Hold. cbn [mbind option_bind alive_after].
          rewrite bool_decide_eq_true_2; [done|]. apply elem_of_union. by left.
        * exists (created d). split; [done|]. apply elem_of_difference. split.
          -- apply elem_of_union. right. by apply elem_of_singleton.
          -- rewrite elem_of_singleton. lia.
        * intros id [Hid|Hid]%elem_of_union.
          -- apply elem_of_difference in Hid as [[Hid|Hid]%elem_of_union _].
             ++ enough (id < created d)%nat by lia. apply Hfresh, elem_of_union. by left.
             ++ apply elem_of_singleton in Hid as ->. lia.
          -- enough (id < created d)%nat by lia. apply Hfresh, elem_of_union. by right.
      + exists (bitmaps ∪ {[created d]}).
        cbn [display_calls theme_fonts default_font ji_screen_created ji_screen created].
        split_and!.
        * by rewrite alive_after_app, Hcalls.
        * exists (created d). split; [done|].
          apply elem_of_union. right. by apply elem_of_singleton.
        * intros id [[Hid|Hid]%elem_of_union|Hid]%elem_of_union.
          -- enough (id < created d)%nat by lia. apply Hfresh, elem_of_union. by left.
          -- apply elem_of_singleton in Hid as ->. lia.
          -- enough (id < created d)%nat by lia. apply Hfresh, elem_of_union. by right.
    - exists bitmaps.
      cbn [display_calls theme_fonts default_font ji_screen_created ji_screen created].
      split_and!; done. }
  destruct Hd1 as (Hinv1 & Hflag1 & Hbuffering1).
  destruct (display_inv_reload_default_font d1 Hinv1)
    as ((bitmaps2 & Hcalls2 & Hscreen2 & Hfresh2) & Hfont & Hji & Hcreated & Hdb & _).
  cbn [default_font ji_screen_created display_double_buffering].
  split_and!; [|done|congruence|congruence].
  by exists bitmaps2.
Qed.

Lemma display_inv_run_display_ops ops : forall d,
  display_inv d -> ji_screen_created d = display_double_buffering d ->
  let d' := run_display_ops ops d in
  display_inv d' /\ ji_screen_created d' = display_double_buffering d' /\
  (is_Some (default_font d) \/
   (exists op, op ∈ ops /\ forall scaling, op <> op_set_screen_scaling scaling) ->
   is_Some (default_font d')).
Proof.
  induction ops as [|op ops IH]; intros d Hinv Hflag d'.
  - subst d'. cbn. split_and!; [done..|].
    intros [?|(op & Hin & _)]; [done|by apply elem_of_nil in Hin].
  - subst d'. cbn [run_display_ops foldl].
    assert (Hstep : display_inv (run_display_op d op) /\
                    ji_screen_created (run_display_op d op) =
                      display_double_buffering (run_display_op d op) /\
                    (is_Some (default_font d) \/
                     (forall scaling, op <> op_set_screen_scaling scaling) ->
                     is_Some (default_font (run_display_op d op)))).
    { destruct op as [scaling|scr|]; cbn [run_display_op].
      - split_and!; [by apply display_inv_set_screen_scaling|done|].
        intros [?|Hne]; [done|]. by destruct (Hne scaling).
      - destruct (display_inv_gui_setup_screen scr d Hinv Hflag) as (? & ? & ? & _).
        by split_and!.
      - destruct (display_inv_reload_default_font d Hinv) as (? & ? & _ & -> & -> & _).
        by split_and!. }
    destruct Hstep as (Hinv' & Hflag' & Hfont').
    destruct (IH (run_display_op d op) Hinv' Hflag') as (Hinv'' & Hflag'' & Hfont'').
    cbv zeta in *. split_and!; [done..|].
    intros [Hsome|(op' & [->|Hin]%elem_of_cons & Hne)]; apply Hfont''.
    + left. apply Hfont'. by left.
    + left. apply Hfont'. by right.
    + right. by exists op'.
Qed.

(** Bitmaps and fonts are used safely.  From a state in which the display
    is consistent (as at the start of the program), whatever the program
    does with the display (changes of scaling, calls of [gui_setup_screen]
    and of [reload_default_font]) and then at [exit_module_gui]: no bitmap
    and no font is destroyed twice or used after it was destroyed, the
    screen and the font of Allegro are never destroyed, [ji_screen] is
    always the screen of Allegro or a bitmap that is alive, and after the
    exit it is the screen of Allegro; the only loaded font left alive is
    the font of the theme, which is not NULL once the screen was set up or
    the font reloaded. *)
Theorem display_resources_are_used_safely ops d0 scr' :
  display_inv d0 -> ji_screen_created d0 = display_double_buffering d0 ->
  let d := run_display_ops ops d0 in
  let d' := exit_module_gui_screen scr' d in
  display_inv d /\ display_inv d' /\
  ji_screen d' = allegro_screen /\ ji_screen_created d' = false /\
  ((exists op, op ∈ ops /\ forall scaling, op <> op_set_screen_scaling scaling) ->
   is_Some (default_font d')).
Proof.
  intros Hinv0 Hflag0 d d'.
  destruct (display_inv_run_display_ops ops d0 Hinv0 Hflag0) as (Hinv & Hflag & Hfont).
  fold d in Hinv, Hflag, Hfont.
  assert (Hfont' : default_font d' = default_font d).
  { subst d'. unfold exit_module_gui_screen. by destruct (display_double_buffering d). }
  destruct Hinv as (bitmaps & Hcalls & Hscreen & Hfresh).
  assert (Hexit : display_inv d' /\ ji_screen d' = allegro_screen /\
                  ji_screen_created d' = false).
  { subst d'. unfold exit_module_gui_screen.
    destruct (display_double_buffering d) eqn:Hdb; rewrite Hflag in Hscreen.
    - destruct Hscreen as (old & Hold & Hin). split; [|done].
      exists (bitmaps ∖ {[old]}).
      cbn [display_calls theme_fonts default_font ji_screen_created ji_screen created].
      rewrite Hflag. split_and!.
      + rewrite alive_after_app, Hcalls, Hold. cbn [mbind option_bind alive_after].
        by rewrite bool_decide_eq_true_2.
      + done.
      + intros id [[Hid _]%elem_of_difference|Hid]%elem_of_union;
          apply Hfresh, elem_of_union; [by left|by right].
    - split_and!; [|done|by rewrite Hflag]. exists bitmaps.
      rewrite Hflag. by split_and!. }
  destruct Hexit as (Hinv' & Hji & Hcreated).
  split_and!; try done.
  - by exists bitmaps.
  - intros Hop. rewrite Hfont'. apply Hfont. by right.
Qed.

End display_properties.

Lemma display_resources_witness :
  let ops := [op_set_screen_scaling 2; op_gui_setup_screen sample_screen;
              op_reload_default_font; op_gui_setup_screen sample_screen] in
  let d0 := initial_display sample_screen empty_config in
  let d := @run_display_ops sample_host sample_font_host ops d0 in
  let d' := exit_module_gui_screen sample_screen d in
  display_inv d0 /\ ji_screen_created d0 = display_double_buffering d0 /\
  display_inv d /\ display_inv d' /\
  ji_screen d' = allegro_screen /\ ji_screen_created d' = false /\
  ((exists op, op ∈ ops /\ forall scaling, op <> op_set_screen_scaling scaling) ->
   is_Some (default_font d')).
Proof.
  intros ops d0 d d'.
  split; [apply display_inv_initial|]. split; [reflexivity|].
  apply (@display_resources_are_used_safely sample_host sample_font_host
           ops d0 sample_screen); [apply display_inv_initial|reflexivity].
Defined.
